(** * go-im: message pipeline, read receipts, presence and stream coordinator

    A shallow embedding of the parts of go-im that carry the message
    pipeline:

    - [internal/models]    : [Message], conversation types, stream statuses;
    - [internal/store]     : the SQL [MessageStore] (table [messages] with its
                             primary key and the [uniq_conv_client] unique key),
                             [ReceiptStore], [ConversationStore], [GroupStore.IsMuted];
    - [internal/cache]     : the Redis key space (string keys and set keys),
                             [SetDeviceOnline] / [SetDeviceOffline];
    - [internal/services]  : [MessageService.Send], [StartStream],
                             [SendStreamChunk], [EndStream], [Recall], [List];
    - [internal/ws]        : [Server.handleInbound] for the actions
                             [send], [recall] and [read];
    - [domain/entities]    : [Message.CanRecall].

    Conventions.  Go's [int64] and [int] values are integers of [Z]; the
    code only compares and increments them, far from the wrap-around.  A
    [time.Time] is the number of nanoseconds since the epoch.  Everything the
    code asks of its environment during one call (a fresh UUID, the clock,
    whether a database statement fails, the rate limiter's verdict) is an
    explicit [Env] argument.  The database and Redis are fields of one
    [State] that every operation threads through. *)

From Stdlib Require Import ZArith Bool Lia.
From stdpp Require Import base decidable option list sorting strings pretty gmap fin_maps fin_sets.

Open Scope string_scope.
Open Scope list_scope.
Open Scope Z_scope.

(** ** internal/models *)

Module models.

(** [type ConversationType string] with its two constants. *)
Definition ConversationType := string.
Definition ConversationTypeC2C : ConversationType := "c2c".
Definition ConversationTypeGroup : ConversationType := "group".

Definition StreamStatusStart := "start".
Definition StreamStatusChunk := "chunk".
Definition StreamStatusEnd := "end".
Definition StreamStatusError := "error".

(** A [time.Time], in nanoseconds since the epoch. *)
Definition Time := Z.

Record Message := mkMessage {
  ServerMsgID : string;
  ClientMsgID : string;
  ConvID : string;
  ConvType : ConversationType;
  FromUserID : string;
  ToUserID : string;
  GroupID : string;
  Seq : Z;
  Timestamp : Time;
  Type_ : string;
  Payload : string;
  Recalled : bool;
  StreamID : string;
  StreamSeq : Z;
  StreamStatus : string;
  IsStreaming : bool;
  ExpireAt : option Time;
  BurnAfterRead : bool
}.

#[global] Instance Message_eq_dec : EqDecision Message.
Proof. solve_decision. Defined.

End models.
Export models.

(** [t.UnixMilli()] for a time in nanoseconds. *)
Definition UnixMilli (t : Time) : Z := t `div` 1000000.

(** ** The SQL message store (internal/store, [MessageStore]) *)

Module MessageStore.

(** The columns that [Append] writes and [List]/[GetBySeq] scan back: the
    table has no stream columns, so a row read back has them at Go's zero
    values. *)
Definition row_of (m : Message) : Message :=
  {| ServerMsgID := ServerMsgID m; ClientMsgID := ClientMsgID m;
     ConvID := ConvID m; ConvType := ConvType m;
     FromUserID := FromUserID m; ToUserID := ToUserID m;
     GroupID := GroupID m; Seq := Seq m; Timestamp := Timestamp m;
     Type_ := Type_ m; Payload := Payload m; Recalled := Recalled m;
     StreamID := ""; StreamSeq := 0; StreamStatus := ""; IsStreaming := false;
     ExpireAt := ExpireAt m; BurnAfterRead := BurnAfterRead m |}.

(** [PRIMARY KEY (server_msg_id)] and [UNIQUE KEY uniq_conv_client
    (conv_id, client_msg_id)]: does inserting [m] hit an existing row? *)
Definition conflicts (m r : Message) : bool :=
  bool_decide (ServerMsgID r = ServerMsgID m)
  || (bool_decide (ConvID r = ConvID m) && bool_decide (ClientMsgID r = ClientMsgID m)).

Definition has_conflict (tbl : list Message) (m : Message) : bool :=
  existsb (conflicts m) tbl.

(** [INSERT IGNORE INTO messages(...) VALUES(...)]: the row is added unless
    it duplicates a key, in which case the statement does nothing and
    reports no error. *)
Definition Append (tbl : list Message) (m : Message) : list Message :=
  if has_conflict tbl m then tbl else tbl ++ [row_of m].

(** [UPDATE messages SET recalled=1 WHERE conv_id=? AND server_msg_id=?] *)
Definition set_recalled (r : Message) : Message :=
  {| ServerMsgID := ServerMsgID r; ClientMsgID := ClientMsgID r;
     ConvID := ConvID r; ConvType := ConvType r;
     FromUserID := FromUserID r; ToUserID := ToUserID r;
     GroupID := GroupID r; Seq := Seq r; Timestamp := Timestamp r;
     Type_ := Type_ r; Payload := Payload r; Recalled := true;
     StreamID := StreamID r; StreamSeq := StreamSeq r;
     StreamStatus := StreamStatus r; IsStreaming := IsStreaming r;
     ExpireAt := ExpireAt r; BurnAfterRead := BurnAfterRead r |}.

Definition Recall (tbl : list Message) (convID serverMsgID : string) : list Message :=
  map (fun r => if bool_decide (ConvID r = convID) && bool_decide (ServerMsgID r = serverMsgID)
                then set_recalled r else r) tbl.

(** [UPDATE messages SET recalled=1 WHERE conv_id=? AND seq=? AND burn_after_read=1] *)
Definition RecallBySeq (tbl : list Message) (convID : string) (seq : Z) : list Message :=
  map (fun r => if bool_decide (ConvID r = convID) && bool_decide (Seq r = seq) && BurnAfterRead r
                then set_recalled r else r) tbl.

(** [SELECT ... FROM messages WHERE conv_id=? AND seq=?] read with
    [QueryRow]: the first matching row, or [sql.ErrNoRows]. *)
Definition GetBySeq (tbl : list Message) (convID : string) (seq : Z) : option Message :=
  List.find (fun r => bool_decide (ConvID r = convID) && bool_decide (Seq r = seq)) tbl.

(** [expire_at IS NULL OR expire_at > NOW()] *)
Definition not_expired (now : Time) (r : Message) : bool :=
  match ExpireAt r with
  | None => true
  | Some t => bool_decide (now < t)
  end.

(** The [WHERE] clause of [List]. *)
Definition listed (convID : string) (fromSeq : Z) (now : Time) (r : Message) : bool :=
  bool_decide (ConvID r = convID) && bool_decide (fromSeq < Seq r)
  && negb (Recalled r) && not_expired now r.

(** [if limit <= 0 || limit > 200 { limit = 50 }] *)
Definition effective_limit (limit : Z) : Z :=
  if bool_decide (limit <= 0) || bool_decide (200 < limit) then 50 else limit.

Definition seq_le (a b : Message) : Prop := Seq a <= Seq b.

#[global] Instance seq_le_dec : RelDecision seq_le.
Proof. intros a b. unfold seq_le. apply _. Defined.

(** [... ORDER BY seq ASC LIMIT ?] *)
Definition List (tbl : list Message) (convID : string) (fromSeq limit : Z) (now : Time)
  : list Message :=
  take (Z.to_nat (effective_limit limit))
       (merge_sort seq_le (List.filter (listed convID fromSeq now) tbl)).

(** [DELETE FROM messages WHERE expire_at IS NOT NULL AND expire_at<=?] *)
Definition DeleteExpired (tbl : list Message) (before : Time) : list Message :=
  List.filter (fun r => match ExpireAt r with
                        | None => true
                        | Some t => negb (bool_decide (t <= before))
                        end) tbl.

End MessageStore.

(** ** The shared state: database tables, Redis, message queue *)

(** [services.Deliver]: what is published to clients and returned to the
    gateway; [Timestamp] is in milliseconds. *)
Record Deliver := mkDeliver {
  dServerMsgID : string;
  dClientMsgID : string;
  dConvID : string;
  dConvType : ConversationType;
  dFrom : string;
  dTo : string;
  dGroupID : string;
  dSeq : Z;
  dTimestamp : Z;
  dType : string;
  dPayload : string;
  dStreamID : string;
  dStreamSeq : Z;
  dStreamStatus : string;
  dIsStreaming : bool;
  dExpireAt : option Time;
  dBurnAfterRead : bool
}.

(** The JSON frames of the wire protocol that the modelled actions write to
    a connection or publish on a delivery channel. *)
Inductive Frame :=
| FDeliver (d : Deliver)
| FAck (d : Deliver)
| FError (code : string) (message : string)
| FReadAck (convId : string) (seq : Z)
| FRecalled (convId : string) (seq : Z)
| FMention (groupId convId from : string) (seq : Z)
| FStreamStarted (d : Deliver)
| FStreamEnded (streamId : string).

(** The JSON object that [StartStream] caches under [im:stream:<id>]. *)
Record StreamInfo := mkStreamInfo {
  si_convId : string;
  si_convType : string;
  si_from : string;
  si_to : string;
  si_groupId : string;
  si_startTime : Z;
  si_seq : Z
}.

(** A value under a Redis string key: an integer written by [Set], or the
    encoded stream state. *)
Inductive CacheVal :=
| VInt (n : Z)
| VStream (i : StreamInfo).

(** Row of [conversations]. *)
Record ConversationRow := mkConversationRow {
  conv_type : string;
  peer_id : string;
  group_id : string;
  last_seq : Z;
  updated_at : Time
}.

(** Row of [user_conversations]. *)
Record UserConversationRow := mkUserConversationRow {
  uc_conv_type : string;
  uc_peer_id : string;
  uc_group_id : string;
  uc_pinned : bool;
  uc_muted : bool;
  uc_draft : option string;
  uc_updated_at : Time
}.

(** Event produced to Kafka for the asynchronous group fan-out. *)
Record GroupUpdate := mkGroupUpdate {
  gu_groupId : string;
  gu_convId : string;
  gu_from : string;
  gu_type : string;
  gu_ts : Z
}.

(** The goroutine [Send] starts when there is no producer: it upserts
    [user_conversations] for every member, [ft_batch] at a time. *)
Record FanoutTask := mkFanoutTask {
  ft_gid : string;
  ft_convID : string;
  ft_convType : string;
  ft_from : string;
  ft_batch : Z;
  ft_sleep : Z
}.

Record State := mkState {
  messages : list Message;
  conversations : gmap string ConversationRow;
  user_conversations : gmap (string * string) UserConversationRow;
  read_receipts : gmap (string * string) Z;
  conv_deletes : gmap (string * string) Time;
  groups_muted : gmap string bool;
  members_muted_until : gmap (string * string) (option Time);
  kv : gmap string CacheVal;
  sets : gmap string (gset string);
  published : list (string * Frame);
  mq : list GroupUpdate;
  spawned : list FanoutTask
}.

Definition with_messages (f : list Message -> list Message) (st : State) : State :=
  mkState (f (messages st)) (conversations st) (user_conversations st) (read_receipts st)
          (conv_deletes st) (groups_muted st) (members_muted_until st) (kv st) (sets st)
          (published st) (mq st) (spawned st).

Definition with_conversations (f : gmap string ConversationRow -> gmap string ConversationRow)
  (st : State) : State :=
  mkState (messages st) (f (conversations st)) (user_conversations st) (read_receipts st)
          (conv_deletes st) (groups_muted st) (members_muted_until st) (kv st) (sets st)
          (published st) (mq st) (spawned st).

Definition with_user_conversations
  (f : gmap (string * string) UserConversationRow -> gmap (string * string) UserConversationRow)
  (st : State) : State :=
  mkState (messages st) (conversations st) (f (user_conversations st)) (read_receipts st)
          (conv_deletes st) (groups_muted st) (members_muted_until st) (kv st) (sets st)
          (published st) (mq st) (spawned st).

Definition with_read_receipts
  (f : gmap (string * string) Z -> gmap (string * string) Z) (st : State) : State :=
  mkState (messages st) (conversations st) (user_conversations st) (f (read_receipts st))
          (conv_deletes st) (groups_muted st) (members_muted_until st) (kv st) (sets st)
          (published st) (mq st) (spawned st).

Definition with_conv_deletes
  (f : gmap (string * string) Time -> gmap (string * string) Time) (st : State) : State :=
  mkState (messages st) (conversations st) (user_conversations st) (read_receipts st)
          (f (conv_deletes st)) (groups_muted st) (members_muted_until st) (kv st) (sets st)
          (published st) (mq st) (spawned st).

Definition with_kv (f : gmap string CacheVal -> gmap string CacheVal) (st : State) : State :=
  mkState (messages st) (conversations st) (user_conversations st) (read_receipts st)
          (conv_deletes st) (groups_muted st) (members_muted_until st) (f (kv st)) (sets st)
          (published st) (mq st) (spawned st).

Definition with_sets (f : gmap string (gset string) -> gmap string (gset string))
  (st : State) : State :=
  mkState (messages st) (conversations st) (user_conversations st) (read_receipts st)
          (conv_deletes st) (groups_muted st) (members_muted_until st) (kv st) (f (sets st))
          (published st) (mq st) (spawned st).

Definition with_published (f : list (string * Frame) -> list (string * Frame))
  (st : State) : State :=
  mkState (messages st) (conversations st) (user_conversations st) (read_receipts st)
          (conv_deletes st) (groups_muted st) (members_muted_until st) (kv st) (sets st)
          (f (published st)) (mq st) (spawned st).

Definition with_mq (f : list GroupUpdate -> list GroupUpdate) (st : State) : State :=
  mkState (messages st) (conversations st) (user_conversations st) (read_receipts st)
          (conv_deletes st) (groups_muted st) (members_muted_until st) (kv st) (sets st)
          (published st) (f (mq st)) (spawned st).

Definition with_spawned (f : list FanoutTask -> list FanoutTask) (st : State) : State :=
  mkState (messages st) (conversations st) (user_conversations st) (read_receipts st)
          (conv_deletes st) (groups_muted st) (members_muted_until st) (kv st) (sets st)
          (published st) (mq st) (f (spawned st)).

Definition empty_state : State :=
  mkState [] ∅ ∅ ∅ ∅ ∅ ∅ ∅ ∅ [] [] [].

(** What one call obtains from its environment. *)
Record Env := mkEnv {
  env_uuid : string;        (* uuid.NewString() *)
  env_nano : Z;             (* time.Now().UnixNano(), used as Seq *)
  env_now : Time;           (* time.Now() *)
  env_append_fails : bool;  (* Store.Append returns an error *)
  env_get_fails : bool;     (* Store.GetBySeq returns an error *)
  env_recall_fails : bool;  (* Store.RecallBySeq returns an error *)
  env_rate_allowed : bool   (* the token bucket's verdict *)
}.

(** ** internal/cache: Redis *)

Module cache.

Definition OnlineUsersKey : string := "im:presence:online".
Definition DeliverChannel (userID : string) : string := "im:deliver:" +:+ userID.
Definition DevicePresenceKey (userID : string) : string := "im:presence:devices:" +:+ userID.

(** Redis set commands.  A key whose set becomes empty is removed, and a
    missing key reads as the empty set. *)
Definition smembers (s : gmap string (gset string)) (key : string) : gset string :=
  default ∅ (s !! key).

Definition SAdd (key member : string) (s : gmap string (gset string))
  : gmap string (gset string) :=
  <[key := {[member]} ∪ smembers s key]> s.

Definition SRem (key member : string) (s : gmap string (gset string))
  : gmap string (gset string) :=
  let rest := smembers s key ∖ {[member]} in
  if decide (rest = ∅) then delete key s else <[key := rest]> s.

Definition SCard (s : gmap string (gset string)) (key : string) : Z :=
  Z.of_nat (size (smembers s key)).

Definition Publish (channel : string) (f : Frame) (st : State) : State :=
  with_published (fun p => p ++ [(channel, f)]) st.

(** [SetDeviceOnline]: a transaction pipeline of two [SADD]s. *)
Definition SetDeviceOnline (userID deviceID : string) (st : State) : State :=
  with_sets (fun s => SAdd OnlineUsersKey userID (SAdd (DevicePresenceKey userID) deviceID s)) st.

(** [SetDeviceOffline]: [SREM] the device, then [SCARD]; the user leaves
    the online set when no device is left. *)
Definition SetDeviceOffline (userID deviceID : string) (st : State) : State :=
  let st1 := with_sets (SRem (DevicePresenceKey userID) deviceID) st in
  if bool_decide (SCard (sets st1) (DevicePresenceKey userID) = 0)
  then with_sets (SRem OnlineUsersKey userID) st1
  else st1.

Definition OnlineDevices (st : State) (userID : string) : gset string :=
  smembers (sets st) (DevicePresenceKey userID).

Definition IsOnline (st : State) (userID : string) : bool :=
  bool_decide (userID ∈ smembers (sets st) OnlineUsersKey).

End cache.

(** ** internal/store: receipts, conversations, groups *)

Module ReceiptStore.

Definition readSeqCacheKey (userID convID : string) : string :=
  "im:readseq:" +:+ userID +:+ ":" +:+ convID.

(** [INSERT ... ON DUPLICATE KEY UPDATE seq=IF(VALUES(seq) > seq, VALUES(seq), seq)] *)
Definition UpsertReadSeq (userID convID : string) (seq : Z) (st : State) : State :=
  with_read_receipts
    (fun rr => match rr !! (userID, convID) with
               | None => <[(userID, convID) := seq]> rr
               | Some old => <[(userID, convID) := if bool_decide (old < seq) then seq else old]> rr
               end) st.

(** [SELECT seq FROM read_receipts ...]; no row reads as 0. *)
Definition GetReadSeq (st : State) (userID convID : string) : Z :=
  default 0 (read_receipts st !! (userID, convID)).

(** One iteration of the loop of [MarkAllReadTx]:
    [INSERT ... ON DUPLICATE KEY UPDATE seq=VALUES(seq)], then the cache. *)
Definition mark_one (userID : string) (lastSeqs : gmap string Z) (st : State) (cid : string)
  : State :=
  let seq := default 0 (lastSeqs !! cid) in
  if bool_decide (seq <= 0) then st
  else with_kv (fun m => <[readSeqCacheKey userID cid := VInt seq]> m)
         (with_read_receipts (fun rr => <[(userID, cid) := seq]> rr) st).

Definition MarkAllReadTx (userID : string) (convIDs : list string) (lastSeqs : gmap string Z)
  (st : State) : State :=
  foldl (mark_one userID lastSeqs) st convIDs.

(** [convIDs[i:end]] for [i = 0, chunkSize, 2*chunkSize, ...] *)
Fixpoint chunks_of (fuel : nat) (n : nat) (l : list string) : list (list string) :=
  match fuel with
  | O => []
  | S fuel' =>
      match l with
      | [] => []
      | _ => take n l :: chunks_of fuel' n (drop n l)
      end
  end.

(** [MarkAllReadInChunks], its chunks run one after the other in slice
    order (each chunk is one transaction; here every transaction commits). *)
Definition MarkAllReadInChunks (userID : string) (convIDs : list string)
  (lastSeqs : gmap string Z) (chunkSize : Z) (st : State) : State :=
  let chunkSize := if bool_decide (chunkSize <= 0) then 200 else chunkSize in
  foldl (fun s ch => MarkAllReadTx userID ch lastSeqs s) st
        (chunks_of (length convIDs) (Z.to_nat chunkSize) convIDs).

End ReceiptStore.

Module ConversationStore.

(** [INSERT INTO conversations ... ON DUPLICATE KEY UPDATE
     last_seq=IF(VALUES(last_seq)>last_seq, VALUES(last_seq), last_seq),
     updated_at=VALUES(updated_at)] *)
Definition UpsertConversation (convID convType peerID groupID : string) (lastSeq : Z)
  (now : Time) (st : State) : State :=
  with_conversations
    (fun cs => match cs !! convID with
               | None => <[convID := mkConversationRow convType peerID groupID lastSeq now]> cs
               | Some r =>
                   <[convID := mkConversationRow (conv_type r) (peer_id r) (group_id r)
                                 (if bool_decide (last_seq r < lastSeq) then lastSeq else last_seq r)
                                 now]> cs
               end) st.

(** [INSERT INTO user_conversations ... ON DUPLICATE KEY UPDATE updated_at=VALUES(updated_at)] *)
Definition UpsertUserConversation (userID convID convType peerID groupID : string)
  (now : Time) (st : State) : State :=
  with_user_conversations
    (fun ucs => match ucs !! (userID, convID) with
                | None => <[(userID, convID) :=
                              mkUserConversationRow convType peerID groupID false false None now]> ucs
                | Some r =>
                    <[(userID, convID) :=
                        mkUserConversationRow (uc_conv_type r) (uc_peer_id r) (uc_group_id r)
                          (uc_pinned r) (uc_muted r) (uc_draft r) now]> ucs
                end) st.

Definition GetConversationLastSeq (st : State) (convID : string) : Z :=
  match conversations st !! convID with
  | Some r => last_seq r
  | None => 0
  end.

End ConversationStore.

Module GroupStore.

(** [IsMuted]: the whole group is muted, or the member is muted until a
    time after now. *)
Definition IsMuted (st : State) (groupID userID : string) (now : Time) : bool :=
  match groups_muted st !! groupID with
  | Some true => true
  | _ =>
      match members_muted_until st !! (groupID, userID) with
      | Some (Some until) => bool_decide (now < until)
      | _ => false
      end
  end.

End GroupStore.

(** ** domain/entities: the recall policy *)

Module entities.

Definition maxDuration : Z := 9223372036854775807.
Definition minDuration : Z := -9223372036854775808.

(** [t.Sub(u)]: the difference as a [Duration], saturating. *)
Definition Sub (t u : Time) : Z :=
  Z.max minDuration (Z.min maxDuration (t - u)).

Definition Minute : Z := 60 * 1000000000.

(** [CanRecall]: not yet recalled, and at most five minutes old. *)
Definition CanRecall (m : Message) (now : Time) : bool :=
  if Recalled m then false
  else bool_decide (Sub now (Timestamp m) <= 5 * Minute).

End entities.

(** ** internal/services: the message service *)

Module services.

(** The optional collaborators of [MessageService] ([true]: not nil) and
    its fan-out settings.  The message store is always present. *)
Record MessageService := mkMessageService {
  ConvStore : bool;
  GroupStore_ : bool;
  Producer : bool;
  GroupBatchSize : Z;
  GroupBatchSleep : Z
}.

Record SendRequest := mkSendRequest {
  rConvID : string;
  rConvType : ConversationType;
  rClientID : string;
  rFrom : string;
  rTo : string;
  rGroupID : string;
  rType : string;
  rPayload : string;
  rStreamID : string;
  rStreamSeq : Z;
  rStreamStatus : string;
  rIsStreaming : bool;
  rExpireAt : option Time;
  rBurnAfterRead : bool
}.

Inductive error :=
| ErrAppend                            (* the store's error, passed on *)
| ErrMuted                             (* group is muted or user muted *)
| ErrStreamNotFound (streamID : string)
| ErrUnmarshal.                        (* the cached stream state does not decode *)

Definition lastSeqCacheKey (convID : string) : string := "im:lastseq:" +:+ convID.
Definition streamCacheKey (streamID : string) : string := "im:stream:" +:+ streamID.

(** [ToConvType]: anything but "group" is a one-to-one conversation. *)
Definition ToConvType (s : string) : ConversationType :=
  if bool_decide (s = ConversationTypeGroup) then ConversationTypeGroup
  else ConversationTypeC2C.

(** [shouldStore := !req.IsStreaming || status is start, end or error] *)
Definition shouldStore (req : SendRequest) : bool :=
  negb (rIsStreaming req)
  || bool_decide (rStreamStatus req = StreamStatusStart)
  || bool_decide (rStreamStatus req = StreamStatusEnd)
  || bool_decide (rStreamStatus req = StreamStatusError).

(** The [models.Message] that [Send] builds first. *)
Definition new_message (env : Env) (req : SendRequest) : Message :=
  {| ServerMsgID := env_uuid env; ClientMsgID := rClientID req;
     ConvID := rConvID req; ConvType := rConvType req;
     FromUserID := rFrom req; ToUserID := rTo req; GroupID := rGroupID req;
     Seq := env_nano env; Timestamp := env_now env;
     Type_ := rType req; Payload := rPayload req; Recalled := false;
     StreamID := rStreamID req; StreamSeq := rStreamSeq req;
     StreamStatus := rStreamStatus req; IsStreaming := rIsStreaming req;
     ExpireAt := rExpireAt req; BurnAfterRead := rBurnAfterRead req |}.

Definition deliver_of (msg : Message) : Deliver :=
  {| dServerMsgID := ServerMsgID msg; dClientMsgID := ClientMsgID msg;
     dConvID := ConvID msg; dConvType := ConvType msg;
     dFrom := FromUserID msg; dTo := ToUserID msg; dGroupID := GroupID msg;
     dSeq := Seq msg; dTimestamp := UnixMilli (Timestamp msg);
     dType := Type_ msg; dPayload := Payload msg;
     dStreamID := StreamID msg; dStreamSeq := StreamSeq msg;
     dStreamStatus := StreamStatus msg; dIsStreaming := IsStreaming msg;
     dExpireAt := ExpireAt msg; dBurnAfterRead := BurnAfterRead msg |}.

(** The group branch of the index update: a Kafka event when there is a
    producer, else the in-process fan-out goroutine (recorded as spawned). *)
Definition notify_group (svc : MessageService) (env : Env) (req : SendRequest) (st : State)
  : State :=
  if Producer svc then
    with_mq (fun q => q ++ [mkGroupUpdate (rGroupID req) (rConvID req) (rFrom req)
                              (rConvType req) (UnixMilli (env_now env))]) st
  else if GroupStore_ svc then
    let batch := if bool_decide (GroupBatchSize svc <= 0) then 500 else GroupBatchSize svc in
    let sleep := if bool_decide (GroupBatchSleep svc <= 0) then 50 * 1000000
                 else GroupBatchSleep svc in
    with_spawned (fun l => l ++ [mkFanoutTask (rGroupID req) (rConvID req) (rConvType req)
                                   (rFrom req) batch sleep]) st
  else st.

(** The conversation-index block of [Send]. *)
Definition update_index (svc : MessageService) (env : Env) (req : SendRequest) (msg : Message)
  (st : State) : State :=
  let convTypeStr := rConvType req in
  let st1 := ConversationStore.UpsertConversation (rConvID req) convTypeStr (rTo req)
               (rGroupID req) (Seq msg) (env_now env) st in
  let st2 := with_kv (fun m => <[lastSeqCacheKey (rConvID req) := VInt (Seq msg)]> m) st1 in
  let st3 := ConversationStore.UpsertUserConversation (rFrom req) (rConvID req) convTypeStr
               (rTo req) (rGroupID req) (env_now env) st2 in
  let st4 := if bool_decide (rConvType req = ConversationTypeC2C)
                && negb (bool_decide (rTo req = ""))
             then ConversationStore.UpsertUserConversation (rTo req) (rConvID req) convTypeStr
                    (rFrom req) "" (env_now env) st3
             else st3 in
  if bool_decide (rConvType req = ConversationTypeGroup)
     && negb (bool_decide (rGroupID req = ""))
  then notify_group svc env req st4
  else st4.

(** The Redis publish at the end of [Send]. *)
Definition publish_deliver (req : SendRequest) (d : Deliver) (st : State) : State :=
  if bool_decide (rConvType req = ConversationTypeC2C) then
    cache.Publish (cache.DeliverChannel (rFrom req)) (FDeliver d)
      (cache.Publish (cache.DeliverChannel (rTo req)) (FDeliver d) st)
  else
    cache.Publish (cache.DeliverChannel (rGroupID req)) (FDeliver d) st.

(** [MessageService.Send], statement by statement: build the message,
    append it when [shouldStore], update the conversation index, check the
    mute state, publish. *)
Definition Send (svc : MessageService) (env : Env) (req : SendRequest) (st : State)
  : State * (error + Deliver) :=
  let msg := new_message env req in
  if shouldStore req && env_append_fails env then (st, inl ErrAppend)
  else
    let st1 := if shouldStore req
               then with_messages (fun tbl => MessageStore.Append tbl msg) st
               else st in
    let st2 := if ConvStore svc
                  && (negb (rIsStreaming req)
                      || bool_decide (rStreamStatus req = StreamStatusStart))
               then update_index svc env req msg st1
               else st1 in
    if bool_decide (rConvType req = ConversationTypeGroup) && GroupStore_ svc
       && GroupStore.IsMuted st2 (rGroupID req) (rFrom req) (env_now env)
    then (st2, inl ErrMuted)
    else
      let d := deliver_of msg in
      (publish_deliver req d st2, inr d).

(** [StartStream]: a fresh stream id, the stream state cached for 30
    minutes, then [Send] of the start record. *)
Definition start_request (streamID : string) (req : SendRequest) : SendRequest :=
  {| rConvID := rConvID req; rConvType := rConvType req; rClientID := rClientID req;
     rFrom := rFrom req; rTo := rTo req; rGroupID := rGroupID req; rType := rType req;
     rPayload := rPayload req; rStreamID := streamID; rStreamSeq := 1;
     rStreamStatus := StreamStatusStart; rIsStreaming := true;
     rExpireAt := rExpireAt req; rBurnAfterRead := rBurnAfterRead req |}.

Definition StartStream (svc : MessageService) (envStream env : Env) (req : SendRequest)
  (st : State) : State * (error + Deliver) :=
  let streamID := env_uuid envStream in
  let req' := start_request streamID req in
  let info := mkStreamInfo (rConvID req') (rConvType req') (rFrom req') (rTo req')
                (rGroupID req') (UnixMilli (env_now envStream)) 1 in
  Send svc env req' (with_kv (fun m => <[streamCacheKey streamID := VStream info]> m) st).

(** The JSON encodings of [models.StreamPayload], abbreviated. *)
Definition chunk_payload (delta metadata : string) : string :=
  "{delta:" +:+ delta +:+ ",metadata:" +:+ metadata +:+ "}".
Definition end_payload (finalText errorMsg : string) : string :=
  "{text:" +:+ finalText +:+ ",error:" +:+ errorMsg +:+ "}".

(** The request that [SendStreamChunk] and [EndStream] build from the
    cached stream state. *)
Definition stream_request (info : StreamInfo) (streamID clientID payload : string)
  (streamSeq : Z) (status : string) : SendRequest :=
  {| rConvID := si_convId info; rConvType := si_convType info; rClientID := clientID;
     rFrom := si_from info; rTo := si_to info; rGroupID := si_groupId info;
     rType := "stream"; rPayload := payload; rStreamID := streamID;
     rStreamSeq := streamSeq; rStreamStatus := status; rIsStreaming := true;
     rExpireAt := None; rBurnAfterRead := false |}.

Definition with_seq (info : StreamInfo) (seq : Z) : StreamInfo :=
  mkStreamInfo (si_convId info) (si_convType info) (si_from info) (si_to info)
    (si_groupId info) (si_startTime info) seq.

Definition SendStreamChunk (svc : MessageService) (env : Env) (streamID delta metadata : string)
  (st : State) : State * option error :=
  match kv st !! streamCacheKey streamID with
  | None => (st, Some (ErrStreamNotFound streamID))
  | Some (VInt _) => (st, Some ErrUnmarshal)
  | Some (VStream info) =>
      let seq := si_seq info + 1 in
      let st1 := with_kv (fun m => <[streamCacheKey streamID := VStream (with_seq info seq)]> m) st in
      let req := stream_request info streamID (streamID +:+ "-" +:+ pretty seq)
                   (chunk_payload delta metadata) seq StreamStatusChunk in
      match Send svc env req st1 with
      | (st2, inl e) => (st2, Some e)
      | (st2, inr _) => (st2, None)
      end
  end.

Definition EndStream (svc : MessageService) (env : Env) (streamID finalText errorMsg : string)
  (st : State) : State * option error :=
  match kv st !! streamCacheKey streamID with
  | None => (st, Some (ErrStreamNotFound streamID))
  | Some (VInt _) => (st, Some ErrUnmarshal)
  | Some (VStream info) =>
      let status := if bool_decide (errorMsg = "") then StreamStatusEnd else StreamStatusError in
      let req := stream_request info streamID (streamID +:+ "-end")
                   (end_payload finalText errorMsg) (si_seq info + 1) status in
      let '(st1, r) := Send svc env req st in
      let st2 := with_kv (fun m => delete (streamCacheKey streamID) m) st1 in
      match r with
      | inl e => (st2, Some e)
      | inr _ => (st2, None)
      end
  end.

Definition Recall (convID serverMsgID : string) (st : State) : State :=
  with_messages (fun tbl => MessageStore.Recall tbl convID serverMsgID) st.

Definition DeleteConversation (ownerID convID : string) (now : Time) (st : State) : State :=
  with_conv_deletes (fun m => <[(ownerID, convID) := now]> m) st.

Definition List_ (st : State) (convID : string) (fromSeq limit : Z) (now : Time) : list Message :=
  MessageStore.List (messages st) convID fromSeq limit now.

End services.

(** ** internal/ws: the gateway's inbound dispatch *)

Module ws.

(** The gateway: its message service, whether a receipt store is wired,
    the permission callbacks (absent when nil) and whether a limiter is
    configured. *)
Record Server := mkServer {
  MsgSvc : services.MessageService;
  Receipt : bool;
  IsFriend : option (string -> string -> bool);
  IsMember : option (string -> string -> bool);
  Limiter : bool
}.

(** Decoded [SendPayload]; [pMentions] are the string entries of the
    payload's [mentions] array. *)
Record SendPayload := mkSendPayload {
  pConvID : string;
  pConvType : string;
  pTo : string;
  pGroupID : string;
  pType : string;
  pClientID : string;
  pPayload : string;
  pMentions : list string;
  pExpireAtMS : Z;
  pBurnAfterRead : bool
}.

(** An inbound frame after [json.Unmarshal]; [AMalformed] is a frame whose
    data does not decode (it is dropped). *)
Inductive Action :=
| ASend (p : SendPayload)
| ARecall (convID serverMsgID : string)
| ARead (convID : string) (seq : Z)
| AStartStream (p : SendPayload)
| AStreamChunk (streamID delta metadata : string)
| AEndStream (streamID finalText errorMsg : string)
| AMalformed.

Definition error_text (e : services.error) : string :=
  match e with
  | services.ErrAppend => "append failed"
  | services.ErrMuted => "group is muted or user muted"
  | services.ErrStreamNotFound id => "stream not found: " +:+ id
  | services.ErrUnmarshal => "invalid stream state"
  end.

Definition rateLimitAllow (s : Server) (env : Env) : bool :=
  if Limiter s then env_rate_allowed env else true.

(** The friend and member checks that precede [send] and [start_stream]:
    the error code of the refusal, if any. *)
Definition permission_denied (s : Server) (userID : string) (convType : ConversationType)
  (p : SendPayload) : option string :=
  match IsFriend s with
  | Some isFriend =>
      if bool_decide (convType = ConversationTypeC2C) && negb (isFriend userID (pTo p))
      then Some "NOT_FRIEND" else None
  | None => None
  end
  ∪
  match IsMember s with
  | Some isMember =>
      if bool_decide (convType = ConversationTypeGroup) && negb (isMember (pGroupID p) userID)
      then Some "NOT_GROUP_MEMBER" else None
  | None => None
  end.

Definition publish_mentions (userID : string) (convType : ConversationType) (p : SendPayload)
  (seq : Z) (st : State) : State :=
  if bool_decide (convType = ConversationTypeGroup) then
    foldl (fun s uid =>
             if bool_decide (uid = "") then s
             else cache.Publish (cache.DeliverChannel uid)
                    (FMention (pGroupID p) (pConvID p) userID seq) s)
          st (pMentions p)
  else st.

Definition send_request (userID : string) (convType : ConversationType) (p : SendPayload)
  : services.SendRequest :=
  services.mkSendRequest (pConvID p) convType (pClientID p) userID (pTo p) (pGroupID p)
    (pType p) (pPayload p) "" 0 "" false
    (if bool_decide (0 < pExpireAtMS p) then Some (pExpireAtMS p * 1000000) else None)
    (pBurnAfterRead p).

(** The [recalled] event of burn-after-read, to both peers or to the group. *)
Definition publish_recalled (msg : Message) (convID : string) (seq : Z) (st : State) : State :=
  if bool_decide (ConvType msg = ConversationTypeC2C) then
    let st1 := if bool_decide (ToUserID msg = "") then st
               else cache.Publish (cache.DeliverChannel (ToUserID msg)) (FRecalled convID seq) st in
    if bool_decide (FromUserID msg = "") then st1
    else cache.Publish (cache.DeliverChannel (FromUserID msg)) (FRecalled convID seq) st1
  else if bool_decide (ConvType msg = ConversationTypeGroup) then
    if bool_decide (GroupID msg = "") then st
    else cache.Publish (cache.DeliverChannel (GroupID msg)) (FRecalled convID seq) st
  else st.

(** case "read": acknowledge, upsert the read receipt and its cache entry,
    then the burn-after-read step. *)
Definition handle_read (s : Server) (env : Env) (userID convID : string) (seq : Z) (st : State)
  : State * list Frame :=
  let st1 := if Receipt s
             then with_kv (fun m => <[ReceiptStore.readSeqCacheKey userID convID := VInt seq]> m)
                    (ReceiptStore.UpsertReadSeq userID convID seq st)
             else st in
  let st2 :=
    if env_get_fails env then st1
    else match MessageStore.GetBySeq (messages st1) convID seq with
         | Some msg =>
             if BurnAfterRead msg && negb (Recalled msg) then
               if env_recall_fails env then st1
               else publish_recalled msg convID seq
                      (with_messages (fun tbl => MessageStore.RecallBySeq tbl convID seq) st1)
             else st1
         | None => st1
         end in
  (st2, [FReadAck convID seq]).

(** case "send" *)
Definition handle_send (s : Server) (env : Env) (userID : string) (p : SendPayload) (st : State)
  : State * list Frame :=
  if negb (rateLimitAllow s env) then (st, [FError "RATE_LIMIT" ""])
  else
    let convType := services.ToConvType (pConvType p) in
    match permission_denied s userID convType p with
    | Some code => (st, [FError code ""])
    | None =>
        match services.Send (MsgSvc s) env (send_request userID convType p) st with
        | (st1, inr d) => (publish_mentions userID convType p (dSeq d) st1, [FAck d])
        | (st1, inl e) => (st1, [FError "SEND_FAILED" (error_text e)])
        end
    end.

(** [handleInbound] for the message, receipt and stream actions. *)
Definition handleInbound (s : Server) (envStream env : Env) (userID : string) (a : Action)
  (st : State) : State * list Frame :=
  match a with
  | ASend p => handle_send s env userID p st
  | ARecall convID serverMsgID => (services.Recall convID serverMsgID st, [])
  | ARead convID seq => handle_read s env userID convID seq st
  | AStartStream p =>
      if negb (rateLimitAllow s env) then (st, [FError "RATE_LIMIT" ""])
      else
        let convType := services.ToConvType (pConvType p) in
        match permission_denied s userID convType p with
        | Some code => (st, [FError code ""])
        | None =>
            let req := services.mkSendRequest (pConvID p) convType (pClientID p) userID (pTo p)
                         (pGroupID p) (pType p) (pPayload p) "" 0 "" false None false in
            match services.StartStream (MsgSvc s) envStream env req st with
            | (st1, inr d) => (st1, [FStreamStarted d])
            | (st1, inl e) => (st1, [FError "STREAM_START_FAILED" (error_text e)])
            end
        end
  | AStreamChunk streamID delta metadata =>
      match services.SendStreamChunk (MsgSvc s) env streamID delta metadata st with
      | (st1, Some e) => (st1, [FError "STREAM_ERROR" (error_text e)])
      | (st1, None) => (st1, [])
      end
  | AEndStream streamID finalText errorMsg =>
      match services.EndStream (MsgSvc s) env streamID finalText errorMsg st with
      | (st1, None) => (st1, [FStreamEnded streamID])
      | (st1, Some _) => (st1, [])
      end
  | AMalformed => (st, [])
  end.

End ws.

(** ** The history endpoint (GET /api/messages/history) *)

Module http.

(** The handler authenticates the caller, then lists by conversation,
    cursor and limit; an absent [fromSeq] or [limit] is 0. *)
Definition history (st : State) (uid convID : string) (fromSeq limit : Z) (now : Time)
  : list Message :=
  services.List_ st convID fromSeq limit now.




End http.

(** ** Runs: sequences of calls against one state *)

(** Sends processed one after the other, with the result of each. *)
Fixpoint send_seq (svc : services.MessageService) (calls : list (Env * services.SendRequest))
  (st : State) : State * list (services.error + Deliver) :=
  match calls with
  | [] => (st, [])
  | (env, req) :: rest =>
      let '(st1, r) := services.Send svc env req st in
      let '(st2, rs) := send_seq svc rest st1 in
      (st2, r :: rs)
  end.

(** The same request submitted once per environment. *)
Definition resend (svc : services.MessageService) (envs : list Env) (req : services.SendRequest)
  (st : State) : State * list (services.error + Deliver) :=
  send_seq svc (map (fun env => (env, req)) envs) st.

(** Presence transitions of connecting and disconnecting devices. *)
Inductive PresenceOp :=
| set_online (u d : string)
| set_offline (u d : string).

Definition presence_step (st : State) (op : PresenceOp) : State :=
  match op with
  | set_online u d => cache.SetDeviceOnline u d st
  | set_offline u d => cache.SetDeviceOffline u d st
  end.

Definition presence_run (st : State) (ops : list PresenceOp) : State :=
  foldl presence_step st ops.

(** Inbound frames handled one after the other by one gateway. *)
Record Inbound := mkInbound {
  in_envStream : Env;
  in_env : Env;
  in_user : string;
  in_action : ws.Action
}.

Definition inbound_step (s : ws.Server) (st : State) (i : Inbound) : State :=
  fst (ws.handleInbound s (in_envStream i) (in_env i) (in_user i) (in_action i) st).

Definition inbound_run (s : ws.Server) (st : State) (l : list Inbound) : State :=
  foldl (inbound_step s) st l.

(** A stream session: [start_stream], then chunks, then [end_stream]. *)
Definition send_chunks (svc : services.MessageService) (streamID : string)
  (chunks : list (Env * string * string)) (st : State) : State :=
  foldl (fun s c => fst (services.SendStreamChunk svc (c.1.1) streamID (c.1.2) (c.2) s)) st chunks.

Definition stream_session (svc : services.MessageService) (envStream envStart envEnd : Env)
  (req : services.SendRequest) (chunks : list (Env * string * string))
  (finalText errorMsg : string) (st : State) : State :=
  let st1 := fst (services.StartStream svc envStream envStart req st) in
  let st2 := send_chunks svc (env_uuid envStream) chunks st1 in
  fst (services.EndStream svc envEnd (env_uuid envStream) finalText errorMsg st2).

(** ** Invariants *)

(** Presence: a user is in the global online set exactly when one of their
    devices is registered. *)
Definition presence_inv (st : State) : Prop :=
  forall u, u ∈ cache.smembers (sets st) cache.OnlineUsersKey <-> cache.OnlineDevices st u <> ∅.

(** ** Scenarios *)

(** A plain text message from [from] to [to] in a one-to-one conversation. *)
Definition text_message (serverID clientID convID from to : string) (sq : Z) (ts : Time)
  : Message :=
  {| ServerMsgID := serverID; ClientMsgID := clientID; ConvID := convID;
     ConvType := ConversationTypeC2C; FromUserID := from; ToUserID := to; GroupID := "";
     Seq := sq; Timestamp := ts; Type_ := "text"; Payload := "hi"; Recalled := false;
     StreamID := ""; StreamSeq := 0; StreamStatus := ""; IsStreaming := false;
     ExpireAt := None; BurnAfterRead := false |}.


(** A gateway with every collaborator wired, whose permission callbacks
    accept everybody, and no Kafka producer. *)
Definition full_service : services.MessageService :=
  services.mkMessageService true true false 0 0.

Definition gateway : ws.Server :=
  ws.mkServer full_service true (Some (fun _ _ => true)) (Some (fun _ _ => true)) false.

(** An environment in which no database statement fails. *)
Definition env_at (uuid : string) (nano : Z) (now : Time) : Env :=
  mkEnv uuid nano now false false false true.

(** Group [g1] with all members muted. *)
Definition muted_group : State :=
  mkState [] ∅ ∅ ∅ ∅ {["g1" := true]} ∅ ∅ ∅ [] [] [].

Definition group_payload : ws.SendPayload :=
  ws.mkSendPayload "group:g1" "group" "" "g1" "text" "cm-1" "hello" [] 0 false.

(** One message of alice to bob, sent at time 0, and the same message sent
    with [burnAfterRead]. *)
Definition alice_message : Message :=
  text_message "s1" "cm-1" "c1" "alice" "bob" 7 0.

Definition alice_burn_message : Message :=
  {| ServerMsgID := "s1"; ClientMsgID := "cm-1"; ConvID := "c1";
     ConvType := ConversationTypeC2C; FromUserID := "alice"; ToUserID := "bob"; GroupID := "";
     Seq := 7; Timestamp := 0; Type_ := "text"; Payload := "hi"; Recalled := false;
     StreamID := ""; StreamSeq := 0; StreamStatus := ""; IsStreaming := false;
     ExpireAt := None; BurnAfterRead := true |}.

Definition one_message (m : Message) : State :=
  with_messages (fun _ => [m]) empty_state.

Definition one_hour : Z := 3600 * 1000000000.

(** The unique key [uniq_conv_client] and uniqueness of [(conv_id, seq)]
    over a table. *)
Definition client_key (r : Message) : string * string := (ConvID r, ClientMsgID r).
Definition seq_key (r : Message) : string * Z := (ConvID r, Seq r).

Definition uniq_conv_client (tbl : list Message) : Prop := NoDup (map client_key tbl).
Definition uniq_conv_seq (tbl : list Message) : Prop := NoDup (map seq_key tbl).

(** The records of a table under one idempotency key. *)
Definition with_key (convID clientMsgID : string) (tbl : list Message) : list Message :=
  List.filter (fun r => bool_decide (client_key r = (convID, clientMsgID))) tbl.


(** A first submission and a retry of the same one-to-one message. *)
Definition hello_request : services.SendRequest :=
  services.mkSendRequest "c2c:u1:u2" ConversationTypeC2C "cm-1" "u1" "u2" "" "text" "hi"
    "" 0 "" false None false.




(** A store in which stream [st-1] has been started by alice towards bob. *)
Definition started_stream : State :=
  with_kv (fun m => <[services.streamCacheKey "st-1" :=
                        VStream (mkStreamInfo "c1" ConversationTypeC2C "alice" "bob" "" 0 1)]> m)
          empty_state.

(** An environment in which the store's [Append] fails. *)
Definition env_failing (uuid : string) (nano : Z) (now : Time) : Env :=
  mkEnv uuid nano now true false false true.

(** The publishes of one successful [Send]: to both peers of a one-to-one
    conversation, or once to the group channel. *)
Definition delivery_frames (req : services.SendRequest) (d : Deliver) : list (string * Frame) :=
  if bool_decide (services.rConvType req = ConversationTypeC2C)
  then [(cache.DeliverChannel (services.rTo req), FDeliver d);
        (cache.DeliverChannel (services.rFrom req), FDeliver d)]
  else [(cache.DeliverChannel (services.rGroupID req), FDeliver d)].

(** The request [SendStreamChunk] sends for a stream in state [info]. *)
Definition chunk_request (info : StreamInfo) (streamID delta metadata : string)
  : services.SendRequest :=
  services.stream_request info streamID (streamID +:+ "-" +:+ pretty (si_seq info + 1))
    (services.chunk_payload delta metadata) (si_seq info + 1) StreamStatusChunk.

(** The two boundary messages of a stream session with [n] chunks. *)
Definition session_info (envStream : Env) (req : services.SendRequest) (n : nat) : StreamInfo :=
  mkStreamInfo (services.rConvID req) (services.rConvType req) (services.rFrom req)
    (services.rTo req) (services.rGroupID req) (UnixMilli (env_now envStream))
    (1 + Z.of_nat n).

Definition stream_start_message (envStream envStart : Env) (req : services.SendRequest)
  : Message :=
  services.new_message envStart (services.start_request (env_uuid envStream) req).


(** A streamed answer of alice to bob: start, four chunks, end. *)
Definition stream_open_request : services.SendRequest :=
  services.mkSendRequest "c1" ConversationTypeC2C "cm-7" "alice" "bob" "" "stream" ""
    "" 0 "" false None false.

Definition four_chunks : list (Env * string * string) :=
  [(env_at "id-21" 210 210, "a", ""); (env_at "id-22" 220 220, "b", "");
   (env_at "id-23" 230 230, "c", ""); (env_at "id-24" 240 240, "d", "")].

(** ** Further parts of the repository *)

Definition with_groups_muted (f : gmap string bool -> gmap string bool) (st : State) : State :=
  mkState (messages st) (conversations st) (user_conversations st) (read_receipts st)
          (conv_deletes st) (f (groups_muted st)) (members_muted_until st) (kv st) (sets st)
          (published st) (mq st) (spawned st).

Definition with_members_muted_until
  (f : gmap (string * string) (option Time) -> gmap (string * string) (option Time))
  (st : State) : State :=
  mkState (messages st) (conversations st) (user_conversations st) (read_receipts st)
          (conv_deletes st) (groups_muted st) (f (members_muted_until st)) (kv st) (sets st)
          (published st) (mq st) (spawned st).

(** internal/store/groupstore.go: membership and mute settings.  Of a
    [group_members] row the state keeps the key and [muted_until]; of a
    [groups] row, [muted]. *)
Module GroupMembers.

(** [INSERT INTO group_members ... ON DUPLICATE KEY UPDATE ...,
    muted_until=VALUES(muted_until), ...] with [muted_until] = NULL. *)
Definition AddMember (groupID userID : string) (st : State) : State :=
  with_members_muted_until (fun m => <[(groupID, userID) := None]> m) st.

Definition JoinGroup (groupID userID : string) (st : State) : State :=
  AddMember groupID userID st.

(** [DELETE FROM group_members WHERE group_id=? AND user_id=?] *)
Definition RemoveMember (groupID userID : string) (st : State) : State :=
  with_members_muted_until (fun m => delete (groupID, userID) m) st.

(** [SELECT COUNT(1) ...] read as [x > 0]. *)
Definition IsMember (st : State) (groupID userID : string) : bool :=
  bool_decide (is_Some (members_muted_until st !! (groupID, userID))).

(** [SELECT user_id FROM group_members WHERE group_id=?], in the order the
    table yields its rows. *)
Definition ListMemberIDs (st : State) (groupID : string) : list string :=
  omap (fun row : (string * string) * option Time =>
          if bool_decide (row.1.1 = groupID) then Some row.1.2 else None)
       (map_to_list (members_muted_until st)).

(** [UPDATE groups SET muted=? WHERE id=?] *)
Definition SetGroupMute (groupID : string) (mute : bool) (st : State) : State :=
  with_groups_muted (fun g => match g !! groupID with
                              | Some _ => <[groupID := mute]> g
                              | None => g
                              end) st.

(** [UPDATE group_members SET muted_until=? WHERE group_id=? AND user_id=?] *)
Definition SetMemberMuteUntil (groupID userID : string) (until : option Time) (st : State)
  : State :=
  with_members_muted_until (fun m => match m !! (groupID, userID) with
                                     | Some _ => <[(groupID, userID) := until]> m
                                     | None => m
                                     end) st.

End GroupMembers.

(** internal/store: the conversation list with unread counts. *)
Module ConversationList.

(** A scanned row of [ListByUser]. *)
Record rowData := mkRowData {
  rd_convID : string;
  rd_row : UserConversationRow
}.

Definition newer_first (a b : rowData) : Prop :=
  uc_updated_at (rd_row b) <= uc_updated_at (rd_row a).

#[global] Instance newer_first_dec : RelDecision newer_first.
Proof. intros a b. unfold newer_first. apply _. Defined.

(** [if limit <= 0 || limit > 200 { limit = 50 }] *)
Definition list_limit (limit : Z) : Z :=
  if bool_decide (limit <= 0) || bool_decide (200 < limit) then 50 else limit.

(** [SELECT ... FROM user_conversations WHERE user_id=? ORDER BY updated_at
    DESC LIMIT ?] *)
Definition ListByUser (st : State) (userID : string) (limit : Z) : list rowData :=
  take (Z.to_nat (list_limit limit))
       (merge_sort newer_first
          (omap (fun kr : (string * string) * UserConversationRow =>
                   if bool_decide (kr.1.1 = userID) then Some (mkRowData kr.1.2 kr.2) else None)
                (map_to_list (user_conversations st)))).

(** [parseInt64] of a cached value: an integer entry parses, anything else
    (missing key, other content) does not. *)
Definition parseInt64 (st : State) (key : string) : option Z :=
  match kv st !! key with
  | Some (VInt n) => Some n
  | _ => None
  end.

Record UnreadItem := mkUnreadItem {
  ui_convId : string;
  ui_convType : string;
  ui_peerId : string;
  ui_groupId : string;
  ui_pinned : bool;
  ui_muted : bool;
  ui_draft : string;
  ui_updatedAt : Time;
  ui_lastSeq : Z;
  ui_readSeq : Z;
  ui_unread : Z
}.

(** The last seq and read seq that [ListWithUnread] uses for one row: the
    cached value when it parses, else the table's. *)
Definition lastSeq_of (st : State) (convID : string) : Z :=
  match parseInt64 st (services.lastSeqCacheKey convID) with
  | Some v => v
  | None => ConversationStore.GetConversationLastSeq st convID
  end.

Definition readSeq_of (st : State) (userID convID : string) : Z :=
  match parseInt64 st (ReceiptStore.readSeqCacheKey userID convID) with
  | Some v => v
  | None => ReceiptStore.GetReadSeq st userID convID
  end.

Definition unread_item (st : State) (userID : string) (it : rowData) : UnreadItem :=
  let lastSeq := lastSeq_of st (rd_convID it) in
  let readSeq := readSeq_of st userID (rd_convID it) in
  let unread := lastSeq - readSeq in
  let unread := if bool_decide (unread < 0) then 0 else unread in
  mkUnreadItem (rd_convID it) (uc_conv_type (rd_row it)) (uc_peer_id (rd_row it))
    (uc_group_id (rd_row it)) (uc_pinned (rd_row it)) (uc_muted (rd_row it))
    (default "" (uc_draft (rd_row it))) (uc_updated_at (rd_row it)) lastSeq readSeq unread.

(** The cache refresh of one row: a value that did not parse from the cache
    is written back from the table.  [st0] is the state the pipelined cache
    reads saw. *)
Definition refill (st0 : State) (userID : string) (st : State) (it : rowData) : State :=
  let st1 :=
    match parseInt64 st0 (services.lastSeqCacheKey (rd_convID it)) with
    | Some _ => st
    | None => with_kv (fun m => <[services.lastSeqCacheKey (rd_convID it) :=
                                    VInt (ConversationStore.GetConversationLastSeq st0 (rd_convID it))]> m) st
    end in
  match parseInt64 st0 (ReceiptStore.readSeqCacheKey userID (rd_convID it)) with
  | Some _ => st1
  | None => with_kv (fun m => <[ReceiptStore.readSeqCacheKey userID (rd_convID it) :=
                                  VInt (ReceiptStore.GetReadSeq st0 userID (rd_convID it))]> m) st1
  end.

(** [ListWithUnread]: the rows of [ListByUser], the cached values read in
    one pipeline, then per row the unread count and the cache refresh. *)
Definition ListWithUnread (st : State) (userID : string) (limit : Z) : State * list UnreadItem :=
  let items := ListByUser st userID limit in
  (foldl (refill st userID) st items, map (unread_item st userID) items).

Definition update_flags (f : UserConversationRow -> Time -> UserConversationRow)
  (userID convID : string) (now : Time) (st : State) : State :=
  with_user_conversations
    (fun ucs => match ucs !! (userID, convID) with
                | Some r => <[(userID, convID) := f r now]> ucs
                | None => ucs
                end) st.

(** [UPDATE user_conversations SET pinned=?, updated_at=? WHERE ...] *)
Definition SetPinned (userID convID : string) (pinned : bool) (now : Time) (st : State) : State :=
  update_flags (fun r t => mkUserConversationRow (uc_conv_type r) (uc_peer_id r) (uc_group_id r)
                             pinned (uc_muted r) (uc_draft r) t) userID convID now st.

(** [UPDATE user_conversations SET muted=?, updated_at=? WHERE ...] *)
Definition SetMuted (userID convID : string) (muted : bool) (now : Time) (st : State) : State :=
  update_flags (fun r t => mkUserConversationRow (uc_conv_type r) (uc_peer_id r) (uc_group_id r)
                             (uc_pinned r) muted (uc_draft r) t) userID convID now st.

(** [UPDATE user_conversations SET draft=?, updated_at=? WHERE ...] *)
Definition SetDraft (userID convID draft : string) (now : Time) (st : State) : State :=
  update_flags (fun r t => mkUserConversationRow (uc_conv_type r) (uc_peer_id r) (uc_group_id r)
                             (uc_pinned r) (uc_muted r) (Some draft) t) userID convID now st.

End ConversationList.

(** The membership expansion of a group send: the goroutine started by
    [Send] and the Kafka consumer ([ConsumeClaim]) run the same loop. *)
Module fanout.

(** [for i := 0; i < len(ids); i += batch] over [ids[i:end]], each member
    getting [UpsertUserConversation(uid, convID, convType, from, gid)];
    [clock uid] is the time at which the row of [uid] is written. *)
Definition upsert_members (ids : list string) (batch : Z) (convID convType from gid : string)
  (clock : string -> Time) (st : State) : State :=
  foldl (fun s chunk =>
           foldl (fun s' uid =>
                    ConversationStore.UpsertUserConversation uid convID convType from gid
                      (clock uid) s')
                 s chunk)
        st (ReceiptStore.chunks_of (length ids) (Z.to_nat batch) ids).

(** The goroutine of [Send] (no producer configured). *)
Definition run_task (t : FanoutTask) (clock : string -> Time) (st : State) : State :=
  upsert_members (GroupMembers.ListMemberIDs st (ft_gid t)) (ft_batch t)
    (ft_convID t) (ft_convType t) (ft_from t) (ft_gid t) clock st.

(** One message of [ConsumeClaim]; [batchSize] is the handler's setting. *)
Definition consume (batchSize : Z) (clock : string -> Time) (st : State) (evt : GroupUpdate)
  : State :=
  let batch := if bool_decide (batchSize <= 0) then 500 else batchSize in
  upsert_members (GroupMembers.ListMemberIDs st (gu_groupId evt)) batch
    (gu_convId evt) (gu_type evt) (gu_from evt) (gu_groupId evt) clock st.

Definition ConsumeClaim (batchSize : Z) (clock : string -> Time) (events : list GroupUpdate)
  (st : State) : State :=
  foldl (consume batchSize clock) st events.

End fanout.

(** internal/domain: the message and group entities and their value
    objects.  An entity message has the fields of [models.Message]. *)
Module domain.

Definition IsValid (ct : string) : bool :=
  bool_decide (ct = ConversationTypeC2C) || bool_decide (ct = ConversationTypeGroup).

(** [NewConversationType]: the value itself, or an error. *)
Definition NewConversationType (value : string) : option string :=
  if IsValid value then Some value else None.

(** [NewMessage]: every identifier and the payload must be non-empty; the
    message starts not recalled, stamped with the current time. *)
Definition NewMessage (serverMsgID clientMsgID convID convType fromUserID : string) (sq : Z)
  (msgType payload : string) (now : Time) : option Message :=
  if bool_decide (serverMsgID = "") then None
  else if bool_decide (clientMsgID = "") then None
  else if bool_decide (convID = "") then None
  else if bool_decide (fromUserID = "") then None
  else if bool_decide (String.length payload = 0%nat) then None
  else Some {| ServerMsgID := serverMsgID; ClientMsgID := clientMsgID; ConvID := convID;
               ConvType := convType; FromUserID := fromUserID; ToUserID := ""; GroupID := "";
               Seq := sq; Timestamp := now; Type_ := msgType; Payload := payload;
               Recalled := false; StreamID := ""; StreamSeq := 0; StreamStatus := "";
               IsStreaming := false; ExpireAt := None; BurnAfterRead := false |}.

(** [Recall]: an error when already recalled, else the flag is set. *)
Definition Recall (m : Message) : option Message :=
  if Recalled m then None else Some (MessageStore.set_recalled m).

(** [IsExpired]: [expireAt != nil && expireAt.Before(now)] *)
Definition IsExpired (m : Message) (now : Time) : bool :=
  match ExpireAt m with
  | Some t => bool_decide (t < now)
  | None => false
  end.

(** [MessageDTO], the exported form of a message. *)
Record MessageDTO := mkMessageDTO {
  dtoServerMsgID : string;
  dtoClientMsgID : string;
  dtoConvID : string;
  dtoConvType : string;
  dtoFromUserID : string;
  dtoToUserID : string;
  dtoGroupID : string;
  dtoSeq : Z;
  dtoTimestamp : Time;
  dtoType : string;
  dtoPayload : string;
  dtoRecalled : bool;
  dtoStreamID : string;
  dtoStreamSeq : Z;
  dtoStreamStatus : string;
  dtoIsStreaming : bool;
  dtoExpireAt : option Time;
  dtoBurnAfterRead : bool
}.

Definition ToDTO (m : Message) : MessageDTO :=
  mkMessageDTO (ServerMsgID m) (ClientMsgID m) (ConvID m) (ConvType m) (FromUserID m)
    (ToUserID m) (GroupID m) (Seq m) (Timestamp m) (Type_ m) (Payload m) (Recalled m)
    (StreamID m) (StreamSeq m) (StreamStatus m) (IsStreaming m) (ExpireAt m) (BurnAfterRead m).

Definition FromMessageDTO (dto : MessageDTO) : option Message :=
  match NewConversationType (dtoConvType dto) with
  | None => None
  | Some convType =>
      Some {| ServerMsgID := dtoServerMsgID dto; ClientMsgID := dtoClientMsgID dto;
              ConvID := dtoConvID dto; ConvType := convType;
              FromUserID := dtoFromUserID dto; ToUserID := dtoToUserID dto;
              GroupID := dtoGroupID dto; Seq := dtoSeq dto; Timestamp := dtoTimestamp dto;
              Type_ := dtoType dto; Payload := dtoPayload dto; Recalled := dtoRecalled dto;
              StreamID := dtoStreamID dto; StreamSeq := dtoStreamSeq dto;
              StreamStatus := dtoStreamStatus dto; IsStreaming := dtoIsStreaming dto;
              ExpireAt := dtoExpireAt dto; BurnAfterRead := dtoBurnAfterRead dto |}
  end.

(** The group entity. *)
Record Group := mkGroup {
  g_id : string;
  g_name : string;
  g_ownerID : string;
  g_muted : bool;
  g_createdAt : Time;
  g_updatedAt : Time
}.

Definition NewGroup (id name ownerID : string) (now : Time) : option Group :=
  if bool_decide (id = "") then None
  else if bool_decide (name = "") then None
  else if bool_decide (ownerID = "") then None
  else Some (mkGroup id name ownerID false now now).

Definition UpdateName (g : Group) (name : string) (now : Time) : option Group :=
  if bool_decide (name = "") then None
  else Some (mkGroup (g_id g) name (g_ownerID g) (g_muted g) (g_createdAt g) now).

Definition SetMute (g : Group) (muted : bool) (now : Time) : Group :=
  mkGroup (g_id g) (g_name g) (g_ownerID g) muted (g_createdAt g) now.

Definition TransferOwnership (g : Group) (newOwnerID : string) (now : Time) : option Group :=
  if bool_decide (newOwnerID = "") then None
  else if bool_decide (newOwnerID = g_ownerID g) then None
  else Some (mkGroup (g_id g) (g_name g) newOwnerID (g_muted g) (g_createdAt g) now).

(** Operations on a group, for runs of them; a refused operation leaves
    the group as it was. *)
Inductive GroupOp :=
| OpUpdateName (name : string)
| OpSetMute (muted : bool)
| OpTransfer (newOwnerID : string).

Definition apply_op (now : Time) (g : Group) (op : GroupOp) : Group :=
  match op with
  | OpUpdateName name => default g (UpdateName g name now)
  | OpSetMute muted => SetMute g muted now
  | OpTransfer newOwnerID => default g (TransferOwnership g newOwnerID now)
  end.

(** [GroupMember.IsMuted]: [mutedUntil != nil && mutedUntil.After(now)] *)
Definition MemberIsMuted (mutedUntil : option Time) (now : Time) : bool :=
  match mutedUntil with
  | Some t => bool_decide (now < t)
  | None => false
  end.

End domain.

(** How one handled frame can change the message log: not at all, by one
    [Append], or by one of the two recall updates. *)
Inductive log_step : list Message -> list Message -> Prop :=
| log_same tbl : log_step tbl tbl
| log_append tbl m : log_step tbl (MessageStore.Append tbl m)
| log_recall tbl convID serverMsgID : log_step tbl (MessageStore.Recall tbl convID serverMsgID)
| log_recall_by_seq tbl convID sq : log_step tbl (MessageStore.RecallBySeq tbl convID sq).

(** A stored record either stays as it is or only gains the recalled flag. *)
Definition same_or_recalled (r r' : Message) : Prop :=
  r' = r \/ r' = MessageStore.set_recalled r.

(** [PRIMARY KEY (server_msg_id)] over a table. *)
Definition uniq_server_id (tbl : list Message) : Prop := NoDup (map ServerMsgID tbl).

(** Reads of one message, one after the other, by any readers. *)
Definition read_run (s : ws.Server) (convID : string) (sq : Z) (reads : list (Env * string))
  (st : State) : State :=
  foldl (fun st' r => (ws.handle_read s r.1 r.2 convID sq st').1) st reads.

(** A short session at the gateway: alice sends, retries the same message,
    bob reads it and tries to recall it. *)
Definition hello_payload : ws.SendPayload :=
  ws.mkSendPayload "c2c:alice:bob" "c2c" "bob" "" "text" "cm-1" "hi" [] 0 true.

Definition short_session : list Inbound :=
  [mkInbound (env_at "x" 0 0) (env_at "id-1" 100 100) "alice" (ws.ASend hello_payload);
   mkInbound (env_at "x" 0 0) (env_at "id-2" 200 200) "alice" (ws.ASend hello_payload);
   mkInbound (env_at "x" 0 0) (env_at "id-3" 300 300) "bob" (ws.ARead "c2c:alice:bob" 100);
   mkInbound (env_at "x" 0 0) (env_at "id-4" 400 400) "bob" (ws.ARecall "c2c:alice:bob" "id-1")].

(** The publishes of one burn-after-read event for the stored message [msg]. *)
Definition recalled_frames (msg : Message) (convID : string) (sq : Z) : list (string * Frame) :=
  if bool_decide (ConvType msg = ConversationTypeC2C) then
    (if bool_decide (ToUserID msg = "") then []
     else [(cache.DeliverChannel (ToUserID msg), FRecalled convID sq)])
    ++ (if bool_decide (FromUserID msg = "") then []
        else [(cache.DeliverChannel (FromUserID msg), FRecalled convID sq)])
  else if bool_decide (ConvType msg = ConversationTypeGroup) then
    (if bool_decide (GroupID msg = "") then []
     else [(cache.DeliverChannel (GroupID msg), FRecalled convID sq)])
  else [].

(** A record is left alone by a read of [(convID, sq)], or it is a
    burn-after-read record at that place and gains the recalled flag. *)
Definition burnt_by_read (convID : string) (sq : Z) (r r' : Message) : Prop :=
  r' = r
  \/ (r' = MessageStore.set_recalled r /\ ConvID r = convID /\ Seq r = sq
      /\ BurnAfterRead r = true).

(** Three readers of one burn-after-read message. *)
Definition three_reads : list (Env * string) :=
  [(env_at "r1" 10 10, "bob"); (env_at "r2" 20 20, "alice"); (env_at "r3" 30 30, "bob")].

(** A log with one message that never expires, one that expired at 50 and
    one expiring at 500. *)
Definition expiring_log : list Message :=
  [text_message "s1" "m1" "c1" "alice" "bob" 1 1;
   {| ServerMsgID := "s2"; ClientMsgID := "m2"; ConvID := "c1";
      ConvType := ConversationTypeC2C; FromUserID := "alice"; ToUserID := "bob"; GroupID := "";
      Seq := 2; Timestamp := 2; Type_ := "text"; Payload := "old"; Recalled := false;
      StreamID := ""; StreamSeq := 0; StreamStatus := ""; IsStreaming := false;
      ExpireAt := Some 50; BurnAfterRead := false |};
   {| ServerMsgID := "s3"; ClientMsgID := "m3"; ConvID := "c1";
      ConvType := ConversationTypeC2C; FromUserID := "alice"; ToUserID := "bob"; GroupID := "";
      Seq := 3; Timestamp := 3; Type_ := "text"; Payload := "new"; Recalled := false;
      StreamID := ""; StreamSeq := 0; StreamStatus := ""; IsStreaming := false;
      ExpireAt := Some 500; BurnAfterRead := false |}].

(** The stored read sequence after a run of single upserts. *)
Definition upsert_run (userID convID : string) (sqs : list Z) (st : State) : State :=
  foldl (fun s x => ReceiptStore.UpsertReadSeq userID convID x s) st sqs.

(** How the conversation index may move: a [conversations] row keeps its
    identity and its [last_seq] does not decrease; a [user_conversations] row
    keeps everything but [updated_at]; a read receipt does not decrease. *)
Definition conv_rows_grow (cs cs' : gmap string ConversationRow) : Prop :=
  forall c r, cs !! c = Some r ->
    exists r', cs' !! c = Some r' /\ last_seq r <= last_seq r'
               /\ conv_type r' = conv_type r /\ peer_id r' = peer_id r
               /\ group_id r' = group_id r.

Definition user_flags_kept (ucs ucs' : gmap (string * string) UserConversationRow) : Prop :=
  forall k r, ucs !! k = Some r ->
    exists r', ucs' !! k = Some r' /\ uc_pinned r' = uc_pinned r /\ uc_muted r' = uc_muted r
               /\ uc_draft r' = uc_draft r /\ uc_conv_type r' = uc_conv_type r
               /\ uc_peer_id r' = uc_peer_id r /\ uc_group_id r' = uc_group_id r.

Definition receipts_grow (rr rr' : gmap (string * string) Z) : Prop :=
  forall k v, rr !! k = Some v -> exists v', rr' !! k = Some v' /\ v <= v'.

Definition index_grows (st st' : State) : Prop :=
  conv_rows_grow (conversations st) (conversations st')
  /\ user_flags_kept (user_conversations st) (user_conversations st')
  /\ receipts_grow (read_receipts st) (read_receipts st').

(** The [user_conversations] row after an upsert at time [t]: a new row with
    the defaults, or the old row with only [updated_at] moved. *)
Definition touch (convType peerID groupID : string) (t : Time)
  (old : option UserConversationRow) : UserConversationRow :=
  match old with
  | None => mkUserConversationRow convType peerID groupID false false None t
  | Some r => mkUserConversationRow (uc_conv_type r) (uc_peer_id r) (uc_group_id r)
                (uc_pinned r) (uc_muted r) (uc_draft r) t
  end.

(** Group [g1] with members alice, bob and carol; bob has pinned the group
    conversation. *)
Definition team_state : State :=
  mkState [] ∅
    {[("bob", "group:g1") := mkUserConversationRow "group" "" "g1" true false None 5]}
    ∅ ∅ {["g1" := false]}
    {[("g1", "alice") := None; ("g1", "bob") := None; ("g1", "carol") := None]}
    ∅ ∅ [] [] [].

Definition team_task : FanoutTask :=
  mkFanoutTask "g1" "group:g1" "group" "alice" 2 50000000.

(** The mention tips of a group send: one per non-empty entry of the
    payload's [mentions], in the order of the array. *)
Definition mention_frames (userID : string) (p : ws.SendPayload) (sq : Z)
  : list (string * Frame) :=
  map (fun uid => (cache.DeliverChannel uid, FMention (ws.pGroupID p) (ws.pConvID p) userID sq))
      (List.filter (fun uid => negb (bool_decide (uid = ""))) (ws.pMentions p)).

(** A group message of alice that mentions bob, an empty entry, and carol. *)
Definition mention_payload : ws.SendPayload :=
  ws.mkSendPayload "group:g1" "group" "" "g1" "text" "cm-9" "hey" ["bob"; ""; "carol"] 0 false.





(** A run of operations on a group entity, each at its own time. *)
Definition group_run (g : domain.Group) (ops : list (Time * domain.GroupOp)) : domain.Group :=
  foldl (fun g' op => domain.apply_op op.1 g' op.2) g ops.

(** A day in the life of group g1: a rename refused, a mute, a transfer to
    the current owner refused, a transfer to bob. *)
Definition team_ops : list (Time * domain.GroupOp) :=
  [(1, domain.OpUpdateName ""); (2, domain.OpSetMute true);
   (3, domain.OpTransfer "alice"); (4, domain.OpTransfer "bob")].

(** Five messages of conversation c1 with seqs 1 to 5. *)
Definition five_messages : list Message :=
  [text_message "s3" "m3" "c1" "alice" "bob" 3 3;
   text_message "s1" "m1" "c1" "alice" "bob" 1 1;
   text_message "s5" "m5" "c1" "bob" "alice" 5 5;
   text_message "s2" "m2" "c1" "bob" "alice" 2 2;
   text_message "s4" "m4" "c1" "alice" "bob" 4 4].

(** What a subscriber of [channel] sees of a stream: the stream seq and the
    status of each delivery published there, in order. *)
Definition stream_view (channel : string) (frames : list (string * Frame)) : list (Z * string) :=
  omap (fun cf : string * Frame =>
          match cf.2 with
          | FDeliver d =>
              if bool_decide (cf.1 = channel) then Some (dStreamSeq d, dStreamStatus d)
              else None
          | _ => None
          end) frames.

(** The stream seqs [first], [first + 1], ... of [n] chunks. *)
Definition chunk_numbers (first : Z) (n : nat) : list (Z * string) :=
  map (fun k => (first + Z.of_nat k, StreamStatusChunk)) (seq 0 n).

(** The latest transition of device [d] of user [u] in a run, if any:
    [Some true] for [set_online], [Some false] for [set_offline]. *)
Definition note_transition (u d : string) (acc : option bool) (op : PresenceOp) : option bool :=
  match op with
  | set_online u' d' => if bool_decide (u' = u /\ d' = d) then Some true else acc
  | set_offline u' d' => if bool_decide (u' = u /\ d' = d) then Some false else acc
  end.

Definition last_transition (u d : string) (ops : list PresenceOp) : option bool :=
  foldl (note_transition u d) None ops.

(** cmd and config: the two comma-separated list parsers.  A Go string is
    its bytes; [44] is the comma and [32] the space. *)
Module csv.

(** [string(s[i])]: the conversion of one byte to a string takes the byte
    as a code point and encodes it in UTF-8. *)
Definition byte_to_string (b : Z) : list Z :=
  if bool_decide (b < 128) then [b]
  else [Z.lor 192 (Z.shiftr b 6); Z.lor 128 (Z.land b 63)].

(** One iteration of the loop of [splitCSV] over [out] and [cur]. *)
Definition splitCSV_step (acc : list (list Z) * list Z) (b : Z) : list (list Z) * list Z :=
  if bool_decide (b = 44) then
    if bool_decide (acc.2 = []) then acc else (acc.1 ++ [acc.2], [])
  else (acc.1, acc.2 ++ byte_to_string b).

Definition splitCSV (s : list Z) : list (list Z) :=
  let acc := foldl splitCSV_step ([], []) s in
  if bool_decide (acc.2 = []) then acc.1 else acc.1 ++ [acc.2].

(** [for len(server) > 0 && server[0] == ' ' { server = server[1:] }] *)
Fixpoint trimLeft (server : list Z) : list Z :=
  match server with
  | b :: rest => if bool_decide (b = 32) then trimLeft rest else server
  | [] => []
  end.

(** [for len(server) > 0 && server[len(server)-1] == ' ' { server = server[:len(server)-1] }] *)
Definition trimRight (server : list Z) : list Z := reverse (trimLeft (reverse server)).

(** [for i < len(s) && s[i] != ',' { i++ }]: the bytes up to the next comma
    and what is left from the comma on. *)
Fixpoint until_comma (s : list Z) : list Z * list Z :=
  match s with
  | [] => ([], [])
  | b :: rest =>
      if bool_decide (b = 44) then ([], s)
      else let r := until_comma rest in (b :: r.1, r.2)
  end.

(** The outer loop of [parseServerList] from position [i], given as the
    bytes from [i] on; every iteration moves [i] forward. *)
Fixpoint parse_from (fuel : nat) (s : list Z) : list (list Z) :=
  match fuel with
  | O => []
  | S fuel' =>
      match s with
      | [] => []
      | _ =>
          let r := until_comma s in
          let server := trimRight (trimLeft r.1) in
          (if bool_decide (r.1 = []) then []
           else if bool_decide (server = []) then [] else [server])
          ++ parse_from fuel' (match r.2 with [] => [] | _ :: rest => rest end)
      end
  end.

Definition parseServerList (s : list Z) : list (list Z) :=
  if bool_decide (s = []) then [] else parse_from (length s) s.

(** [strings.Join(pieces, ",")] *)
Fixpoint join (pieces : list (list Z)) : list Z :=
  match pieces with
  | [] => []
  | [p] => p
  | p :: rest => p ++ 44 :: join rest
  end.

(** A list entry as [splitCSV] returns it unchanged: not empty, ASCII, no
    comma. *)
Definition plain (p : list Z) : Prop :=
  p <> [] /\ Forall (fun b => 0 <= b < 128 /\ b <> 44) p.

(** A server name as [parseServerList] returns it: not empty, no comma, no
    space at either end. *)
Definition server_name (p : list Z) : Prop :=
  p <> [] /\ Forall (fun b => b <> 44) p /\ head p <> Some 32 /\ last p <> Some 32.

(** A server name written with spaces around it. *)
Definition padded (e : nat * list Z * nat) : list Z :=
  replicate e.1.1 32 ++ e.1.2 ++ replicate e.2 32.

(** "a,b" and " a , b ,, " as bytes. *)
Definition ab : list (list Z) := [[97]; [98]].
Definition ab_padded : list (nat * list Z * nat) := [(1%nat, [97], 1%nat); (1%nat, [98], 1%nat)].

End csv.

(** The three per-user settings of a conversation, set one after the other. *)
Definition set_flags (u c : string) (pinned muted : bool) (draft : string) (now : Time)
  (st : State) : State :=
  ConversationList.SetDraft u c draft now
    (ConversationList.SetMuted u c muted now
       (ConversationList.SetPinned u c pinned now st)).

(** Bob's list entry for alice's hello once he has read it. *)
Definition bob_hello_item : ConversationList.UnreadItem :=
  ConversationList.mkUnreadItem "c2c:alice:bob" "c2c" "alice" "" false false "" 100 100 100 0.

(** * Verification *)

(** ** Redis keys *)

Section keys.

Lemma append_inj_l (p a b : string) : p +:+ a = p +:+ b -> a = b.
Proof. induction p as [|c p IH]; simpl; [done|]. intros [= H]. auto. Qed.

Lemma DevicePresenceKey_inj u v :
  cache.DevicePresenceKey u = cache.DevicePresenceKey v -> u = v.
Proof. apply append_inj_l. Qed.

Lemma DevicePresenceKey_online u : cache.DevicePresenceKey u <> cache.OnlineUsersKey.
Proof. unfold cache.DevicePresenceKey, cache.OnlineUsersKey. simpl. discriminate. Qed.

Lemma streamCacheKey_inj a b :
  services.streamCacheKey a = services.streamCacheKey b -> a = b.
Proof. apply append_inj_l. Qed.

Lemma streamCacheKey_lastSeq a c : services.lastSeqCacheKey c <> services.streamCacheKey a.
Proof. unfold services.streamCacheKey, services.lastSeqCacheKey. simpl. discriminate. Qed.

Lemma streamCacheKey_readSeq a u c :
  ReceiptStore.readSeqCacheKey u c <> services.streamCacheKey a.
Proof. unfold services.streamCacheKey, ReceiptStore.readSeqCacheKey. simpl. discriminate. Qed.

End keys.

(** ** Presence *)

Section presence.

Import cache.

Lemma smembers_SAdd_eq k x s : smembers (SAdd k x s) k = {[x]} ∪ smembers s k.
Proof. unfold smembers, SAdd. by rewrite lookup_insert_eq. Qed.

Lemma smembers_SAdd_ne k k' x s : k <> k' -> smembers (SAdd k x s) k' = smembers s k'.
Proof. intros Hne. unfold smembers at 1, SAdd. by rewrite lookup_insert_ne. Qed.

Lemma smembers_SRem_eq k x s : smembers (SRem k x s) k = smembers s k ∖ {[x]}.
Proof.
  unfold SRem. destruct (decide (smembers s k ∖ {[x]} = ∅)) as [He|Hne].
  - unfold smembers at 1. by rewrite lookup_delete_eq, He.
  - unfold smembers at 1. by rewrite lookup_insert_eq.
Qed.

Lemma smembers_SRem_ne k k' x s : k <> k' -> smembers (SRem k x s) k' = smembers s k'.
Proof.
  intros Hne. unfold SRem. destruct (decide (smembers s k ∖ {[x]} = ∅)).
  - unfold smembers at 1. by rewrite lookup_delete_ne.
  - unfold smembers at 1. by rewrite lookup_insert_ne.
Qed.

Lemma SCard_zero s k : SCard s k = 0 <-> smembers s k = ∅.
Proof.
  unfold SCard. split.
  - intros H. apply leibniz_equiv, size_empty_inv. lia.
  - intros ->. by rewrite size_empty.
Qed.

Lemma online_SetDeviceOnline u d st :
  smembers (sets (SetDeviceOnline u d st)) OnlineUsersKey
  = {[u]} ∪ smembers (sets st) OnlineUsersKey.
Proof.
  unfold SetDeviceOnline. simpl. rewrite smembers_SAdd_eq.
  rewrite smembers_SAdd_ne by apply DevicePresenceKey_online. done.
Qed.

Lemma devices_SetDeviceOnline u d st v :
  OnlineDevices (SetDeviceOnline u d st) v
  = if decide (v = u) then {[d]} ∪ OnlineDevices st v else OnlineDevices st v.
Proof.
  unfold OnlineDevices, SetDeviceOnline. simpl.
  rewrite smembers_SAdd_ne by (intros H; symmetry in H; by apply DevicePresenceKey_online in H).
  destruct (decide (v = u)) as [->|Hne].
  - apply smembers_SAdd_eq.
  - apply smembers_SAdd_ne. intros H. apply DevicePresenceKey_inj in H. congruence.
Qed.

Lemma devices_SetDeviceOffline u d st v :
  OnlineDevices (SetDeviceOffline u d st) v
  = if decide (v = u) then OnlineDevices st v ∖ {[d]} else OnlineDevices st v.
Proof.
  assert (Hstep : smembers (SRem (DevicePresenceKey u) d (sets st)) (DevicePresenceKey v)
                  = if decide (v = u) then OnlineDevices st v ∖ {[d]} else OnlineDevices st v).
  { destruct (decide (v = u)) as [->|Hne].
    - apply smembers_SRem_eq.
    - apply smembers_SRem_ne. intros H. apply DevicePresenceKey_inj in H. congruence. }
  unfold OnlineDevices at 1, SetDeviceOffline. case_bool_decide; simpl; [|done].
  rewrite smembers_SRem_ne; [done|].
  intros Hk. symmetry in Hk. by apply DevicePresenceKey_online in Hk.
Qed.

Lemma online_SetDeviceOffline u d st :
  smembers (sets (SetDeviceOffline u d st)) OnlineUsersKey
  = if decide (OnlineDevices st u ∖ {[d]} = ∅)
    then smembers (sets st) OnlineUsersKey ∖ {[u]}
    else smembers (sets st) OnlineUsersKey.
Proof.
  unfold SetDeviceOffline. simpl.
  destruct (decide (OnlineDevices st u ∖ {[d]} = ∅)) as [He|Hne].
  - rewrite bool_decide_eq_true_2
      by (apply SCard_zero; by rewrite smembers_SRem_eq).
    simpl. rewrite smembers_SRem_eq.
    by rewrite smembers_SRem_ne by apply DevicePresenceKey_online.
  - rewrite bool_decide_eq_false_2
      by (rewrite SCard_zero, smembers_SRem_eq; done).
    simpl. by rewrite smembers_SRem_ne by apply DevicePresenceKey_online.
Qed.

Lemma presence_inv_empty : presence_inv empty_state.
Proof. intros u. unfold OnlineDevices, smembers. simpl. rewrite !lookup_empty. simpl. set_solver. Qed.

Lemma presence_inv_online u d st : presence_inv st -> presence_inv (SetDeviceOnline u d st).
Proof.
  intros Hinv v. rewrite online_SetDeviceOnline, devices_SetDeviceOnline.
  specialize (Hinv v). destruct (decide (v = u)) as [->|Hne]; set_solver.
Qed.

Lemma presence_inv_offline u d st : presence_inv st -> presence_inv (SetDeviceOffline u d st).
Proof.
  intros Hinv v. rewrite online_SetDeviceOffline, devices_SetDeviceOffline.
  pose proof (Hinv v) as Hv. pose proof (Hinv u) as Hu. clear Hinv.
  destruct (decide (v = u)) as [->|Hne];
    destruct (decide (OnlineDevices st u ∖ {[d]} = ∅)) as [He|Hd];
    rewrite ?elem_of_difference, ?elem_of_singleton.
  - split; [intros [_ Hnot]; by destruct Hnot | intros Hnot; by destruct Hnot].
  - split; [done|]. intros _. apply Hu. intros Hempty. apply Hd.
    rewrite Hempty. apply leibniz_equiv. apply subseteq_empty_difference. done.
  - rewrite <- Hv. tauto.
  - done.
Qed.

Lemma presence_inv_run ops st : presence_inv st -> presence_inv (presence_run st ops).
Proof.
  revert st. induction ops as [|op ops IH]; intros st Hinv; [done|].
  simpl. apply IH. destruct op; [by apply presence_inv_online | by apply presence_inv_offline].
Qed.

Lemma IsOnline_true st u : IsOnline st u = true <-> u ∈ smembers (sets st) OnlineUsersKey.
Proof. unfold IsOnline. apply bool_decide_eq_true. Qed.

Lemma IsOnline_false st u : IsOnline st u = false <-> u ∉ smembers (sets st) OnlineUsersKey.
Proof. unfold IsOnline. apply bool_decide_eq_false. Qed.

(** C9.  After any sequence of [set_online] / [set_offline] transitions run
    one after the other from the empty store, every user [u] is in the global
    online set if and only if [devices(u)] is non-empty; and a further
    [set_offline u d] takes [u] out of the online set exactly when it removes
    the last device of [u]. *)
Theorem presence_online_iff_devices (ops : list PresenceOp) (u d : string) :
  let st := presence_run empty_state ops in
  let st' := SetDeviceOffline u d st in
  (IsOnline st u = true <-> OnlineDevices st u <> ∅)
  /\ (IsOnline st' u = true <-> OnlineDevices st' u <> ∅)
  /\ OnlineDevices st' u = OnlineDevices st u ∖ {[d]}
  /\ ((IsOnline st u = true /\ IsOnline st' u = false)
      <-> (d ∈ OnlineDevices st u /\ OnlineDevices st' u = ∅)).
Proof.
  intros st st'.
  assert (Hinv : presence_inv st) by apply presence_inv_run, presence_inv_empty.
  assert (Hinv' : presence_inv st') by by apply presence_inv_offline.
  assert (Hdev : OnlineDevices st' u = OnlineDevices st u ∖ {[d]}).
  { unfold st'. rewrite devices_SetDeviceOffline. by rewrite decide_True. }
  split; [rewrite IsOnline_true; apply Hinv|].
  split; [rewrite IsOnline_true; apply Hinv'|].
  split; [done|].
  rewrite IsOnline_true, IsOnline_false.
  pose proof (Hinv u) as Hu. pose proof (Hinv' u) as Hu'.
  rewrite Hdev in *.
  split.
  - intros [Hin Hout]. split.
    + destruct (decide (d ∈ OnlineDevices st u)) as [|Hnd]; [done|].
      exfalso. apply Hout, Hu'. apply Hu in Hin. intros He. apply Hin.
      apply leibniz_equiv. intros x. split; [|by intros ?%not_elem_of_empty].
      intros Hx. rewrite <- He. apply elem_of_difference. split; [done|].
      rewrite elem_of_singleton. by intros ->.
    + destruct (decide (OnlineDevices st u ∖ {[d]} = ∅)) as [|Hne]; [done|].
      exfalso. by apply Hout, Hu'.
  - intros [Hd He]. split.
    + apply Hu. intros Hempty. rewrite Hempty in Hd. by apply not_elem_of_empty in Hd.
    + intros Hin. apply Hu' in Hin. done.
Qed.

End presence.

(** ** History listing *)

Section history.

Import MessageStore.

#[local] Instance seq_le_trans : Transitive seq_le.
Proof. intros a b c. unfold seq_le. lia. Qed.

#[local] Instance seq_le_total : Total seq_le.
Proof. intros a b. unfold seq_le. lia. Qed.

Lemma listed_spec convID fromSeq now r :
  listed convID fromSeq now r = true
  <-> ConvID r = convID /\ fromSeq < Seq r /\ Recalled r = false
      /\ (forall t, ExpireAt r = Some t -> now < t).
Proof.
  unfold listed, not_expired.
  rewrite !andb_true_iff, !bool_decide_eq_true, negb_true_iff.
  destruct (ExpireAt r) as [t|].
  - rewrite bool_decide_eq_true. split.
    + intros [[[? ?] ?] ?]. repeat split; try done. by intros ? [= <-].
    + intros (? & ? & ? & Ht). repeat split; try done. by apply Ht.
  - split; [intros [[[? ?] ?] ?]|intros (? & ? & ? & ?)]; repeat split; done.
Qed.


Lemma elem_of_filter_list {A} (f : A -> bool) (l : list A) x :
  x ∈ List.filter f l <-> x ∈ l /\ f x = true.
Proof. rewrite !list_elem_of_In. apply filter_In. Qed.

(** Every record returned by the listing is stored and satisfies the
    [WHERE] clause. *)
Lemma List_sound tbl convID fromSeq limit now m :
  m ∈ List tbl convID fromSeq limit now ->
  m ∈ tbl /\ listed convID fromSeq now m = true.
Proof.
  unfold List. intros Hin. apply elem_of_take in Hin as (i & Hi & _).
  apply list_elem_of_lookup_2 in Hi.
  rewrite merge_sort_Permutation in Hi. by apply elem_of_filter_list in Hi.
Qed.



(** The listing takes no account of who asks, nor of delete watermarks. *)
Lemma history_ignores_watermark st uid uid' convID fromSeq limit now f :
  http.history (with_conv_deletes f st) uid convID fromSeq limit now
  = http.history st uid' convID fromSeq limit now.
Proof. reflexivity. Qed.

End history.


(** ** Read receipts *)

Section receipts.

Import ReceiptStore.

Lemma UpsertReadSeq_lookup u c sq st :
  read_receipts (UpsertReadSeq u c sq st) !! (u, c)
  = Some (match read_receipts st !! (u, c) with
          | None => sq
          | Some old => Z.max old sq
          end).
Proof.
  unfold UpsertReadSeq. simpl. destruct (read_receipts st !! (u, c)) as [old|].
  - rewrite lookup_insert_eq. f_equal. case_bool_decide; lia.
  - by rewrite lookup_insert_eq.
Qed.

Lemma UpsertReadSeq_noop u c sq old st :
  read_receipts st !! (u, c) = Some old -> sq <= old ->
  read_receipts (UpsertReadSeq u c sq st) = read_receipts st.
Proof.
  intros Hold Hle. unfold UpsertReadSeq. simpl. rewrite Hold.
  rewrite bool_decide_eq_false_2 by lia. by apply insert_id.
Qed.

(** A run of single read-receipt upserts ends at the maximum of its inputs. *)
Lemma UpsertReadSeq_run_max u c sq sqs st :
  read_receipts st !! (u, c) = None ->
  read_receipts (foldl (fun s x => UpsertReadSeq u c x s) st (sq :: sqs)) !! (u, c)
  = Some (foldl Z.max sq sqs).
Proof.
  intros Hnone. simpl.
  assert (Hfirst : read_receipts (UpsertReadSeq u c sq st) !! (u, c) = Some sq)
    by (by rewrite UpsertReadSeq_lookup, Hnone).
  clear Hnone. revert Hfirst. generalize (UpsertReadSeq u c sq st) as s. revert sq.
  induction sqs as [|x xs IH]; intros sq s Hs; [done|].
  simpl. apply IH. by rewrite UpsertReadSeq_lookup, Hs.
Qed.

(** C5 (the defect).  The per-chunk write of mark-all-read overwrites the
    stored read sequence: a receipt at 10 followed by mark-all-read with a
    last seq of 5 leaves 5 in the table, not [max 10 5]. *)
Theorem mark_all_read_overwrites :
  let st1 := UpsertReadSeq "u1" "c1" 10 empty_state in
  let st2 := MarkAllReadInChunks "u1" ["c1"] {["c1" := 5]} 200 st1 in
  GetReadSeq st1 "u1" "c1" = 10
  /\ GetReadSeq st2 "u1" "c1" = 5
  /\ GetReadSeq st2 "u1" "c1" <> Z.max (GetReadSeq st1 "u1" "c1") 5.
Proof. vm_compute. repeat split; discriminate. Qed.

End receipts.

(** ** Sends denied by the mute check *)

Section mute.

(** C6 (the defect).  A group send by a muted sender is answered with
    SEND_FAILED, yet the message has been appended to the log and the
    conversation index updated before the mute check ran; nothing is
    published. *)
Theorem muted_send_is_persisted :
  let env := env_at "id-1" 100 100 in
  let '(st, frames) := ws.handleInbound gateway env env "alice" (ws.ASend group_payload) muted_group in
  frames = [FError "SEND_FAILED" "group is muted or user muted"]
  /\ messages muted_group = []
  /\ map ClientMsgID (messages st) = ["cm-1"]
  /\ conversations muted_group !! "group:g1" = None
  /\ (last_seq <$> conversations st !! "group:g1") = Some 100
  /\ is_Some (user_conversations st !! ("alice", "group:g1"))
  /\ published st = [].
Proof. vm_compute. repeat split; eauto. Qed.

End mute.

(** ** Recall *)

Section recall.

Import MessageStore.

Lemma Recall_keeps_records tbl convID serverMsgID :
  map ServerMsgID (Recall tbl convID serverMsgID) = map ServerMsgID tbl
  /\ length (Recall tbl convID serverMsgID) = length tbl.
Proof.
  unfold Recall. split; [|by rewrite length_map].
  rewrite map_map. apply map_ext. intros r. by destruct (_ && _).
Qed.

Lemma Recall_sets_flag tbl convID serverMsgID r :
  r ∈ Recall tbl convID serverMsgID -> ConvID r = convID -> ServerMsgID r = serverMsgID ->
  Recalled r = true.
Proof.
  unfold Recall. intros Hin Hc Hs.
  apply list_elem_of_fmap in Hin as (r0 & -> & _).
  destruct (bool_decide (ConvID r0 = convID) && bool_decide (ServerMsgID r0 = serverMsgID)) eqn:E.
  - done.
  - rewrite andb_false_iff, !bool_decide_eq_false in E. tauto.
Qed.

(** Once recalled, a record is never flipped back by a later recall. *)
Lemma Recall_monotone tbl convID serverMsgID :
  Forall2 (fun r r' => Recalled r = true -> Recalled r' = true) tbl (Recall tbl convID serverMsgID).
Proof.
  unfold Recall. induction tbl as [|r tbl IH]; simpl; constructor; [|done].
  by destruct (_ && _).
Qed.

(** A recalled record stays in storage and no history listing returns it. *)
Lemma recalled_hidden_from_history st uid convID serverMsgID fromSeq limit now m :
  m ∈ http.history (services.Recall convID serverMsgID st) uid convID fromSeq limit now ->
  ServerMsgID m <> serverMsgID.
Proof.
  intros Hin Hs. apply List_sound in Hin as [Hin Hl].
  apply listed_spec in Hl as (Hc & _ & Hrec & _).
  simpl in Hin. apply Recall_sets_flag in Hin; [congruence|done..].
Qed.

(** C7 (the defect).  A recall frame from bob for alice's message, one hour
    after it was sent, sets [recalled]: the gateway consults neither the
    sender nor [CanRecall]. *)
Theorem recall_by_anyone_anytime :
  let env := env_at "id-2" one_hour one_hour in
  let st := one_message alice_message in
  let '(st', frames) := ws.handleInbound gateway env env "bob"
                          (ws.ARecall "c1" "s1") st in
  FromUserID alice_message <> "bob"
  /\ entities.CanRecall alice_message (env_now env) = false
  /\ map Recalled (messages st) = [false]
  /\ map Recalled (messages st') = [true]
  /\ map ServerMsgID (messages st') = ["s1"]
  /\ http.history st' "alice" "c1" 0 50 (env_now env) = [].
Proof. vm_compute. repeat split; discriminate. Qed.

End recall.

(** ** Read and burn-after-read *)

Section burn.

Import MessageStore.

(** C3 (the defect).  The sender's own read of a burn-after-read message
    flips [recalled] and publishes the [recalled] event to both peers: the
    gateway does not compare the reader with the sender. *)
Theorem sender_read_burns_message :
  let env := env_at "id-3" 50 50 in
  let st := one_message alice_burn_message in
  let '(st', frames) := ws.handleInbound gateway env env "alice" (ws.ARead "c1" 7) st in
  FromUserID alice_burn_message = "alice"
  /\ frames = [FReadAck "c1" 7]
  /\ map Recalled (messages st) = [false]
  /\ map Recalled (messages st') = [true]
  /\ published st' = [("im:deliver:bob", FRecalled "c1" 7); ("im:deliver:alice", FRecalled "c1" 7)].
Proof. vm_compute. repeat split; discriminate. Qed.

End burn.

(** ** What [Send] does to each part of the state *)

Section send_frame.

Import services.

Lemma messages_notify_group svc env req st :
  messages (notify_group svc env req st) = messages st.
Proof. unfold notify_group. by repeat case_match. Qed.

Lemma messages_update_index svc env req msg st :
  messages (update_index svc env req msg st) = messages st.
Proof.
  unfold update_index. repeat case_match; rewrite ?messages_notify_group; done.
Qed.

Lemma messages_publish_deliver req d st :
  messages (publish_deliver req d st) = messages st.
Proof. unfold publish_deliver. by case_match. Qed.

(** [Send] touches the log only through the one [Append], attempted exactly
    when [shouldStore]. *)
Lemma Send_messages svc env req st :
  messages (Send svc env req st).1
  = if shouldStore req && negb (env_append_fails env)
    then MessageStore.Append (messages st) (new_message env req)
    else messages st.
Proof.
  unfold Send.
  destruct (shouldStore req) eqn:Hs, (env_append_fails env) eqn:Hf; simpl; try done;
    repeat case_match; simpl;
    rewrite ?messages_publish_deliver, ?messages_update_index; done.
Qed.

Lemma Send_result svc env req st :
  (Send svc env req st).2 = inl ErrAppend
  \/ (Send svc env req st).2 = inl ErrMuted
  \/ (Send svc env req st).2 = inr (deliver_of (new_message env req)).
Proof. unfold Send. repeat case_match; simpl; auto. Qed.

Lemma Send_ack svc env req st d :
  (Send svc env req st).2 = inr d ->
  d = deliver_of (new_message env req).
Proof. destruct (Send_result svc env req st) as [H|[H|H]]; rewrite H; congruence. Qed.

(** A one-to-one send on a healthy store is always acknowledged. *)
Lemma Send_c2c_ack svc env req st :
  rConvType req = ConversationTypeC2C -> env_append_fails env = false ->
  (Send svc env req st).2 = inr (deliver_of (new_message env req)).
Proof.
  intros Hc Hf. unfold Send. rewrite Hf, andb_false_r, Hc. simpl. done.
Qed.

End send_frame.

(** ** Idempotent append *)

Section idempotency.

Import MessageStore services.

Lemma client_key_row_of m : client_key (row_of m) = client_key m.
Proof. reflexivity. Qed.

Lemma has_conflict_false tbl m :
  has_conflict tbl m = false
  <-> forall r, r ∈ tbl -> ServerMsgID r <> ServerMsgID m /\ client_key r <> client_key m.
Proof.
  unfold has_conflict. induction tbl as [|r0 tbl IH]; simpl.
  - split; [|done]. intros _ r Hr. by apply elem_of_nil in Hr.
  - rewrite orb_false_iff, IH. unfold conflicts at 1.
    rewrite orb_false_iff, andb_false_iff, !bool_decide_eq_false.
    split.
    + intros [[Hs Hk] Hrest] r Hr. apply elem_of_cons in Hr as [->|Hr]; [|by apply Hrest].
      split; [done|]. unfold client_key. intros [= ? ?]. tauto.
    + intros Hall. split.
      * destruct (Hall r0) as [Hs Hk]; [by left|]. split; [done|].
        destruct (decide (ConvID r0 = ConvID m)) as [Hc|]; [|by left].
        right. intros Hcl. apply Hk. unfold client_key. congruence.
      * intros r Hr. apply Hall. by right.
Qed.

Lemma has_conflict_key tbl m r :
  r ∈ tbl -> client_key r = client_key m -> has_conflict tbl m = true.
Proof.
  intros Hr Hk. destruct (has_conflict tbl m) eqn:E; [done|].
  rewrite has_conflict_false in E. destruct (E r Hr). done.
Qed.

Lemma with_key_elem convID clientMsgID tbl r :
  r ∈ with_key convID clientMsgID tbl <-> r ∈ tbl /\ client_key r = (convID, clientMsgID).
Proof. unfold with_key. rewrite elem_of_filter_list, bool_decide_eq_true. done. Qed.

Lemma with_key_app convID clientMsgID t1 t2 :
  with_key convID clientMsgID (t1 ++ t2)
  = with_key convID clientMsgID t1 ++ with_key convID clientMsgID t2.
Proof. unfold with_key. apply List.filter_app. Qed.

(** Under the unique key, at most one record carries a given key. *)
Lemma with_key_unique convID clientMsgID tbl :
  uniq_conv_client tbl -> (length (with_key convID clientMsgID tbl) <= 1)%nat.
Proof.
  unfold uniq_conv_client, with_key. induction tbl as [|r tbl IH]; simpl; [lia|].
  intros Hnd. apply NoDup_cons in Hnd as [Hnotin Hnd].
  case_bool_decide as Hk; simpl; [|by apply IH].
  assert (Hnone : List.filter (fun r0 => bool_decide (client_key r0 = (convID, clientMsgID))) tbl = []).
  { destruct (List.filter _ tbl) as [|r1 l] eqn:E; [done|]. exfalso.
    assert (Hin : r1 ∈ List.filter (fun r0 => bool_decide (client_key r0 = (convID, clientMsgID))) tbl)
      by (rewrite E; by left).
    apply elem_of_filter_list in Hin as [Hin Hk1]. apply bool_decide_eq_true in Hk1.
    apply Hnotin. rewrite Hk, <- Hk1. by apply list_elem_of_fmap_2. }
  rewrite Hnone. simpl. lia.
Qed.

(** [Append] keeps the unique key. *)
Lemma Append_uniq_conv_client tbl m :
  uniq_conv_client tbl -> uniq_conv_client (Append tbl m).
Proof.
  unfold Append, uniq_conv_client. intros Hnd.
  destruct (has_conflict tbl m) eqn:E; [done|].
  rewrite map_app. apply NoDup_app. split; [done|]. split.
  - intros k Hk Hk'. simpl in Hk'. apply list_elem_of_singleton in Hk'. subst k.
    apply list_elem_of_fmap in Hk as (r & Hr & Hin).
    rewrite has_conflict_false in E. destruct (E r Hin) as [_ Hne].
    rewrite client_key_row_of in Hr. congruence.
  - simpl. apply NoDup_singleton.
Qed.

Lemma send_seq_cons svc env req rest st :
  send_seq svc ((env, req) :: rest) st
  = ((send_seq svc rest (Send svc env req st).1).1,
     (Send svc env req st).2 :: (send_seq svc rest (Send svc env req st).1).2).
Proof.
  simpl. destruct (Send svc env req st) as [st1 r]. simpl.
  by destruct (send_seq svc rest st1).
Qed.

Lemma send_seq_length svc calls st : length (send_seq svc calls st).2 = length calls.
Proof.
  revert st. induction calls as [|[env req] rest IH]; intros st; [done|].
  rewrite send_seq_cons. simpl. by rewrite IH.
Qed.

(** Once a record with the key is in the log, resubmitting changes nothing
    in the log. *)
Lemma resend_present svc envs req st r :
  r ∈ messages st -> client_key r = (rConvID req, rClientID req) ->
  messages (resend svc envs req st).1 = messages st.
Proof.
  unfold resend. revert st. induction envs as [|env envs IH]; intros st Hin Hk; [done|].
  simpl map. rewrite send_seq_cons. simpl.
  assert (Hsame : messages (Send svc env req st).1 = messages st).
  { rewrite Send_messages. case_match; [|done].
    unfold Append. by rewrite (has_conflict_key _ (new_message env req) r Hin Hk). }
  rewrite IH; [done| by rewrite Hsame | done].
Qed.

Lemma resend_acks svc envs req st :
  Forall2 (fun env a => a = inl ErrMuted \/ a = inl ErrAppend
                        \/ a = inr (deliver_of (new_message env req)))
          envs (resend svc envs req st).2.
Proof.
  unfold resend. revert st. induction envs as [|env envs IH]; intros st; [constructor|].
  simpl map. rewrite send_seq_cons. simpl. constructor; [|apply IH].
  destruct (Send_result svc env req st) as [H|[H|H]]; auto.
Qed.

(** The unique key is an invariant of every run of sends. *)
Lemma send_seq_uniq_conv_client svc calls st :
  uniq_conv_client (messages st) -> uniq_conv_client (messages (send_seq svc calls st).1).
Proof.
  revert st. induction calls as [|[env req] rest IH]; intros st Hu; [done|].
  rewrite send_seq_cons. simpl. apply IH.
  rewrite Send_messages. case_match; [by apply Append_uniq_conv_client|done].
Qed.

Lemma Send_result_healthy svc env req st :
  env_append_fails env = false ->
  (Send svc env req st).2 = inl ErrMuted
  \/ (Send svc env req st).2 = inr (deliver_of (new_message env req)).
Proof. intros Hf. unfold Send. rewrite Hf, andb_false_r. repeat case_match; simpl; auto. Qed.

Lemma resend_acks_healthy svc envs req st :
  Forall (fun e => env_append_fails e = false) envs ->
  Forall2 (fun env a => a = inl ErrMuted
                        \/ exists d, a = inr d /\ dServerMsgID d = env_uuid env
                                      /\ dSeq d = env_nano env)
          envs (resend svc envs req st).2.
Proof.
  unfold resend. revert st. induction envs as [|env envs IH]; intros st Hf; [constructor|].
  apply Forall_cons in Hf as [Hf Hfs].
  simpl map. rewrite send_seq_cons. simpl. constructor; [|by apply IH].
  destruct (Send_result_healthy svc env req st Hf) as [H|H]; rewrite H; [by left|].
  right. by eexists.
Qed.

Lemma resend_c2c_acks svc envs req st :
  rConvType req = ConversationTypeC2C ->
  Forall (fun e => env_append_fails e = false) envs ->
  (resend svc envs req st).2 = map (fun e => inr (deliver_of (new_message e req))) envs.
Proof.
  intros Hc. unfold resend. revert st. induction envs as [|env envs IH]; intros st Hf; [done|].
  apply Forall_cons in Hf as [Hf Hfs].
  simpl map. rewrite send_seq_cons. simpl. rewrite IH by done.
  by rewrite Send_c2c_ack.
Qed.

(** C1 (amended).  When a storable send with key [(convId, clientMsgId)] is
    submitted N >= 1 times with the same payload against a healthy store
    (the first generated server id being unused), the message log ends with
    exactly one record for that key: the record it already held, or else the
    one written by the first submission.  Every ack carries the serverMsgId
    and seq generated for its own submission. *)
Theorem resend_single_record svc env envs req st :
  shouldStore req = true ->
  Forall (fun e => env_append_fails e = false) (env :: envs) ->
  (forall r, r ∈ messages st -> ServerMsgID r <> env_uuid env) ->
  uniq_conv_client (messages st) ->
  let st' := (resend svc (env :: envs) req st).1 in
  let acks := (resend svc (env :: envs) req st).2 in
  (exists r, with_key (rConvID req) (rClientID req) (messages st') = [r]
             /\ (with_key (rConvID req) (rClientID req) (messages st) = [] ->
                 r = row_of (new_message env req) /\ messages st' = messages st ++ [r])
             /\ (with_key (rConvID req) (rClientID req) (messages st) <> [] ->
                 messages st' = messages st))
  /\ uniq_conv_client (messages st')
  /\ Forall2 (fun e a => a = inl ErrMuted
                         \/ exists d, a = inr d /\ dServerMsgID d = env_uuid e
                                       /\ dSeq d = env_nano e)
             (env :: envs) acks
  /\ (rConvType req = ConversationTypeC2C ->
      acks = map (fun e => inr (deliver_of (new_message e req))) (env :: envs)).
Proof.
  intros Hstore Hf Hfresh Huniq st' acks.
  pose proof Hf as Hf0. apply Forall_cons in Hf0 as [Hf1 Hfs].
  set (msg := new_message env req).
  set (st1 := (Send svc env req st).1).
  assert (Hst' : st' = (resend svc envs req st1).1).
  { unfold st', resend. simpl map. by rewrite send_seq_cons. }
  assert (Hm1 : messages st1 = Append (messages st) msg).
  { unfold st1. by rewrite Send_messages, Hstore, Hf1. }
  assert (Hkey : client_key (row_of msg) = (rConvID req, rClientID req)) by done.
  split; [|split; [|split]].
  - destruct (with_key (rConvID req) (rClientID req) (messages st)) as [|r0 l] eqn:Hwk.
    + (* first submission of the key *)
      assert (Hnc : has_conflict (messages st) msg = false).
      { apply has_conflict_false. intros r Hr. split; [by apply Hfresh|].
        intros Hk. assert (Hin : r ∈ with_key (rConvID req) (rClientID req) (messages st))
          by (apply with_key_elem; split; [done|by rewrite Hk]).
        rewrite Hwk in Hin. by apply elem_of_nil in Hin. }
      assert (Happ : messages st1 = messages st ++ [row_of msg])
        by (rewrite Hm1; unfold Append; by rewrite Hnc).
      assert (Hfin : messages st' = messages st ++ [row_of msg]).
      { rewrite Hst', (resend_present svc envs req st1 (row_of msg)); [done| |done].
        rewrite Happ. apply elem_of_app. right. by left. }
      exists (row_of msg). split; [|split; [done|congruence]].
      rewrite Hfin, with_key_app, Hwk. simpl. unfold with_key. simpl.
      by rewrite bool_decide_eq_true_2.
    + (* the key is already stored *)
      assert (Hin0 : r0 ∈ with_key (rConvID req) (rClientID req) (messages st))
        by (rewrite Hwk; by left).
      apply with_key_elem in Hin0 as [Hin0 Hk0].
      assert (Hfin : messages st' = messages st).
      { unfold st', resend. by apply (resend_present svc (env :: envs) req st r0). }
      pose proof (with_key_unique (rConvID req) (rClientID req) _ Huniq) as Hlen.
      rewrite Hwk in Hlen. destruct l; [|simpl in Hlen; lia].
      exists r0. rewrite Hfin, Hwk. split; [done|]. split; [done|done].
  - by apply send_seq_uniq_conv_client.
  - by apply resend_acks_healthy.
  - intros Hc. by apply resend_c2c_acks.
Qed.

(** C1, witness: two submissions of [hello_request] on the empty store. *)
Lemma resend_single_record_witness :
  with_key "c2c:u1:u2" "cm-1"
    (messages (resend full_service [env_at "id-1" 100 100; env_at "id-2" 200 200]
                 hello_request empty_state).1)
  = [row_of (new_message (env_at "id-1" 100 100) hello_request)].
Proof.
  destruct (resend_single_record full_service (env_at "id-1" 100 100) [env_at "id-2" 200 200]
              hello_request empty_state) as ((r & Hr & Hnew & _) & _).
  - reflexivity.
  - repeat constructor.
  - intros r Hr. simpl in Hr. by apply elem_of_nil in Hr.
  - constructor.
  - destruct Hnew as [-> _]; [reflexivity|]. exact Hr.
Defined.

(** C1 (as stated) fails: the retry is acknowledged with a serverMsgId and a
    seq of its own, which name no record of the log. *)
Lemma retry_ack_counterexample :
  let run := resend full_service [env_at "id-1" 100 100; env_at "id-2" 200 200]
               hello_request empty_state in
  exists d1 d2,
    run.2 = [inr d1; inr d2]
    /\ dServerMsgID d1 <> dServerMsgID d2
    /\ dSeq d1 <> dSeq d2
    /\ map ServerMsgID (messages run.1) = ["id-1"]
    /\ map Seq (messages run.1) = [100].
Proof.
  eexists _, _. vm_compute. repeat split; discriminate.
Qed.

End idempotency.


(** ** Sequence numbers *)

Section sequencing.

Import MessageStore services.

Lemma seq_key_row_of m : seq_key (row_of m) = seq_key m.
Proof. reflexivity. Qed.











End sequencing.

(** ** Stream state *)

Section stream_state.

Import services.

Lemma kv_notify_group svc env req st : kv (notify_group svc env req st) = kv st.
Proof. unfold notify_group. by repeat case_match. Qed.

Lemma kv_update_index svc env req msg st :
  kv (update_index svc env req msg st)
  = <[lastSeqCacheKey (rConvID req) := VInt (Seq msg)]> (kv st).
Proof. unfold update_index. repeat case_match; rewrite ?kv_notify_group; done. Qed.

Lemma kv_publish_deliver req d st : kv (publish_deliver req d st) = kv st.
Proof. unfold publish_deliver. by case_match. Qed.

(** [Send] writes at most the last-seq cache entry of its conversation. *)
Lemma kv_Send svc env req st :
  kv (Send svc env req st).1 = kv st
  \/ kv (Send svc env req st).1 = <[lastSeqCacheKey (rConvID req) := VInt (env_nano env)]> (kv st).
Proof.
  unfold Send. repeat case_match; simpl;
    rewrite ?kv_publish_deliver, ?kv_update_index; simpl; auto.
Qed.

Lemma kv_Send_stream svc env req st sid :
  kv (Send svc env req st).1 !! streamCacheKey sid = kv st !! streamCacheKey sid.
Proof.
  destruct (kv_Send svc env req st) as [-> | ->]; [done|].
  apply lookup_insert_ne, streamCacheKey_lastSeq.
Qed.

Lemma kv_StartStream svc envStream env req st sid :
  env_uuid envStream <> sid ->
  kv (StartStream svc envStream env req st).1 !! streamCacheKey sid = kv st !! streamCacheKey sid.
Proof.
  intros Hne. unfold StartStream. rewrite kv_Send_stream. simpl.
  apply lookup_insert_ne. intros H. by apply streamCacheKey_inj in H.
Qed.

Lemma SendStreamChunk_not_found svc env sid delta metadata st :
  kv st !! streamCacheKey sid = None ->
  SendStreamChunk svc env sid delta metadata st = (st, Some (ErrStreamNotFound sid)).
Proof. intros H. unfold SendStreamChunk. by rewrite H. Qed.

Lemma EndStream_not_found svc env sid finalText errorMsg st :
  kv st !! streamCacheKey sid = None ->
  EndStream svc env sid finalText errorMsg st = (st, Some (ErrStreamNotFound sid)).
Proof. intros H. unfold EndStream. by rewrite H. Qed.

Lemma kv_SendStreamChunk svc env sid' delta metadata st sid :
  kv st !! streamCacheKey sid = None ->
  kv (SendStreamChunk svc env sid' delta metadata st).1 !! streamCacheKey sid = None.
Proof.
  intros Habs. unfold SendStreamChunk.
  destruct (kv st !! streamCacheKey sid') as [[n|info]|] eqn:E; simpl; try done.
  destruct (Send _ _ _ _) as [st2 [e|d]] eqn:ES; simpl;
    change st2 with (st2, @inl error Deliver e).1 || change st2 with (st2, @inr error Deliver d).1;
    rewrite <- ES, kv_Send_stream; simpl;
    (rewrite lookup_insert_ne; [done|]; intros H; apply streamCacheKey_inj in H; congruence).
Qed.

Lemma kv_EndStream svc env sid' finalText errorMsg st sid :
  kv st !! streamCacheKey sid = None ->
  kv (EndStream svc env sid' finalText errorMsg st).1 !! streamCacheKey sid = None.
Proof.
  intros Habs. unfold EndStream.
  destruct (kv st !! streamCacheKey sid') as [[n|info]|] eqn:E; simpl; try done.
  destruct (Send _ _ _ _) as [st1 r] eqn:ES.
  assert (Hst1 : kv st1 !! streamCacheKey sid = None).
  { change st1 with (st1, r).1. by rewrite <- ES, kv_Send_stream. }
  destruct r; simpl; (destruct (decide (streamCacheKey sid' = streamCacheKey sid)) as [->|Hne];
    [apply lookup_delete_eq | by rewrite lookup_delete_ne]).
Qed.

(** [EndStream] on a known stream removes the cached state whatever [Send]
    answered. *)
Lemma kv_EndStream_known svc env sid finalText errorMsg st info :
  kv st !! streamCacheKey sid = Some (VStream info) ->
  kv (EndStream svc env sid finalText errorMsg st).1 !! streamCacheKey sid = None.
Proof.
  intros Hk. unfold EndStream. rewrite Hk.
  destruct (Send _ _ _ _) as [st1 r]. destruct r; simpl; apply lookup_delete_eq.
Qed.

Lemma EndStream_append_fails svc env sid finalText errorMsg st info :
  kv st !! streamCacheKey sid = Some (VStream info) ->
  env_append_fails env = true ->
  (EndStream svc env sid finalText errorMsg st).2 = Some ErrAppend
  /\ messages (EndStream svc env sid finalText errorMsg st).1 = messages st.
Proof.
  intros Hk Hf. unfold EndStream. rewrite Hk.
  assert (Hsend : forall req, shouldStore req = true -> Send svc env req st = (st, inl ErrAppend)).
  { intros req Hs. unfold Send. by rewrite Hs, Hf. }
  rewrite Hsend; [done|].
  unfold shouldStore, stream_request. simpl. destruct (bool_decide (errorMsg = "")); reflexivity.
Qed.

Lemma kv_publish_mentions userID convType p sq st :
  kv (ws.publish_mentions userID convType p sq st) = kv st.
Proof.
  unfold ws.publish_mentions. case_match; [|done].
  generalize (ws.pMentions p) as l. intros l. revert st.
  induction l as [|uid l IH]; intros st; [done|].
  simpl. rewrite IH. by case_match.
Qed.

Lemma kv_publish_recalled msg convID sq st :
  kv (ws.publish_recalled msg convID sq st) = kv st.
Proof. unfold ws.publish_recalled. by repeat case_match. Qed.

Lemma kv_handle_read s env userID convID sq st sid :
  kv (ws.handle_read s env userID convID sq st).1 !! streamCacheKey sid
  = kv st !! streamCacheKey sid.
Proof.
  unfold ws.handle_read. simpl.
  assert (Hst1 : kv (if ws.Receipt s
                     then with_kv (fun m => <[ReceiptStore.readSeqCacheKey userID convID := VInt sq]> m)
                            (ReceiptStore.UpsertReadSeq userID convID sq st)
                     else st) !! streamCacheKey sid = kv st !! streamCacheKey sid).
  { case_match; [|done]. simpl. apply lookup_insert_ne, streamCacheKey_readSeq. }
  repeat case_match; rewrite ?kv_publish_recalled; simpl; done.
Qed.

Lemma kv_handle_send s env userID p st sid :
  kv (ws.handle_send s env userID p st).1 !! streamCacheKey sid = kv st !! streamCacheKey sid.
Proof.
  unfold ws.handle_send. case_match; [done|]. case_match; [done|].
  destruct (Send _ _ _ _) as [st1 r] eqn:ES.
  assert (Hst1 : kv st1 !! streamCacheKey sid = kv st !! streamCacheKey sid).
  { change st1 with (st1, r).1. by rewrite <- ES, kv_Send_stream. }
  destruct r; simpl; rewrite ?kv_publish_mentions; done.
Qed.

(** A handled frame does not bring back the state of a finished stream,
    unless it is a [start_stream] that draws the very same stream id. *)
Lemma inbound_step_absent s st i sid :
  (forall p, in_action i = ws.AStartStream p -> env_uuid (in_envStream i) <> sid) ->
  kv st !! streamCacheKey sid = None ->
  kv (inbound_step s st i) !! streamCacheKey sid = None.
Proof.
  intros Hfresh Habs. unfold inbound_step, ws.handleInbound.
  destruct (in_action i) as [p|c m|c q|p|sid' delta md|sid' ft em|] eqn:Ea.
  - by rewrite kv_handle_send.
  - done.
  - by rewrite kv_handle_read.
  - case_match; [done|]. case_match; [done|].
    destruct (StartStream _ _ _ _ _) as [st1 r] eqn:ES.
    assert (Hst1 : kv st1 !! streamCacheKey sid = None).
    { change st1 with (st1, r).1. rewrite <- ES, kv_StartStream; [done|]. by apply (Hfresh p). }
    by destruct r.
  - destruct (SendStreamChunk _ _ _ _ _ _) as [st1 r] eqn:ES.
    assert (Hst1 : kv st1 !! streamCacheKey sid = None).
    { change st1 with (st1, r).1. rewrite <- ES. by apply kv_SendStreamChunk. }
    by destruct r.
  - destruct (EndStream _ _ _ _ _ _) as [st1 r] eqn:ES.
    assert (Hst1 : kv st1 !! streamCacheKey sid = None).
    { change st1 with (st1, r).1. rewrite <- ES. by apply kv_EndStream. }
    by destruct r.
  - done.
Qed.

Lemma inbound_run_absent s l st sid :
  Forall (fun i => forall p, in_action i = ws.AStartStream p -> env_uuid (in_envStream i) <> sid) l ->
  kv st !! streamCacheKey sid = None ->
  kv (inbound_run s st l) !! streamCacheKey sid = None.
Proof.
  unfold inbound_run. revert st. induction l as [|i l IH]; intros st Hf Habs; [done|].
  apply Forall_cons in Hf as [Hi Hl]. simpl. apply IH; [done|].
  by apply inbound_step_absent.
Qed.

(** C10.  [EndStream] on a known stream id destroys the cached stream state
    whatever happens to the final record: also when [Append] fails, in which
    case the error is returned and nothing is persisted.  After it, and after
    any further frames handled by the gateway (none of them a [start_stream]
    drawing the same id again), every [SendStreamChunk] and [EndStream] for
    that id fails with "stream not found" and changes nothing; the gateway
    answers the chunk with STREAM_ERROR and the retry of [end_stream] with
    no frame. *)
Theorem end_stream_destroys_state (s : ws.Server) (env : Env) (sid finalText errorMsg : string)
  (st : State) (info : StreamInfo) (later : list Inbound) :
  kv st !! streamCacheKey sid = Some (VStream info) ->
  Forall (fun i => forall p, in_action i = ws.AStartStream p -> env_uuid (in_envStream i) <> sid)
         later ->
  let st1 := (EndStream (ws.MsgSvc s) env sid finalText errorMsg st).1 in
  let st2 := inbound_run s st1 later in
  kv st1 !! streamCacheKey sid = None
  /\ (env_append_fails env = true ->
      (EndStream (ws.MsgSvc s) env sid finalText errorMsg st).2 = Some ErrAppend
      /\ messages st1 = messages st)
  /\ (forall env' delta metadata,
        SendStreamChunk (ws.MsgSvc s) env' sid delta metadata st2
        = (st2, Some (ErrStreamNotFound sid)))
  /\ (forall env' finalText' errorMsg',
        EndStream (ws.MsgSvc s) env' sid finalText' errorMsg' st2
        = (st2, Some (ErrStreamNotFound sid)))
  /\ (forall envStream env' user delta metadata,
        ws.handleInbound s envStream env' user (ws.AStreamChunk sid delta metadata) st2
        = (st2, [FError "STREAM_ERROR" ("stream not found: " +:+ sid)]))
  /\ (forall envStream env' user finalText' errorMsg',
        ws.handleInbound s envStream env' user (ws.AEndStream sid finalText' errorMsg') st2
        = (st2, [])).
Proof.
  intros Hk Hlater st1 st2.
  assert (H1 : kv st1 !! streamCacheKey sid = None) by by eapply kv_EndStream_known.
  assert (H2 : kv st2 !! streamCacheKey sid = None) by by apply inbound_run_absent.
  split; [done|]. split; [intros Hf; by eapply EndStream_append_fails|].
  split; [intros; by apply SendStreamChunk_not_found|].
  split; [intros; by apply EndStream_not_found|].
  split.
  - intros. simpl. by rewrite SendStreamChunk_not_found.
  - intros. simpl. by rewrite EndStream_not_found.
Qed.

(** C10, witness: ending stream [st-1] while the store refuses the final
    record; a later chunk and a retried end both find no stream. *)
Lemma end_stream_destroys_state_witness :
  let st1 := (EndStream (ws.MsgSvc gateway) (env_failing "id-9" 500 500) "st-1" "abcd" ""
                started_stream).1 in
  (EndStream (ws.MsgSvc gateway) (env_failing "id-9" 500 500) "st-1" "abcd" "" started_stream).2
  = Some ErrAppend
  /\ messages st1 = []
  /\ SendStreamChunk (ws.MsgSvc gateway) (env_at "id-10" 600 600) "st-1" "e" "" st1
     = (st1, Some (ErrStreamNotFound "st-1"))
  /\ EndStream (ws.MsgSvc gateway) (env_at "id-11" 700 700) "st-1" "abcd" "" st1
     = (st1, Some (ErrStreamNotFound "st-1")).
Proof.
  destruct (end_stream_destroys_state gateway (env_failing "id-9" 500 500) "st-1" "abcd" ""
              started_stream (mkStreamInfo "c1" ConversationTypeC2C "alice" "bob" "" 0 1) [])
    as (_ & Hfail & Hchunk & Hend & _).
  - reflexivity.
  - constructor.
  - destruct Hfail as [Hr Hm]; [reflexivity|].
    split; [exact Hr|]. split; [exact Hm|].
    split; [apply Hchunk | apply Hend].
Defined.

End stream_state.


(** ** Persistence by stream status *)

Section stream_persistence.

Import MessageStore services.


Lemma published_notify_group svc env req st :
  published (notify_group svc env req st) = published st.
Proof. unfold notify_group. by repeat case_match. Qed.

Lemma published_update_index svc env req msg st :
  published (update_index svc env req msg st) = published st.
Proof. unfold update_index. repeat case_match; rewrite ?published_notify_group; done. Qed.

Lemma published_publish_deliver req d st :
  published (publish_deliver req d st) = published st ++ delivery_frames req d.
Proof.
  unfold publish_deliver, delivery_frames. case_match; simpl; [|done].
  by rewrite <- app_assoc.
Qed.

(** [Send] publishes exactly when it acknowledges. *)
Lemma published_Send svc env req st :
  published (Send svc env req st).1
  = match (Send svc env req st).2 with
    | inr d => published st ++ delivery_frames req d
    | inl _ => published st
    end.
Proof.
  unfold Send. repeat case_match; simpl in *; simplify_eq;
    rewrite ?published_publish_deliver, ?published_update_index; done.
Qed.

Lemma chunk_not_stored info streamID delta metadata :
  shouldStore (chunk_request info streamID delta metadata) = false.
Proof. reflexivity. Qed.

(** A chunk never reaches the log. *)
Lemma messages_SendStreamChunk svc env streamID delta metadata st :
  messages (SendStreamChunk svc env streamID delta metadata st).1 = messages st.
Proof.
  unfold SendStreamChunk.
  destruct (kv st !! streamCacheKey streamID) as [[n|info]|]; simpl; try done.
  fold (chunk_request info streamID delta metadata).
  destruct (Send _ _ _ _) as [st2 r] eqn:ES.
  assert (Hm : messages st2 = messages st).
  { change st2 with (st2, r).1. rewrite <- ES, Send_messages.
    by rewrite chunk_not_stored. }
  by destruct r.
Qed.

(** A chunk that is accepted is published for live delivery. *)
Lemma published_SendStreamChunk svc env streamID delta metadata st info :
  kv st !! streamCacheKey streamID = Some (VStream info) ->
  (SendStreamChunk svc env streamID delta metadata st).2 = None ->
  published (SendStreamChunk svc env streamID delta metadata st).1
  = published st
    ++ delivery_frames (chunk_request info streamID delta metadata)
         (deliver_of (new_message env (chunk_request info streamID delta metadata))).
Proof.
  intros Hk. unfold SendStreamChunk. rewrite Hk.
  fold (chunk_request info streamID delta metadata).
  destruct (Send _ _ _ _) as [st2 r] eqn:ES.
  pose proof (published_Send svc env (chunk_request info streamID delta metadata)
                (with_kv (fun m => <[streamCacheKey streamID :=
                                       VStream (with_seq info (si_seq info + 1))]> m) st)) as Hp.
  pose proof (Send_ack svc env (chunk_request info streamID delta metadata)
                (with_kv (fun m => <[streamCacheKey streamID :=
                                       VStream (with_seq info (si_seq info + 1))]> m) st)) as Ha.
  rewrite ES in Hp, Ha. simpl in Hp, Ha.
  destruct r as [e|d]; simpl; [done|]. intros _.
  rewrite Hp. by rewrite (Ha d eq_refl).
Qed.

Lemma kv_SendStreamChunk_known svc env streamID delta metadata st info :
  kv st !! streamCacheKey streamID = Some (VStream info) ->
  kv (SendStreamChunk svc env streamID delta metadata st).1 !! streamCacheKey streamID
  = Some (VStream (with_seq info (si_seq info + 1))).
Proof.
  intros Hk. unfold SendStreamChunk. rewrite Hk.
  destruct (Send _ _ _ _) as [st2 r] eqn:ES.
  assert (Hkv : kv st2 !! streamCacheKey streamID
                = Some (VStream (with_seq info (si_seq info + 1)))).
  { change st2 with (st2, r).1. rewrite <- ES, kv_Send_stream. simpl.
    apply lookup_insert_eq. }
  by destruct r.
Qed.

(** Chunks leave the log alone and only advance the cached stream seq. *)
Lemma send_chunks_state svc streamID chunks st info :
  kv st !! streamCacheKey streamID = Some (VStream info) ->
  messages (send_chunks svc streamID chunks st) = messages st
  /\ kv (send_chunks svc streamID chunks st) !! streamCacheKey streamID
     = Some (VStream (with_seq info (si_seq info + Z.of_nat (length chunks)))).
Proof.
  unfold send_chunks. revert st info.
  induction chunks as [|[[env delta] metadata] chunks IH]; intros st info Hk.
  - simpl. split; [done|]. rewrite Hk. do 2 f_equal. destruct info. unfold with_seq. simpl.
    f_equal. lia.
  - simpl foldl.
    pose proof (kv_SendStreamChunk_known svc env streamID delta metadata st info Hk) as Hk1.
    destruct (IH _ _ Hk1) as [Hm Hkv]. split.
    + rewrite Hm. apply messages_SendStreamChunk.
    + rewrite Hkv. do 2 f_equal. unfold with_seq. simpl. f_equal. lia.
Qed.

Lemma StartStream_state svc envStream envStart req st :
  messages (StartStream svc envStream envStart req st).1
  = (if negb (env_append_fails envStart)
     then Append (messages st) (stream_start_message envStream envStart req)
     else messages st)
  /\ kv (StartStream svc envStream envStart req st).1 !! streamCacheKey (env_uuid envStream)
     = Some (VStream (session_info envStream req 0)).
Proof.
  unfold StartStream. split.
  - rewrite Send_messages. simpl. done.
  - rewrite kv_Send_stream. simpl. apply lookup_insert_eq.
Qed.





End stream_persistence.


(** * Further properties of the code *)

(** ** The gateway and the log *)

Section gateway_log.

Import MessageStore services.

Lemma Send_log_step svc env req st : log_step (messages st) (messages (Send svc env req st).1).
Proof. rewrite Send_messages. case_match; constructor. Qed.

Lemma messages_publish_mentions userID convType p sq st :
  messages (ws.publish_mentions userID convType p sq st) = messages st.
Proof.
  unfold ws.publish_mentions. case_match; [|done].
  generalize (ws.pMentions p) as l. intros l. revert st.
  induction l as [|uid l IH]; intros st; [done|].
  simpl. rewrite IH. by case_match.
Qed.

Lemma messages_publish_recalled msg convID sq st :
  messages (ws.publish_recalled msg convID sq st) = messages st.
Proof. unfold ws.publish_recalled. by repeat case_match. Qed.

Lemma handle_send_log_step s env userID p st :
  log_step (messages st) (messages (ws.handle_send s env userID p st).1).
Proof.
  unfold ws.handle_send. case_match; [constructor|]. case_match; [constructor|].
  pose proof (Send_log_step (ws.MsgSvc s) env
                (ws.send_request userID (ToConvType (ws.pConvType p)) p) st) as Hs.
  destruct (Send _ _ _ _) as [st1 r]. destruct r; simpl in *;
    rewrite ?messages_publish_mentions; done.
Qed.

Lemma handle_read_messages s env userID convID sq st :
  messages (ws.handle_read s env userID convID sq st).1 = messages st
  \/ messages (ws.handle_read s env userID convID sq st).1
     = RecallBySeq (messages st) convID sq.
Proof.
  unfold ws.handle_read. simpl.
  repeat case_match; simpl; rewrite ?messages_publish_recalled; simpl; auto.
Qed.

Lemma handle_read_log_step s env userID convID sq st :
  log_step (messages st) (messages (ws.handle_read s env userID convID sq st).1).
Proof. destruct (handle_read_messages s env userID convID sq st) as [-> | ->]; constructor. Qed.

Lemma StartStream_log_step svc envStream env req st :
  log_step (messages st) (messages (StartStream svc envStream env req st).1).
Proof.
  unfold StartStream.
  pose proof (Send_log_step svc env (start_request (env_uuid envStream) req)
    (with_kv (fun m => <[streamCacheKey (env_uuid envStream) :=
       VStream (mkStreamInfo (rConvID (start_request (env_uuid envStream) req))
                  (rConvType (start_request (env_uuid envStream) req))
                  (rFrom (start_request (env_uuid envStream) req))
                  (rTo (start_request (env_uuid envStream) req))
                  (rGroupID (start_request (env_uuid envStream) req))
                  (UnixMilli (env_now envStream)) 1)]> m) st)) as Hs.
  exact Hs.
Qed.

Lemma EndStream_log_step svc env streamID finalText errorMsg st :
  log_step (messages st) (messages (EndStream svc env streamID finalText errorMsg st).1).
Proof.
  unfold EndStream.
  destruct (kv st !! streamCacheKey streamID) as [[n|info]|]; simpl; try constructor.
  match goal with |- context [Send ?a ?b ?c ?d] => pose proof (Send_log_step a b c d) as Hs end.
  destruct (Send _ _ _ _) as [st1 r]. by destruct r.
Qed.

(** Every handled frame changes the log by at most one [log_step]. *)
Lemma inbound_step_log_step s st i :
  log_step (messages st) (messages (inbound_step s st i)).
Proof.
  unfold inbound_step, ws.handleInbound.
  destruct (in_action i) as [p|c m|c q|p|sid delta md|sid ft em|].
  - apply handle_send_log_step.
  - simpl. constructor.
  - apply handle_read_log_step.
  - case_match; [constructor|]. case_match; [constructor|].
    match goal with |- context [StartStream ?a ?b ?c ?d ?e] =>
      pose proof (StartStream_log_step a b c d e) as Hs end.
    destruct (StartStream _ _ _ _ _) as [st1 r]. by destruct r.
  - pose proof (messages_SendStreamChunk (ws.MsgSvc s) (in_env i) sid delta md st) as Hm.
    destruct (SendStreamChunk _ _ _ _ _ _) as [st1 r]. simpl in Hm.
    destruct r; simpl; rewrite Hm; constructor.
  - pose proof (EndStream_log_step (ws.MsgSvc s) (in_env i) sid ft em st) as Hs.
    destruct (EndStream _ _ _ _ _ _) as [st1 r]. by destruct r.
  - constructor.
Qed.

(** An invariant of the log that every [log_step] keeps holds after any run
    of frames. *)
Lemma inbound_run_invariant (P : list Message -> Prop) s l st :
  (forall tbl tbl', log_step tbl tbl' -> P tbl -> P tbl') ->
  P (messages st) -> P (messages (inbound_run s st l)).
Proof.
  intros Hstep. unfold inbound_run. revert st.
  induction l as [|i l IH]; intros st HP; [done|].
  simpl. apply IH. eapply Hstep; [apply inbound_step_log_step|done].
Qed.

Lemma set_recalled_idem r : set_recalled (set_recalled r) = set_recalled r.
Proof. reflexivity. Qed.

Lemma same_or_recalled_step r k (b : bool) :
  same_or_recalled r k -> same_or_recalled r (if b then set_recalled k else k).
Proof.
  intros [-> | ->]; destruct b; unfold same_or_recalled; rewrite ?set_recalled_idem; auto.
Qed.

Lemma Forall2_same_or_recalled_map tbl0 kept (f : Message -> bool) :
  Forall2 same_or_recalled tbl0 kept ->
  Forall2 same_or_recalled tbl0 (map (fun r => if f r then set_recalled r else r) kept).
Proof.
  induction 1 as [|r k tbl0 kept Hrk _ IH]; simpl; constructor; [|done].
  by apply same_or_recalled_step.
Qed.

Lemma log_step_keeps_records tbl0 tbl tbl' :
  log_step tbl tbl' ->
  (exists kept added, tbl = kept ++ added /\ Forall2 same_or_recalled tbl0 kept) ->
  exists kept added, tbl' = kept ++ added /\ Forall2 same_or_recalled tbl0 kept.
Proof.
  intros Hstep (kept & added & -> & Hk). inversion Hstep as [t|t m|t c sid|t c q]; subst.
  - by exists kept, added.
  - unfold Append. case_match; [by exists kept, added|].
    exists kept, (added ++ [row_of m]). split; [by rewrite app_assoc|done].
  - unfold MessageStore.Recall. rewrite map_app. eexists _, _. split; [done|].
    by apply (Forall2_same_or_recalled_map _ _
                (fun r => bool_decide (ConvID r = c) && bool_decide (ServerMsgID r = sid))).
  - unfold RecallBySeq. rewrite map_app. eexists _, _. split; [done|].
    by apply (Forall2_same_or_recalled_map _ _
                (fun r => bool_decide (ConvID r = c) && bool_decide (Seq r = q) && BurnAfterRead r)).
Qed.

(** X1.  Whatever frames the gateway handles, the message log afterwards is
    the old log, record by record in the same order, each record either
    untouched or changed only by [recalled] having become true, followed by
    the records added since: nothing is deleted or reordered, [recalled] is
    never cleared, and no other field of a stored record changes. *)
Theorem log_records_only_gain_recalled (s : ws.Server) (frames : list Inbound) (st : State) :
  exists kept added,
    messages (inbound_run s st frames) = kept ++ added
    /\ Forall2 same_or_recalled (messages st) kept.
Proof.
  apply (inbound_run_invariant
           (fun tbl => exists kept added, tbl = kept ++ added
                                          /\ Forall2 same_or_recalled (messages st) kept)).
  - intros tbl tbl'. apply log_step_keeps_records.
  - exists (messages st), []. split; [by rewrite app_nil_r|].
    apply Forall2_same_length_lookup_2; [done|]. intros i x y Hx Hy. left. congruence.
Qed.

Lemma map_key_recall {K} (key : Message -> K) (f : Message -> bool) tbl :
  (forall r, key (set_recalled r) = key r) ->
  map key (map (fun r => if f r then set_recalled r else r) tbl) = map key tbl.
Proof.
  intros Hkey. rewrite map_map. apply map_ext. intros r. by destruct (f r).
Qed.

Lemma Append_uniq_server_id tbl m : uniq_server_id tbl -> uniq_server_id (Append tbl m).
Proof.
  unfold Append, uniq_server_id. intros Hnd.
  destruct (has_conflict tbl m) eqn:E; [done|].
  rewrite map_app. apply NoDup_app. split; [done|]. split; [|apply NoDup_singleton].
  intros k Hk Hk'. simpl in Hk'. apply list_elem_of_singleton in Hk'. subst k.
  apply list_elem_of_fmap in Hk as (r & Hr & Hin).
  rewrite has_conflict_false in E. destruct (E r Hin) as [Hne _]. simpl in Hr. congruence.
Qed.

Lemma log_step_keeps_keys tbl tbl' :
  log_step tbl tbl' ->
  uniq_conv_client tbl /\ uniq_server_id tbl ->
  uniq_conv_client tbl' /\ uniq_server_id tbl'.
Proof.
  intros Hstep [Hc Hs]. inversion Hstep as [t|t m|t c sid|t c q]; subst.
  - done.
  - split; [by apply Append_uniq_conv_client | by apply Append_uniq_server_id].
  - unfold uniq_conv_client, uniq_server_id, MessageStore.Recall. by rewrite !map_key_recall.
  - unfold uniq_conv_client, uniq_server_id, RecallBySeq. by rewrite !map_key_recall.
Qed.

(** X2.  The two keys of the [messages] table are invariants of the gateway:
    if no two records share [(convId, clientMsgId)] and no two share
    [serverMsgId], the same holds after any run of inbound frames (sends,
    retries, stream actions, reads, recalls). *)
Theorem log_keys_stay_unique (s : ws.Server) (frames : list Inbound) (st : State) :
  uniq_conv_client (messages st) -> uniq_server_id (messages st) ->
  uniq_conv_client (messages (inbound_run s st frames))
  /\ uniq_server_id (messages (inbound_run s st frames)).
Proof.
  intros Hc Hs.
  apply (inbound_run_invariant (fun tbl => uniq_conv_client tbl /\ uniq_server_id tbl)); [|done].
  intros tbl tbl'. apply log_step_keeps_keys.
Qed.

(** X2, witness: the short session on the empty store, where the retry is
    swallowed by the unique key. *)
Lemma log_keys_stay_unique_witness :
  map client_key (messages (inbound_run gateway empty_state short_session))
  = [("c2c:alice:bob", "cm-1")]
  /\ uniq_conv_client (messages (inbound_run gateway empty_state short_session))
  /\ uniq_server_id (messages (inbound_run gateway empty_state short_session)).
Proof.
  split; [reflexivity|].
  apply (log_keys_stay_unique gateway short_session empty_state); constructor.
Defined.

End gateway_log.


(** ** Outcomes of a send at the gateway *)

Section send_outcomes.

Import MessageStore services.


(** X4.  An accepted one-to-one send is delivered as it is acknowledged:
    the ack and the two publishes, to the recipient's channel and to the
    sender's own channel, carry the same [Deliver], whose serverMsgId, seq,
    sender and payload are those of this submission; the log receives the
    message through the idempotent append. *)
Theorem c2c_send_ack_matches_delivery (s : ws.Server) (env : Env) (userID : string)
  (p : ws.SendPayload) (st : State) :
  ws.rateLimitAllow s env = true ->
  ws.permission_denied s userID ConversationTypeC2C p = None ->
  ws.pConvType p <> ConversationTypeGroup ->
  env_append_fails env = false ->
  exists d,
    ws.handle_send s env userID p st
    = ((ws.handle_send s env userID p st).1, [FAck d])
    /\ published (ws.handle_send s env userID p st).1
       = published st ++ [(cache.DeliverChannel (ws.pTo p), FDeliver d);
                          (cache.DeliverChannel userID, FDeliver d)]
    /\ messages (ws.handle_send s env userID p st).1
       = Append (messages st) (new_message env (ws.send_request userID ConversationTypeC2C p))
    /\ dServerMsgID d = env_uuid env /\ dSeq d = env_nano env
    /\ dFrom d = userID /\ dTo d = ws.pTo p
    /\ dClientMsgID d = ws.pClientID p /\ dPayload d = ws.pPayload p.
Proof.
  intros Hr Hp Hc Hf.
  assert (Hct : ToConvType (ws.pConvType p) = ConversationTypeC2C).
  { unfold ToConvType. by rewrite bool_decide_eq_false_2. }
  set (req := ws.send_request userID ConversationTypeC2C p).
  exists (deliver_of (new_message env req)).
  unfold ws.handle_send. rewrite Hr, Hct, Hp. simpl negb. cbv iota. fold req.
  pose proof (Send_c2c_ack (ws.MsgSvc s) env req st eq_refl Hf) as Hack.
  pose proof (published_Send (ws.MsgSvc s) env req st) as Hpub.
  pose proof (Send_messages (ws.MsgSvc s) env req st) as Hmsg.
  destruct (Send (ws.MsgSvc s) env req st) as [st1 r]. simpl in Hack, Hpub, Hmsg. subst r.
  simpl. unfold ws.publish_mentions. simpl.
  split; [done|]. split; [by rewrite Hpub|]. split; [|done].
  rewrite Hmsg, Hf. reflexivity.
Qed.

(** X4, witness: alice's hello to bob on the empty store. *)
Lemma c2c_send_ack_matches_delivery_witness :
  exists d,
    (ws.handle_send gateway (env_at "id-1" 100 100) "alice" hello_payload empty_state).2
    = [FAck d]
    /\ published (ws.handle_send gateway (env_at "id-1" 100 100) "alice" hello_payload
                    empty_state).1
       = [("im:deliver:bob", FDeliver d); ("im:deliver:alice", FDeliver d)]
    /\ dSeq d = 100.
Proof.
  destruct (c2c_send_ack_matches_delivery gateway (env_at "id-1" 100 100) "alice" hello_payload
              empty_state) as (d & Hf & Hpub & _ & _ & Hseq & _).
  - reflexivity.
  - reflexivity.
  - discriminate.
  - reflexivity.
  - exists d. split; [by rewrite Hf|]. split; [exact Hpub|exact Hseq].
Defined.

End send_outcomes.

(** ** Burn-after-read over several reads *)

Section burn_once.

Import MessageStore.

Lemma published_publish_recalled msg convID sq st :
  published (ws.publish_recalled msg convID sq st)
  = published st ++ recalled_frames msg convID sq.
Proof.
  unfold ws.publish_recalled, recalled_frames.
  repeat case_match; simpl; rewrite ?app_nil_r, <- ?app_assoc; done.
Qed.

(** What one read does to the log and to the published frames. *)
Lemma handle_read_effect s env userID convID sq st :
  (messages (ws.handle_read s env userID convID sq st).1 = messages st
   /\ published (ws.handle_read s env userID convID sq st).1 = published st)
  \/ (exists msg, GetBySeq (messages st) convID sq = Some msg
                  /\ BurnAfterRead msg = true /\ Recalled msg = false
                  /\ messages (ws.handle_read s env userID convID sq st).1
                     = RecallBySeq (messages st) convID sq
                  /\ published (ws.handle_read s env userID convID sq st).1
                     = published st ++ recalled_frames msg convID sq).
Proof.
  unfold ws.handle_read. simpl.
  assert (Hst1 : forall st1 : State, messages st1 = messages st -> published st1 = published st ->
    (messages (if env_get_fails env then st1
               else match GetBySeq (messages st1) convID sq with
                    | Some msg =>
                        if BurnAfterRead msg && negb (Recalled msg)
                        then if env_recall_fails env then st1
                             else ws.publish_recalled msg convID sq
                                    (with_messages (fun tbl => RecallBySeq tbl convID sq) st1)
                        else st1
                    | None => st1
                    end) = messages st
     /\ published (if env_get_fails env then st1
               else match GetBySeq (messages st1) convID sq with
                    | Some msg =>
                        if BurnAfterRead msg && negb (Recalled msg)
                        then if env_recall_fails env then st1
                             else ws.publish_recalled msg convID sq
                                    (with_messages (fun tbl => RecallBySeq tbl convID sq) st1)
                        else st1
                    | None => st1
                    end) = published st)
    \/ (exists msg, GetBySeq (messages st) convID sq = Some msg
                  /\ BurnAfterRead msg = true /\ Recalled msg = false
                  /\ messages (if env_get_fails env then st1
               else match GetBySeq (messages st1) convID sq with
                    | Some msg =>
                        if BurnAfterRead msg && negb (Recalled msg)
                        then if env_recall_fails env then st1
                             else ws.publish_recalled msg convID sq
                                    (with_messages (fun tbl => RecallBySeq tbl convID sq) st1)
                        else st1
                    | None => st1
                    end) = RecallBySeq (messages st) convID sq
                  /\ published (if env_get_fails env then st1
               else match GetBySeq (messages st1) convID sq with
                    | Some msg =>
                        if BurnAfterRead msg && negb (Recalled msg)
                        then if env_recall_fails env then st1
                             else ws.publish_recalled msg convID sq
                                    (with_messages (fun tbl => RecallBySeq tbl convID sq) st1)
                        else st1
                    | None => st1
                    end) = published st ++ recalled_frames msg convID sq)).
  { intros st1 Hm Hp. destruct (env_get_fails env); [by left|].
    rewrite Hm. destruct (GetBySeq (messages st) convID sq) as [msg|] eqn:Hg; [|by left].
    destruct (BurnAfterRead msg) eqn:Hb; simpl; [|by left].
    destruct (Recalled msg) eqn:Hrec; simpl; [by left|].
    destruct (env_recall_fails env); [by left|].
    right. exists msg. rewrite messages_publish_recalled, published_publish_recalled. simpl.
    by rewrite Hm, Hp. }
  apply Hst1; by destruct (ws.Receipt s).
Qed.

Lemma GetBySeq_RecallBySeq tbl convID sq msg :
  GetBySeq tbl convID sq = Some msg -> BurnAfterRead msg = true ->
  GetBySeq (RecallBySeq tbl convID sq) convID sq = Some (set_recalled msg).
Proof.
  unfold GetBySeq, RecallBySeq. induction tbl as [|r tbl IH]; simpl; [done|].
  destruct (bool_decide (ConvID r = convID) && bool_decide (Seq r = sq)) eqn:E.
  - intros [= ->] Hb. rewrite Hb. simpl. by rewrite E.
  - intros Hf Hb. simpl. rewrite E. by apply IH.
Qed.

(** Once the first record at [(convID, sq)] does not ask for burning, or is
    already recalled, reads change neither the log nor the published frames. *)
Lemma read_run_quiet s convID sq reads st :
  (forall msg, GetBySeq (messages st) convID sq = Some msg ->
               BurnAfterRead msg && negb (Recalled msg) = false) ->
  messages (read_run s convID sq reads st) = messages st
  /\ published (read_run s convID sq reads st) = published st.
Proof.
  revert st. induction reads as [|[env u] reads IH]; intros st Hq; [done|].
  change (read_run s convID sq ((env, u) :: reads) st)
    with (read_run s convID sq reads (ws.handle_read s env u convID sq st).1).
  destruct (handle_read_effect s env u convID sq st) as [[Hm Hp]|(msg & Hg & Hb & Hr & _)].
  - destruct (IH (ws.handle_read s env u convID sq st).1) as [Hm' Hp'].
    + by rewrite Hm.
    + by rewrite Hm', Hp', Hm, Hp.
  - specialize (Hq msg Hg). by rewrite Hb, Hr in Hq.
Qed.

Lemma RecallBySeq_burnt_by_read tbl convID sq :
  Forall2 (burnt_by_read convID sq) tbl (RecallBySeq tbl convID sq).
Proof.
  unfold RecallBySeq. induction tbl as [|r tbl IH]; simpl; constructor; [|done].
  destruct (bool_decide (ConvID r = convID) && bool_decide (Seq r = sq) && BurnAfterRead r) eqn:E.
  - right. rewrite !andb_true_iff, !bool_decide_eq_true in E. tauto.
  - by left.
Qed.

Lemma Forall2_burnt_refl convID sq tbl : Forall2 (burnt_by_read convID sq) tbl tbl.
Proof. induction tbl; constructor; [by left|done]. Qed.

Lemma read_run_effect s convID sq reads st :
  (messages (read_run s convID sq reads st) = messages st
   /\ published (read_run s convID sq reads st) = published st)
  \/ (exists msg, GetBySeq (messages st) convID sq = Some msg
                  /\ BurnAfterRead msg = true /\ Recalled msg = false
                  /\ messages (read_run s convID sq reads st)
                     = RecallBySeq (messages st) convID sq
                  /\ published (read_run s convID sq reads st)
                     = published st ++ recalled_frames msg convID sq).
Proof.
  revert st. induction reads as [|[env u] reads IH]; intros st; [by left|].
  change (read_run s convID sq ((env, u) :: reads) st)
    with (read_run s convID sq reads (ws.handle_read s env u convID sq st).1).
  destruct (handle_read_effect s env u convID sq st)
    as [[Hm Hp]|(msg & Hg & Hb & Hr & Hm & Hp)].
  - destruct (IH (ws.handle_read s env u convID sq st).1)
      as [[Hm' Hp']|(msg & Hg & Hb & Hr & Hm' & Hp')].
    + left. by rewrite Hm', Hp', Hm, Hp.
    + right. exists msg. rewrite Hm in Hg, Hm'. rewrite Hp in Hp'. done.
  - right. exists msg.
    destruct (read_run_quiet s convID sq reads (ws.handle_read s env u convID sq st).1)
      as [Hm' Hp'].
    + intros m Hgm. rewrite Hm, (GetBySeq_RecallBySeq _ _ _ _ Hg Hb) in Hgm.
      injection Hgm as <-. simpl. by rewrite andb_false_r.
    + rewrite Hm', Hp', Hm, Hp. done.
Qed.

(** X5.  However many times, and by whomever, one message [(convId, seq)] is
    read through the gateway, the burn-after-read event is published at most
    once: the frames published by the whole run are either none, or the
    [recalled] frames of a single event for the stored message, which asked
    for burning and was not yet recalled.  The log is changed by nothing but
    that flip: every record is left as it was, except burn-after-read
    records at [(convId, seq)], which gain the recalled flag. *)
Theorem burn_after_read_fires_once (s : ws.Server) (convID : string) (sq : Z)
  (reads : list (Env * string)) (st : State) :
  let st' := read_run s convID sq reads st in
  (published st' = published st
   \/ exists msg, GetBySeq (messages st) convID sq = Some msg
                  /\ BurnAfterRead msg = true /\ Recalled msg = false
                  /\ published st' = published st ++ recalled_frames msg convID sq)
  /\ Forall2 (burnt_by_read convID sq) (messages st) (messages st').
Proof.
  intros st'. unfold st'.
  destruct (read_run_effect s convID sq reads st)
    as [[Hm Hp]|(msg & Hg & Hb & Hr & Hm & Hp)].
  - split; [by left|]. rewrite Hm. apply Forall2_burnt_refl.
  - split; [right; by exists msg|]. rewrite Hm. apply RecallBySeq_burnt_by_read.
Qed.

End burn_once.

(** ** The expiry sweep *)

Section sweep.

Import MessageStore.

Lemma filter_filter_weaker {A} (f g : A -> bool) (l : list A) :
  (forall x, f x = true -> g x = true) ->
  List.filter f (List.filter g l) = List.filter f l.
Proof.
  intros Himp. induction l as [|x l IH]; simpl; [done|].
  destruct (g x) eqn:Hg; simpl.
  - destruct (f x); by rewrite IH.
  - destruct (f x) eqn:Hf; [|done]. apply Himp in Hf. congruence.
Qed.

(** X6.  The expiry sweep is invisible to readers: after
    [DeleteExpired(before)] with [before <= now], every history listing at
    [now] returns exactly what it returned before the sweep.  The sweep keeps
    a record exactly when it has no expiry or expires after [before], and
    keeps the survivors in their order. *)
Theorem sweep_invisible_to_history (tbl : list Message) (before now : Time)
  (convID : string) (fromSeq limit : Z) :
  before <= now ->
  List (DeleteExpired tbl before) convID fromSeq limit now = List tbl convID fromSeq limit now
  /\ DeleteExpired tbl before = List.filter (not_expired before) tbl
  /\ (forall r, r ∈ DeleteExpired tbl before
                <-> r ∈ tbl /\ forall t, ExpireAt r = Some t -> before < t).
Proof.
  intros Hle.
  assert (Hdel : DeleteExpired tbl before = List.filter (not_expired before) tbl).
  { unfold DeleteExpired, not_expired. apply filter_ext. intros r.
    destruct (ExpireAt r) as [t|]; [|done].
    repeat case_bool_decide; simpl; try done; lia. }
  split; [|split; [done|]].
  - unfold List. rewrite Hdel. f_equal. f_equal.
    apply filter_filter_weaker. intros r Hl.
    unfold listed in Hl. rewrite !andb_true_iff in Hl. destruct Hl as [_ Hne].
    unfold not_expired in *. destruct (ExpireAt r) as [t|]; [|done].
    apply bool_decide_eq_true in Hne. apply bool_decide_eq_true. lia.
  - intros r. rewrite Hdel, elem_of_filter_list. unfold not_expired.
    destruct (ExpireAt r) as [t|].
    + rewrite bool_decide_eq_true. split; intros [Hin Ht]; (split; [done|]).
      * by intros ? [= <-].
      * by apply Ht.
    + split; intros [Hin _]; (split; [done|]); done.
Qed.

(** X6, witness: sweeping the three-message log at time 100 and listing at
    time 100. *)
Lemma sweep_invisible_to_history_witness :
  map ServerMsgID (DeleteExpired expiring_log 100) = ["s1"; "s3"]
  /\ List (DeleteExpired expiring_log 100) "c1" 0 50 100 = List expiring_log "c1" 0 50 100.
Proof.
  split; [reflexivity|].
  apply (sweep_invisible_to_history expiring_log 100 100 "c1" 0 50). lia.
Defined.

End sweep.

(** ** Read receipts, continued *)

Section receipts_more.

Import ReceiptStore.

Lemma UpsertReadSeq_other u c sq st k :
  k <> (u, c) -> read_receipts (UpsertReadSeq u c sq st) !! k = read_receipts st !! k.
Proof.
  intros Hne. unfold UpsertReadSeq. simpl.
  destruct (read_receipts st !! (u, c)); by rewrite lookup_insert_ne.
Qed.

Lemma upsert_run_other u c sqs st k :
  k <> (u, c) -> read_receipts (upsert_run u c sqs st) !! k = read_receipts st !! k.
Proof.
  intros Hne. unfold upsert_run. revert st.
  induction sqs as [|x xs IH]; intros st; [done|].
  simpl. rewrite IH. by apply UpsertReadSeq_other.
Qed.

Lemma upsert_run_from u c sqs st v :
  read_receipts st !! (u, c) = Some v ->
  read_receipts (upsert_run u c sqs st) !! (u, c) = Some (foldl Z.max v sqs).
Proof.
  unfold upsert_run. revert st v. induction sqs as [|x xs IH]; intros st v Hv; [done|].
  simpl. apply IH. by rewrite UpsertReadSeq_lookup, Hv.
Qed.

(** X7.  Single read-receipt writes keep the maximum: after any run of
    [UpsertReadSeq] for one [(user, conv)] the stored value is the largest of
    the value stored before (if any) and all the values written, so a write
    at or below the stored value changes nothing; the receipts of every other
    [(user, conv)] are untouched. *)
Theorem read_receipt_is_max_of_writes (u c : string) (sqs : list Z) (st : State) :
  read_receipts (upsert_run u c sqs st) !! (u, c)
  = match read_receipts st !! (u, c), sqs with
    | Some old, _ => Some (foldl Z.max old sqs)
    | None, [] => None
    | None, x :: xs => Some (foldl Z.max x xs)
    end
  /\ (forall k, k <> (u, c) ->
        read_receipts (upsert_run u c sqs st) !! k = read_receipts st !! k)
  /\ (forall old x, read_receipts st !! (u, c) = Some old -> x <= old ->
        read_receipts (UpsertReadSeq u c x st) = read_receipts st).
Proof.
  split; [|split].
  - destruct (read_receipts st !! (u, c)) as [old|] eqn:Hold.
    + by apply upsert_run_from.
    + destruct sqs as [|x xs]; [done|].
      change (upsert_run u c (x :: xs) st) with (upsert_run u c xs (UpsertReadSeq u c x st)).
      apply upsert_run_from. by rewrite UpsertReadSeq_lookup, Hold.
  - intros k Hk. by apply upsert_run_other.
  - intros old x Hold Hle. by eapply UpsertReadSeq_noop.
Qed.

(** The chunks of a slice, put back together, are the slice. *)
Lemma chunks_of_concat fuel n (l : list string) :
  (0 < n)%nat -> (length l <= fuel)%nat -> concat (chunks_of fuel n l) = l.
Proof.
  intros Hn. revert l. induction fuel as [|fuel IH]; intros l Hlen.
  - destruct l; [done|simpl in Hlen; lia].
  - destruct l as [|x l]; [done|].
    change (chunks_of (S fuel) n (x :: l))
      with (take n (x :: l) :: chunks_of fuel n (drop n (x :: l))).
    simpl concat. rewrite IH; [apply take_drop|].
    rewrite length_drop. simpl in *. lia.
Qed.

Lemma chunks_of_bounded fuel n (l : list string) :
  Forall (fun ch => (length ch <= n)%nat) (chunks_of fuel n l).
Proof.
  revert l. induction fuel as [|fuel IH]; intros l; [constructor|].
  destruct l as [|x l]; [constructor|].
  change (chunks_of (S fuel) n (x :: l))
    with (take n (x :: l) :: chunks_of fuel n (drop n (x :: l))).
  constructor; [|apply IH]. rewrite length_take. lia.
Qed.

Lemma foldl_concat {A B} (f : A -> B -> A) (a : A) (ls : list (list B)) :
  foldl (fun s ch => foldl f s ch) a ls = foldl f a (concat ls).
Proof.
  revert a. induction ls as [|ch ls IH]; intros a; [done|].
  simpl. by rewrite foldl_app, IH.
Qed.

Lemma mark_one_lookup u lastSeqs st cid k :
  read_receipts (mark_one u lastSeqs st cid) !! k
  = if bool_decide (k = (u, cid)) && bool_decide (0 < default 0 (lastSeqs !! cid))
    then Some (default 0 (lastSeqs !! cid))
    else read_receipts st !! k.
Proof.
  unfold mark_one. case_bool_decide as Hs; simpl.
  - rewrite (bool_decide_eq_false_2 (0 < _)) by lia. by rewrite andb_false_r.
  - rewrite (bool_decide_eq_true_2 (0 < _)) by lia. rewrite andb_true_r.
    case_bool_decide as Hk; [subst k; apply lookup_insert_eq|].
    by rewrite lookup_insert_ne.
Qed.

Lemma MarkAllReadTx_lookup u convIDs lastSeqs st k :
  read_receipts (MarkAllReadTx u convIDs lastSeqs st) !! k
  = if bool_decide (k.1 = u) && bool_decide (k.2 ∈ convIDs)
       && bool_decide (0 < default 0 (lastSeqs !! k.2))
    then Some (default 0 (lastSeqs !! k.2))
    else read_receipts st !! k.
Proof.
  unfold MarkAllReadTx. revert st. induction convIDs as [|cid ids IH]; intros st.
  - simpl. by rewrite andb_false_r.
  - simpl. rewrite IH, mark_one_lookup. destruct k as [u' c]. simpl.
    destruct (decide (u' = u)) as [->|Hu].
    + rewrite (bool_decide_eq_true_2 (u = u)) by done. simpl.
      destruct (decide (c = cid)) as [->|Hc].
      * rewrite (bool_decide_eq_true_2 (cid ∈ cid :: ids)) by (by left).
        rewrite (bool_decide_eq_true_2 ((u, cid) = (u, cid))) by done. simpl.
        by destruct (bool_decide (cid ∈ ids)), (bool_decide (0 < default 0 (lastSeqs !! cid))).
      * rewrite (bool_decide_eq_false_2 ((u, c) = (u, cid))) by congruence. simpl.
        assert (Hin : bool_decide (c ∈ cid :: ids) = bool_decide (c ∈ ids)).
        { apply bool_decide_ext. rewrite elem_of_cons. tauto. }
        by rewrite Hin.
    + rewrite (bool_decide_eq_false_2 (u' = u)) by done. simpl.
      rewrite (bool_decide_eq_false_2 ((u', c) = (u, cid))) by congruence. done.
Qed.

(** X8.  Mark-all-read in chunks is the single transaction cut in pieces:
    for any chunk size the chunks are exactly the slices of the conversation
    list in order (none longer than the chunk size, 200 when the setting is
    not positive), and running them one after the other leaves the state the
    one transaction over the whole list leaves.  Afterwards the stored read
    seq of the user is the given last seq for every listed conversation whose
    last seq is positive; conversations with no positive last seq, and all
    other users, keep what they had. *)
Theorem mark_all_read_chunks_transparent (u : string) (convIDs : list string)
  (lastSeqs : gmap string Z) (chunkSize : Z) (st : State) :
  let size := Z.to_nat (if bool_decide (chunkSize <= 0) then 200 else chunkSize) in
  concat (chunks_of (length convIDs) size convIDs) = convIDs
  /\ Forall (fun ch => (length ch <= size)%nat) (chunks_of (length convIDs) size convIDs)
  /\ MarkAllReadInChunks u convIDs lastSeqs chunkSize st = MarkAllReadTx u convIDs lastSeqs st
  /\ forall u' c,
       read_receipts (MarkAllReadInChunks u convIDs lastSeqs chunkSize st) !! (u', c)
       = if bool_decide (u' = u) && bool_decide (c ∈ convIDs)
            && bool_decide (0 < default 0 (lastSeqs !! c))
         then Some (default 0 (lastSeqs !! c))
         else read_receipts st !! (u', c).
Proof.
  intros size.
  assert (Hpos : (0 < size)%nat) by (unfold size; case_bool_decide; lia).
  assert (Hcat : concat (chunks_of (length convIDs) size convIDs) = convIDs)
    by (by apply chunks_of_concat).
  assert (Heq : MarkAllReadInChunks u convIDs lastSeqs chunkSize st
                = MarkAllReadTx u convIDs lastSeqs st).
  { unfold MarkAllReadInChunks, MarkAllReadTx. fold size.
    rewrite (foldl_concat (mark_one u lastSeqs)). by rewrite Hcat. }
  split; [done|]. split; [apply chunks_of_bounded|]. split; [done|].
  intros u' c. rewrite Heq. apply (MarkAllReadTx_lookup u convIDs lastSeqs st (u', c)).
Qed.

End receipts_more.


(** ** The conversation index under gateway traffic *)

Section index.

Import services.

Lemma index_grows_refl st : index_grows st st.
Proof.
  split; [|split].
  - intros c r Hr. exists r. repeat split; try done; try lia.
  - intros k r Hr. by exists r.
  - intros k v Hv. exists v. split; [done|try done; try lia].
Qed.

Lemma index_grows_trans st1 st2 st3 :
  index_grows st1 st2 -> index_grows st2 st3 -> index_grows st1 st3.
Proof.
  intros (Hc1 & Hu1 & Hr1) (Hc2 & Hu2 & Hr2). split; [|split].
  - intros c r Hr. destruct (Hc1 c r Hr) as (r2 & H2 & Hle & Ht & Hp & Hg).
    destruct (Hc2 c r2 H2) as (r3 & H3 & Hle' & Ht' & Hp' & Hg').
    exists r3. repeat split; try congruence; try lia.
  - intros k r Hr. destruct (Hu1 k r Hr) as (r2 & Hk2 & ? & ? & ? & ? & ? & ?).
    destruct (Hu2 k r2 Hk2) as (r3 & Hk3 & ? & ? & ? & ? & ? & ?).
    exists r3. repeat split; congruence.
  - intros k v Hv. destruct (Hr1 k v Hv) as (v2 & H2 & Hle).
    destruct (Hr2 k v2 H2) as (v3 & H3 & Hle'). exists v3. split; [done|try done; try lia].
Qed.

Lemma index_grows_same_maps st st' :
  conversations st' = conversations st ->
  user_conversations st' = user_conversations st ->
  read_receipts st' = read_receipts st ->
  index_grows st st'.
Proof.
  intros Hc Hu Hr. unfold index_grows. rewrite Hc, Hu, Hr. apply index_grows_refl.
Qed.

Lemma UpsertConversation_grows convID convType peerID groupID lastSeq now st :
  index_grows st (ConversationStore.UpsertConversation convID convType peerID groupID lastSeq now st).
Proof.
  split; [|split; [intros k r Hr; by exists r | intros k v Hv; exists v; split; [done|try done; try lia]]].
  intros c r Hr. unfold ConversationStore.UpsertConversation. simpl.
  destruct (decide (c = convID)) as [->|Hne].
  - rewrite Hr, lookup_insert_eq. eexists. split; [done|]. simpl.
    repeat split; try done; case_bool_decide; lia.
  - exists r. split; [|repeat split; try done; try lia].
    destruct (conversations st !! convID); by rewrite lookup_insert_ne.
Qed.

Lemma UpsertUserConversation_grows userID convID convType peerID groupID now st :
  index_grows st
    (ConversationStore.UpsertUserConversation userID convID convType peerID groupID now st).
Proof.
  split; [intros c r Hr; exists r; repeat split; try done; try lia|].
  split; [|intros k v Hv; exists v; split; [done|try done; try lia]].
  intros k r Hr. unfold ConversationStore.UpsertUserConversation. simpl.
  destruct (decide (k = (userID, convID))) as [->|Hne].
  - rewrite Hr, lookup_insert_eq. eexists. split; [done|]. simpl. done.
  - exists r. split; [|done].
    destruct (user_conversations st !! (userID, convID)); by rewrite lookup_insert_ne.
Qed.

Lemma UpsertReadSeq_grows userID convID sq st :
  index_grows st (ReceiptStore.UpsertReadSeq userID convID sq st).
Proof.
  split; [intros c r Hr; exists r; repeat split; try done; try lia|].
  split; [intros k r Hr; by exists r|].
  intros k v Hv. destruct (decide (k = (userID, convID))) as [->|Hne].
  - rewrite UpsertReadSeq_lookup, Hv. eexists. split; [done|]. lia.
  - exists v. split; [|lia]. by rewrite UpsertReadSeq_other.
Qed.

Lemma notify_group_grows svc env req st : index_grows st (notify_group svc env req st).
Proof.
  apply index_grows_same_maps; unfold notify_group; by repeat case_match.
Qed.

Lemma update_index_grows svc env req msg st : index_grows st (update_index svc env req msg st).
Proof.
  unfold update_index. cbv zeta.
  set (st1 := ConversationStore.UpsertConversation (rConvID req) (rConvType req) (rTo req)
                (rGroupID req) (Seq msg) (env_now env) st).
  set (st2 := with_kv (fun m => <[lastSeqCacheKey (rConvID req) := VInt (Seq msg)]> m) st1).
  set (st3 := ConversationStore.UpsertUserConversation (rFrom req) (rConvID req) (rConvType req)
                (rTo req) (rGroupID req) (env_now env) st2).
  assert (H1 : index_grows st st1) by apply UpsertConversation_grows.
  assert (H2 : index_grows st1 st2) by (by apply index_grows_same_maps).
  assert (H3 : index_grows st2 st3) by apply UpsertUserConversation_grows.
  assert (H13 : index_grows st st3)
    by (eapply index_grows_trans; [exact H1|]; eapply index_grows_trans; [exact H2|exact H3]).
  clearbody st3. clear H1 H2 H3 st1 st2.
  set (st4 := if bool_decide (rConvType req = ConversationTypeC2C)
                 && negb (bool_decide (rTo req = ""))
              then ConversationStore.UpsertUserConversation (rTo req) (rConvID req)
                     (rConvType req) (rFrom req) "" (env_now env) st3
              else st3).
  assert (H4 : index_grows st3 st4)
    by (unfold st4; case_match; [apply UpsertUserConversation_grows | apply index_grows_refl]).
  assert (H14 : index_grows st st4) by (eapply index_grows_trans; [exact H13|exact H4]).
  clearbody st4. clear H4 H13 st3.
  case_match; [|exact H14].
  eapply index_grows_trans; [exact H14 | apply notify_group_grows].
Qed.

Lemma Send_grows svc env req st : index_grows st (Send svc env req st).1.
Proof.
  unfold Send. cbv zeta.
  destruct (shouldStore req && env_append_fails env); [apply index_grows_refl|].
  set (st1 := if shouldStore req
              then with_messages (fun tbl => MessageStore.Append tbl (new_message env req)) st
              else st).
  assert (H1 : index_grows st st1).
  { unfold st1. destruct (shouldStore req); [by apply index_grows_same_maps|].
    apply index_grows_refl. }
  clearbody st1.
  set (st2 := if ConvStore svc
                 && (negb (rIsStreaming req)
                     || bool_decide (rStreamStatus req = StreamStatusStart))
              then update_index svc env req (new_message env req) st1
              else st1).
  assert (H2 : index_grows st st2).
  { eapply index_grows_trans; [exact H1|]. unfold st2.
    destruct (ConvStore svc && _); [apply update_index_grows | apply index_grows_refl]. }
  clearbody st2.
  destruct (bool_decide (rConvType req = ConversationTypeGroup) && GroupStore_ svc
            && GroupStore.IsMuted st2 (rGroupID req) (rFrom req) (env_now env)); simpl;
    [exact H2|].
  eapply index_grows_trans; [exact H2|].
  apply index_grows_same_maps; unfold publish_deliver; by case_match.
Qed.

Lemma publish_mentions_grows userID convType p sq st :
  index_grows st (ws.publish_mentions userID convType p sq st).
Proof.
  unfold ws.publish_mentions. case_match; [|apply index_grows_refl].
  generalize (ws.pMentions p) as l. intros l. revert st.
  induction l as [|uid l IH]; intros st; [apply index_grows_refl|].
  simpl. eapply index_grows_trans; [|apply IH].
  case_match; [apply index_grows_refl | by apply index_grows_same_maps].
Qed.

Lemma handle_send_grows s env userID p st :
  index_grows st (ws.handle_send s env userID p st).1.
Proof.
  unfold ws.handle_send. case_match; [apply index_grows_refl|].
  case_match; [apply index_grows_refl|].
  match goal with |- context [Send ?a ?b ?c ?d] => pose proof (Send_grows a b c d) as Hs end.
  destruct (Send _ _ _ _) as [st1 r]. destruct r; simpl in *; [done|].
  eapply index_grows_trans; [exact Hs | apply publish_mentions_grows].
Qed.

Lemma handle_read_grows s env userID convID sq st :
  index_grows st (ws.handle_read s env userID convID sq st).1.
Proof.
  unfold ws.handle_read. cbv zeta. simpl.
  set (st1 := if ws.Receipt s
              then with_kv (fun m => <[ReceiptStore.readSeqCacheKey userID convID := VInt sq]> m)
                     (ReceiptStore.UpsertReadSeq userID convID sq st)
              else st).
  assert (H1 : index_grows st st1).
  { unfold st1. destruct (ws.Receipt s); [|apply index_grows_refl].
    eapply index_grows_trans; [apply UpsertReadSeq_grows | by apply index_grows_same_maps]. }
  clearbody st1.
  destruct (env_get_fails env); [exact H1|].
  destruct (MessageStore.GetBySeq (messages st1) convID sq) as [msg|]; [|exact H1].
  destruct (BurnAfterRead msg && negb (Recalled msg)); [|exact H1].
  destruct (env_recall_fails env); [exact H1|].
  eapply index_grows_trans; [exact H1|].
  apply index_grows_same_maps; unfold ws.publish_recalled; by repeat case_match.
Qed.

Lemma StartStream_grows svc envStream env req st :
  index_grows st (StartStream svc envStream env req st).1.
Proof.
  unfold StartStream. eapply index_grows_trans; [|apply Send_grows].
  by apply index_grows_same_maps.
Qed.

Lemma SendStreamChunk_grows svc env streamID delta metadata st :
  index_grows st (SendStreamChunk svc env streamID delta metadata st).1.
Proof.
  unfold SendStreamChunk.
  destruct (kv st !! streamCacheKey streamID) as [[n|info]|]; simpl;
    try apply index_grows_refl.
  match goal with |- context [Send ?a ?b ?c ?d] => pose proof (Send_grows a b c d) as Hs end.
  destruct (Send _ _ _ _) as [st2 r].
  assert (index_grows st st2)
    by (eapply index_grows_trans; [|exact Hs]; by apply index_grows_same_maps).
  by destruct r.
Qed.

Lemma EndStream_grows svc env streamID finalText errorMsg st :
  index_grows st (EndStream svc env streamID finalText errorMsg st).1.
Proof.
  unfold EndStream.
  destruct (kv st !! streamCacheKey streamID) as [[n|info]|]; simpl;
    try apply index_grows_refl.
  match goal with |- context [Send ?a ?b ?c ?d] => pose proof (Send_grows a b c d) as Hs end.
  destruct (Send _ _ _ _) as [st1 r]. simpl in Hs.
  assert (index_grows st (with_kv (fun m => delete (streamCacheKey streamID) m) st1))
    by (eapply index_grows_trans; [exact Hs|]; by apply index_grows_same_maps).
  by destruct r.
Qed.

Lemma inbound_step_grows s st i : index_grows st (inbound_step s st i).
Proof.
  unfold inbound_step, ws.handleInbound.
  destruct (in_action i) as [p|c m|c q|p|sid delta md|sid ft em|].
  - apply handle_send_grows.
  - simpl. by apply index_grows_same_maps.
  - apply handle_read_grows.
  - case_match; [apply index_grows_refl|]. case_match; [apply index_grows_refl|].
    match goal with |- context [StartStream ?a ?b ?c ?d ?e] =>
      pose proof (StartStream_grows a b c d e) as Hs end.
    destruct (StartStream _ _ _ _ _) as [st1 r]. by destruct r.
  - pose proof (SendStreamChunk_grows (ws.MsgSvc s) (in_env i) sid delta md st) as Hs.
    destruct (SendStreamChunk _ _ _ _ _ _) as [st1 r]. by destruct r.
  - pose proof (EndStream_grows (ws.MsgSvc s) (in_env i) sid ft em st) as Hs.
    destruct (EndStream _ _ _ _ _ _) as [st1 r]. by destruct r.
  - apply index_grows_refl.
Qed.

Lemma inbound_run_grows s l st : index_grows st (inbound_run s st l).
Proof.
  unfold inbound_run. revert st. induction l as [|i l IH]; intros st; [apply index_grows_refl|].
  simpl. eapply index_grows_trans; [apply inbound_step_grows | apply IH].
Qed.

(** X9.  Gateway traffic only moves the conversation index forward.  After
    any run of inbound frames every [conversations] row that existed is still
    there with the same type, peer and group and a [last_seq] that has not
    decreased; every [user_conversations] row is still there with its pinned,
    muted and draft values untouched; and every stored read receipt is still
    there and has not decreased. *)
Theorem conversation_index_moves_forward (s : ws.Server) (frames : list Inbound) (st : State) :
  conv_rows_grow (conversations st) (conversations (inbound_run s st frames))
  /\ user_flags_kept (user_conversations st) (user_conversations (inbound_run s st frames))
  /\ receipts_grow (read_receipts st) (read_receipts (inbound_run s st frames)).
Proof. apply inbound_run_grows. Qed.

End index.

(** ** Membership expansion *)

Section expansion.

Import ConversationStore GroupMembers fanout.

Lemma ListMemberIDs_elem st gid uid :
  uid ∈ ListMemberIDs st gid <-> IsMember st gid uid = true.
Proof.
  unfold ListMemberIDs, IsMember. rewrite list_elem_of_omap, bool_decide_eq_true. split.
  - intros ([[g u] v] & Hin & Hf). simpl in Hf. case_bool_decide; [|done].
    injection Hf as ->. subst g. apply elem_of_map_to_list in Hin. by eexists.
  - intros [v Hv]. exists ((gid, uid), v). split; [by apply elem_of_map_to_list|].
    simpl. by rewrite bool_decide_eq_true_2.
Qed.

Lemma UpsertUserConversation_lookup userID convID convType peerID groupID now st k :
  user_conversations (UpsertUserConversation userID convID convType peerID groupID now st) !! k
  = if bool_decide (k = (userID, convID))
    then Some (touch convType peerID groupID now (user_conversations st !! k))
    else user_conversations st !! k.
Proof.
  unfold UpsertUserConversation. simpl. case_bool_decide as Hk.
  - subst k. destruct (user_conversations st !! (userID, convID));
      by rewrite lookup_insert_eq.
  - destruct (user_conversations st !! (userID, convID)); by rewrite lookup_insert_ne.
Qed.

Lemma touch_touch convType peerID groupID t old :
  touch convType peerID groupID t (Some (touch convType peerID groupID t old))
  = touch convType peerID groupID t old.
Proof. by destruct old. Qed.

Lemma upsert_each_lookup ids convID convType from gid clock st uid c :
  user_conversations
    (foldl (fun s' u => UpsertUserConversation u convID convType from gid (clock u) s') st ids)
    !! (uid, c)
  = if bool_decide (c = convID) && bool_decide (uid ∈ ids)
    then Some (touch convType from gid (clock uid) (user_conversations st !! (uid, c)))
    else user_conversations st !! (uid, c).
Proof.
  revert st. induction ids as [|x ids IH]; intros st.
  - simpl. by rewrite andb_false_r.
  - simpl foldl. rewrite IH, UpsertUserConversation_lookup.
    destruct (decide (c = convID)) as [->|Hc].
    + rewrite (bool_decide_eq_true_2 (convID = convID)) by done. simpl.
      destruct (decide (uid = x)) as [->|Hx].
      * rewrite (bool_decide_eq_true_2 ((x, convID) = (x, convID))) by done.
        rewrite (bool_decide_eq_true_2 (x ∈ x :: ids)) by (by left).
        rewrite touch_touch. by destruct (bool_decide (x ∈ ids)).
      * rewrite (bool_decide_eq_false_2 ((uid, convID) = (x, convID))) by congruence.
        assert (Hin : bool_decide (uid ∈ x :: ids) = bool_decide (uid ∈ ids)).
        { apply bool_decide_ext. rewrite elem_of_cons. tauto. }
        by rewrite Hin.
    + rewrite (bool_decide_eq_false_2 (c = convID)) by done. simpl.
      rewrite (bool_decide_eq_false_2 ((uid, c) = (x, convID))) by congruence. done.
Qed.

Lemma upsert_members_lookup ids batch convID convType from gid clock st uid c :
  0 < batch ->
  user_conversations (upsert_members ids batch convID convType from gid clock st) !! (uid, c)
  = if bool_decide (c = convID) && bool_decide (uid ∈ ids)
    then Some (touch convType from gid (clock uid) (user_conversations st !! (uid, c)))
    else user_conversations st !! (uid, c).
Proof.
  intros Hb. unfold upsert_members.
  rewrite (foldl_concat
             (fun s' u => UpsertUserConversation u convID convType from gid (clock u) s')).
  rewrite chunks_of_concat by lia. apply upsert_each_lookup.
Qed.

(** X10.  The membership expansion of a group send reaches every member
    exactly: after the fan-out task has run (with any positive batch size),
    each member of the group has a [user_conversations] row for the
    conversation, new with default flags or the old row with only
    [updated_at] moved, and no other row (another conversation, a
    non-member) has changed. *)
Theorem fanout_reaches_every_member (t : FanoutTask) (clock : string -> Time) (st : State)
  (uid c : string) :
  0 < ft_batch t ->
  user_conversations (run_task t clock st) !! (uid, c)
  = if bool_decide (c = ft_convID t) && IsMember st (ft_gid t) uid
    then Some (touch (ft_convType t) (ft_from t) (ft_gid t) (clock uid)
                 (user_conversations st !! (uid, c)))
    else user_conversations st !! (uid, c).
Proof.
  intros Hb. unfold run_task. rewrite upsert_members_lookup by done.
  assert (Hm : bool_decide (uid ∈ ListMemberIDs st (ft_gid t)) = IsMember st (ft_gid t) uid).
  { destruct (IsMember st (ft_gid t) uid) eqn:E.
    - apply bool_decide_eq_true. by apply ListMemberIDs_elem.
    - apply bool_decide_eq_false. rewrite ListMemberIDs_elem. congruence. }
  by rewrite Hm.
Qed.

(** X10, witness: the team of three with batch size 2; bob keeps his pin,
    carol gets a fresh row, dave (no member) gets none. *)
Lemma fanout_reaches_every_member_witness :
  (uc_pinned <$> user_conversations (run_task team_task (fun _ => 9) team_state)
                   !! ("bob", "group:g1")) = Some true
  /\ (uc_updated_at <$> user_conversations (run_task team_task (fun _ => 9) team_state)
                          !! ("carol", "group:g1")) = Some 9
  /\ user_conversations (run_task team_task (fun _ => 9) team_state) !! ("dave", "group:g1")
     = None.
Proof.
  rewrite !(fanout_reaches_every_member team_task (fun _ => 9) team_state) by (simpl; lia).
  vm_compute. done.
Defined.

(** X11.  The two fan-out paths of a group send agree.  With a producer
    [Send] emits one [group_update] event; without one it starts the
    in-process task.  Consuming that event (with whatever batch size the
    consumer is configured) writes the same [user_conversations] rows as
    running the task. *)
Theorem fanout_paths_agree (svcP svcF : services.MessageService) (env : Env)
  (req : services.SendRequest) (st st2 : State) (consumerBatch : Z)
  (clock : string -> Time) :
  let evt := mkGroupUpdate (services.rGroupID req) (services.rConvID req) (services.rFrom req)
               (services.rConvType req) (UnixMilli (env_now env)) in
  let task := mkFanoutTask (services.rGroupID req) (services.rConvID req)
                (services.rConvType req) (services.rFrom req)
                (if bool_decide (services.GroupBatchSize svcF <= 0) then 500
                 else services.GroupBatchSize svcF)
                (if bool_decide (services.GroupBatchSleep svcF <= 0) then 50 * 1000000
                 else services.GroupBatchSleep svcF) in
  (services.Producer svcP = true ->
     mq (services.notify_group svcP env req st) = mq st ++ [evt]
     /\ spawned (services.notify_group svcP env req st) = spawned st)
  /\ (services.Producer svcF = false -> services.GroupStore_ svcF = true ->
       spawned (services.notify_group svcF env req st) = spawned st ++ [task]
       /\ mq (services.notify_group svcF env req st) = mq st)
  /\ user_conversations (ConsumeClaim consumerBatch clock [evt] st2)
     = user_conversations (run_task task clock st2).
Proof.
  intros evt task. split; [|split].
  - intros Hp. unfold services.notify_group. by rewrite Hp.
  - intros Hp Hg. unfold services.notify_group. by rewrite Hp, Hg.
  - apply map_eq. intros [uid c]. simpl. unfold consume, run_task. simpl.
    rewrite !upsert_members_lookup by (case_bool_decide; lia). done.
Qed.

End expansion.


(** ** Group delivery *)

Section group_delivery.

Import MessageStore services.

Lemma IsMuted_same_tables st st' g u now :
  groups_muted st' = groups_muted st ->
  members_muted_until st' = members_muted_until st ->
  GroupStore.IsMuted st' g u now = GroupStore.IsMuted st g u now.
Proof. intros H1 H2. unfold GroupStore.IsMuted. by rewrite H1, H2. Qed.

Lemma mute_tables_notify_group svc env req st :
  groups_muted (notify_group svc env req st) = groups_muted st
  /\ members_muted_until (notify_group svc env req st) = members_muted_until st.
Proof. unfold notify_group. by repeat case_match. Qed.

Lemma mute_tables_update_index svc env req msg st :
  groups_muted (update_index svc env req msg st) = groups_muted st
  /\ members_muted_until (update_index svc env req msg st) = members_muted_until st.
Proof.
  unfold update_index.
  repeat case_match;
    rewrite ?(proj1 (mute_tables_notify_group _ _ _ _)),
            ?(proj2 (mute_tables_notify_group _ _ _ _)); done.
Qed.

Lemma published_publish_mentions_group userID p sq st :
  published (ws.publish_mentions userID ConversationTypeGroup p sq st)
  = published st ++ mention_frames userID p sq.
Proof.
  unfold ws.publish_mentions, mention_frames.
  rewrite bool_decide_eq_true_2 by done.
  generalize (ws.pMentions p). intros l. revert st.
  induction l as [|uid l IH]; intros st; simpl.
  - by rewrite app_nil_r.
  - rewrite IH. case_bool_decide; simpl; [done|].
    by rewrite <- app_assoc.
Qed.

(** A group send by a sender who is not muted is acknowledged. *)
Lemma Send_group_ack svc env req st :
  rConvType req = ConversationTypeGroup -> env_append_fails env = false ->
  GroupStore.IsMuted st (rGroupID req) (rFrom req) (env_now env) = false ->
  (Send svc env req st).2 = inr (deliver_of (new_message env req)).
Proof.
  intros Hc Hf Hm. unfold Send. rewrite Hf, andb_false_r.
  set (st1 := if shouldStore req then _ else st).
  set (st2 := if ConvStore svc && _ then _ else st1).
  assert (H2 : GroupStore.IsMuted st2 (rGroupID req) (rFrom req) (env_now env) = false).
  { rewrite <- Hm. apply IsMuted_same_tables; unfold st2, st1;
      repeat case_match;
      rewrite ?(proj1 (mute_tables_update_index _ _ _ _ _)),
              ?(proj2 (mute_tables_update_index _ _ _ _ _)); done. }
  rewrite H2, andb_false_r. done.
Qed.

(** X12.  An accepted group send is published once to the group's channel
    and then as one mention tip to each non-empty user id of the payload's
    [mentions], in order; the ack, the delivery and the tips carry the seq of
    this submission.  The sender must not be muted. *)
Theorem group_send_delivers_and_mentions (s : ws.Server) (env : Env) (userID : string)
  (p : ws.SendPayload) (st : State) :
  ws.rateLimitAllow s env = true ->
  ws.permission_denied s userID ConversationTypeGroup p = None ->
  ws.pConvType p = ConversationTypeGroup ->
  env_append_fails env = false ->
  GroupStore.IsMuted st (ws.pGroupID p) userID (env_now env) = false ->
  exists d,
    (ws.handle_send s env userID p st).2 = [FAck d]
    /\ dSeq d = env_nano env /\ dFrom d = userID /\ dGroupID d = ws.pGroupID p
    /\ published (ws.handle_send s env userID p st).1
       = published st ++ [(cache.DeliverChannel (ws.pGroupID p), FDeliver d)]
         ++ mention_frames userID p (env_nano env).
Proof.
  intros Hr Hp Hc Hf Hm.
  assert (Hct : ToConvType (ws.pConvType p) = ConversationTypeGroup).
  { unfold ToConvType. by rewrite bool_decide_eq_true_2. }
  set (req := ws.send_request userID ConversationTypeGroup p).
  exists (deliver_of (new_message env req)).
  unfold ws.handle_send. rewrite Hr, Hct, Hp. simpl negb. cbv iota. fold req.
  pose proof (Send_group_ack (ws.MsgSvc s) env req st eq_refl Hf Hm) as Hack.
  pose proof (published_Send (ws.MsgSvc s) env req st) as Hpub.
  destruct (Send (ws.MsgSvc s) env req st) as [st1 r]. simpl in Hack, Hpub. subst r.
  simpl. repeat (split; [done|]).
  rewrite published_publish_mentions_group, Hpub. simpl.
  by rewrite <- app_assoc.
Qed.

(** X12, witness: alice mentions bob and carol in group g1. *)
Lemma group_send_delivers_and_mentions_witness :
  exists d,
    (ws.handle_send gateway (env_at "id-1" 100 100) "alice" mention_payload team_state).2
    = [FAck d]
    /\ published (ws.handle_send gateway (env_at "id-1" 100 100) "alice" mention_payload
                    team_state).1
       = [("im:deliver:g1", FDeliver d);
          ("im:deliver:bob", FMention "g1" "group:g1" "alice" 100);
          ("im:deliver:carol", FMention "g1" "group:g1" "alice" 100)].
Proof.
  destruct (group_send_delivers_and_mentions gateway (env_at "id-1" 100 100) "alice"
              mention_payload team_state) as (d & Hf & _ & _ & _ & Hpub).
  - reflexivity.
  - reflexivity.
  - reflexivity.
  - reflexivity.
  - vm_compute. reflexivity.
  - exists d. split; [exact Hf|]. rewrite Hpub. reflexivity.
Defined.

End group_delivery.

(** ** The conversation list with unread counts *)

Section unread_list.

Import ConversationStore ReceiptStore ConversationList.



Lemma cache_keys_disjoint c u c' : services.lastSeqCacheKey c <> readSeqCacheKey u c'.
Proof. unfold services.lastSeqCacheKey, readSeqCacheKey. simpl. intros H. discriminate H. Qed.













Lemma handle_read_cache s env u c sq st :
  ws.Receipt s = true ->
  kv (ws.handle_read s env u c sq st).1 = <[readSeqCacheKey u c := VInt sq]> (kv st)
  /\ read_receipts (ws.handle_read s env u c sq st).1
     = read_receipts (UpsertReadSeq u c sq st).
Proof.
  intros Hr. unfold ws.handle_read. rewrite Hr. cbv zeta. cbn [fst].
  set (st1 := with_kv _ (UpsertReadSeq u c sq st)).
  change (<[readSeqCacheKey u c := VInt sq]> (kv st)) with (kv st1).
  change (read_receipts (UpsertReadSeq u c sq st)) with (read_receipts st1).
  clearbody st1.
  destruct (env_get_fails env); [done|].
  destruct (MessageStore.GetBySeq (messages st1) c sq) as [msg|]; [|done].
  destruct (BurnAfterRead msg && negb (Recalled msg)); [|done].
  destruct (env_recall_fails env); [done|].
  rewrite kv_publish_recalled. split; [done|].
  unfold ws.publish_recalled. by repeat case_match.
Qed.



End unread_list.


(** ** Group mutes *)

Section mutes.

Import GroupMembers GroupStore.

Lemma with_members_same f st :
  f (members_muted_until st) = members_muted_until st ->
  with_members_muted_until f st = st.
Proof. intros H. destruct st. unfold with_members_muted_until. simpl in *. by rewrite H. Qed.

(** X15.  The life of a member mute.  For a member of a group that is not
    muted as a whole, a mute until [t] holds exactly while [now < t]; it
    touches no other member; and it is cleared by joining the group again
    (the upsert of [AddMember] resets [muted_until]) as well as by leaving.
    Muting somebody who is not a member changes nothing. *)
Theorem member_mute_lifecycle (st : State) (g u : string) (t now : Time) :
  groups_muted st !! g <> Some true ->
  (IsMember st g u = false -> SetMemberMuteUntil g u (Some t) st = st)
  /\ (IsMember st g u = true ->
      IsMuted (SetMemberMuteUntil g u (Some t) st) g u now = bool_decide (now < t)
      /\ IsMuted (JoinGroup g u (SetMemberMuteUntil g u (Some t) st)) g u now = false
      /\ IsMuted (RemoveMember g u (SetMemberMuteUntil g u (Some t) st)) g u now = false
      /\ IsMember (JoinGroup g u (SetMemberMuteUntil g u (Some t) st)) g u = true)
  /\ (forall v, v <> u ->
        IsMuted (SetMemberMuteUntil g u (Some t) st) g v now = IsMuted st g v now).
Proof.
  intros Hg.
  assert (Hflag : forall st', groups_muted st' = groups_muted st ->
            forall v, IsMuted st' g v now
                      = match members_muted_until st' !! (g, v) with
                        | Some (Some until) => bool_decide (now < until)
                        | _ => false
                        end).
  { intros st' E v. unfold IsMuted. rewrite E.
    destruct (groups_muted st !! g) as [[|]|]; done. }
  split; [|split].
  - unfold IsMember. intros Hm. apply bool_decide_eq_false in Hm.
    apply with_members_same.
    destruct (members_muted_until st !! (g, u)) eqn:E; [|done].
    exfalso. apply Hm. by eexists.
  - unfold IsMember at 1. intros Hm. apply bool_decide_eq_true in Hm as [old Hold].
    rewrite !Hflag by done.
    unfold JoinGroup, AddMember, RemoveMember, SetMemberMuteUntil, IsMember. simpl.
    rewrite Hold. rewrite !lookup_insert_eq, lookup_delete_eq.
    repeat split; try done; try (apply bool_decide_eq_true; by eexists).
  - intros v Hv. rewrite !Hflag by done.
    unfold SetMemberMuteUntil. simpl.
    destruct (members_muted_until st !! (g, u)); [|done].
    rewrite lookup_insert_ne by congruence. done.
Qed.

(** X15, witness: carol of group g1, muted until 50. *)
Lemma member_mute_lifecycle_witness :
  IsMuted (SetMemberMuteUntil "g1" "carol" (Some 50) team_state) "g1" "carol" 10 = true
  /\ IsMuted (JoinGroup "g1" "carol" (SetMemberMuteUntil "g1" "carol" (Some 50) team_state))
       "g1" "carol" 10 = false.
Proof.
  destruct (member_mute_lifecycle team_state "g1" "carol" 50 10) as (_ & H & _).
  - vm_compute. discriminate.
  - destruct H as (H1 & H2 & _); [reflexivity|].
    split; [exact (eq_trans H1 eq_refl)|exact H2].
Defined.

End mutes.

(** ** The domain entities *)

Section entities_more.

Import domain.

(** X16.  [ToDTO] and [FromMessageDTO] are inverse to each other on the
    messages and DTOs whose conversation type is valid (c2c or group);
    [FromMessageDTO] refuses every other DTO, and checks nothing else. *)
Theorem dto_round_trip (m : Message) (dto : MessageDTO) :
  FromMessageDTO (ToDTO m) = (if IsValid (ConvType m) then Some m else None)
  /\ (ToDTO <$> FromMessageDTO dto) = (if IsValid (dtoConvType dto) then Some dto else None).
Proof.
  split.
  - destruct m. unfold FromMessageDTO, ToDTO, NewConversationType. simpl.
    by destruct (IsValid _).
  - destruct dto. unfold FromMessageDTO, ToDTO, NewConversationType. simpl.
    by destruct (IsValid _).
Qed.

(** X17.  A recall of the entity is final: when [Recall] succeeds the
    message was not recalled before and now differs only by [recalled]
    being true, a second [Recall] is an error, and [CanRecall] is false from
    then on, at every time. *)
Theorem entity_recall_is_final (m m' : Message) :
  Recall m = Some m' ->
  Recalled m = false
  /\ m' = MessageStore.set_recalled m
  /\ Recall m' = None
  /\ (forall now, entities.CanRecall m' now = false).
Proof.
  unfold Recall. destruct (Recalled m) eqn:E; [done|].
  intros [= <-]. repeat split; done.
Qed.

(** X17, witness: alice's message. *)
Lemma entity_recall_is_final_witness :
  Recall (MessageStore.set_recalled alice_message) = None
  /\ entities.CanRecall (MessageStore.set_recalled alice_message) 1 = false.
Proof.
  destruct (entity_recall_is_final alice_message (MessageStore.set_recalled alice_message))
    as (_ & _ & H1 & H2).
  - reflexivity.
  - split; [exact H1|apply H2].
Defined.

Lemma apply_op_keeps now g op :
  g_id g <> "" -> g_name g <> "" -> g_ownerID g <> "" ->
  g_id (apply_op now g op) = g_id g
  /\ g_createdAt (apply_op now g op) = g_createdAt g
  /\ g_name (apply_op now g op) <> ""
  /\ g_ownerID (apply_op now g op) <> "".
Proof.
  intros Hi Hn Ho. destruct op as [name|muted|newOwner]; simpl.
  - unfold UpdateName. case_bool_decide; simpl; done.
  - done.
  - unfold TransferOwnership. repeat case_bool_decide; simpl; done.
Qed.

(** X18.  A group entity never loses what [NewGroup] checked: after any run
    of renames, mutes and ownership transfers (refused ones included) the
    group has the id and creation time it was made with, and its name and
    owner are not empty. *)
Theorem group_keeps_identity (id name ownerID : string) (now : Time) (g : Group)
  (ops : list (Time * GroupOp)) :
  NewGroup id name ownerID now = Some g ->
  g_id (group_run g ops) = id
  /\ id <> ""
  /\ g_createdAt (group_run g ops) = now
  /\ g_name (group_run g ops) <> ""
  /\ g_ownerID (group_run g ops) <> "".
Proof.
  unfold NewGroup. repeat case_bool_decide; try done. intros [= <-].
  assert (Hrun : forall (g : Group), g_id g <> "" -> g_name g <> "" -> g_ownerID g <> "" ->
            g_id (group_run g ops) = g_id g
            /\ g_createdAt (group_run g ops) = g_createdAt g
            /\ g_name (group_run g ops) <> ""
            /\ g_ownerID (group_run g ops) <> "").
  { induction ops as [|[t op] ops IH]; intros g Hi Hn Ho; [done|].
    unfold group_run. simpl. fold (group_run (apply_op t g op) ops).
    destruct (apply_op_keeps t g op Hi Hn Ho) as (E1 & E2 & N1 & N2).
    destruct (IH (apply_op t g op)) as (F1 & F2 & F3 & F4); [congruence|done|done|].
    repeat split; try done; congruence. }
  destruct (Hrun (mkGroup id name ownerID false now now)) as (F1 & F2 & F3 & F4); try done.
Qed.

(** X18, witness: group g1 of alice through [team_ops]; bob ends up owner. *)
Lemma group_keeps_identity_witness :
  g_id (group_run (mkGroup "g1" "team" "alice" false 0 0) team_ops) = "g1"
  /\ "g1" <> ""
  /\ g_createdAt (group_run (mkGroup "g1" "team" "alice" false 0 0) team_ops) = 0
  /\ g_name (group_run (mkGroup "g1" "team" "alice" false 0 0) team_ops) <> ""
  /\ g_ownerID (group_run (mkGroup "g1" "team" "alice" false 0 0) team_ops) <> "".
Proof.
  apply (group_keeps_identity "g1" "team" "alice" 0). reflexivity.
Defined.

End entities_more.

(** ** Paging through the history *)

Section paging.

Import MessageStore.

#[local] Existing Instance seq_le_trans.
#[local] Existing Instance seq_le_total.

Lemma Permutation_List_filter {A} (p : A -> bool) (l l' : list A) :
  l ≡ₚ l' -> List.filter p l ≡ₚ List.filter p l'.
Proof.
  induction 1 as [|x l l' _ IH|x y l|l l' l'' _ IH1 _ IH2]; simpl.
  - done.
  - destruct (p x); [by constructor|done].
  - destruct (p x), (p y); try done. apply perm_swap.
  - by etrans.
Qed.

Lemma List_filter_all {A} (p : A -> bool) (l : list A) :
  Forall (fun x => p x = true) l -> List.filter p l = l.
Proof. induction 1 as [|x l Hx _ IH]; simpl; [done|]. by rewrite Hx, IH. Qed.

Lemma List_filter_none {A} (p : A -> bool) (l : list A) :
  Forall (fun x => p x = false) l -> List.filter p l = [].
Proof. induction 1 as [|x l Hx _ IH]; simpl; [done|]. by rewrite Hx, IH. Qed.

Lemma NoDup_map_eq {A B} (f : A -> B) (l : list A) x y :
  NoDup (map f l) -> x ∈ l -> y ∈ l -> f x = f y -> x = y.
Proof.
  induction l as [|a l IH]; simpl; intros Hnd Hx Hy E; [by apply elem_of_nil in Hx|].
  apply NoDup_cons in Hnd as [Ha Hnd].
  apply elem_of_cons in Hx as [->|Hx]; apply elem_of_cons in Hy as [->|Hy]; try done.
  - exfalso. apply Ha. rewrite E. apply list_elem_of_In, in_map, list_elem_of_In. done.
  - exfalso. apply Ha. rewrite <- E. apply list_elem_of_In, in_map, list_elem_of_In. done.
  - by apply IH.
Qed.

Lemma in_take_in {A} (n : nat) (l : list A) x : x ∈ take n l -> x ∈ l.
Proof. intros H. rewrite <- (take_drop n l). apply elem_of_app. by left. Qed.

Lemma in_drop_in {A} (n : nat) (l : list A) x : x ∈ drop n l -> x ∈ l.
Proof. intros H. rewrite <- (take_drop n l). apply elem_of_app. by right. Qed.

(** In a sorted listing without repeated seqs, the records after the last
    one of a page are the rest of the listing. *)
Lemma sorted_rest (L : list Message) (n : nat) (m : Message) :
  StronglySorted seq_le L -> NoDup L ->
  (forall x y, x ∈ L -> y ∈ L -> Seq x = Seq y -> x = y) ->
  last (take n L) = Some m ->
  List.filter (fun r => bool_decide (Seq m < Seq r)) L = drop n L.
Proof.
  intros Hs Hnd Hinj Hlast.
  rewrite <- (take_drop n L) at 1. rewrite <- (take_drop n L) in Hs, Hnd.
  rewrite List.filter_app.
  apply last_Some in Hlast as [l' Hl'].
  assert (Hm : m ∈ take n L). { rewrite Hl'. apply elem_of_app. right. by left. }
  rewrite List_filter_none, List_filter_all; [done| |].
  - apply Forall_forall. intros y Hy. apply bool_decide_eq_true.
    pose proof (StronglySorted_app_1_elem_of _ _ _ _ _ Hs Hm Hy) as Hle.
    unfold seq_le in Hle.
    assert (Seq m <> Seq y); [|lia].
    intros E. apply NoDup_app in Hnd as (_ & Hdis & _).
    apply (Hdis m Hm). replace m with y; [done|].
    symmetry. apply Hinj; [| |done].
    + by eapply in_take_in.
    + by eapply in_drop_in.
  - apply Forall_forall. intros x Hx. apply bool_decide_eq_false.
    apply StronglySorted_app_1_l in Hs. rewrite Hl' in Hs, Hx.
    apply elem_of_app in Hx as [Hx|Hx].
    + assert (Hmm : m ∈ [m]) by (by left).
      pose proof (StronglySorted_app_1_elem_of _ _ _ _ _ Hs Hx Hmm) as Hle.
      unfold seq_le in Hle. lia.
    + apply list_elem_of_singleton in Hx. subst x. lia.
Qed.

(** X19.  Paging through a conversation loses and repeats nothing when no
    two stored records of a conversation share a seq: the page fetched with
    [fromSeq] set to the seq of the last record of a page is exactly the next
    [cap] records of the full ascending listing. *)
Theorem history_paging_is_lossless (tbl : list Message) (convID : string)
  (fromSeq limit : Z) (now : Time) (m : Message) :
  uniq_conv_seq tbl ->
  last (List tbl convID fromSeq limit now) = Some m ->
  List tbl convID fromSeq limit now ++ List tbl convID (Seq m) limit now
  = take (Z.to_nat (effective_limit limit) + Z.to_nat (effective_limit limit))
         (merge_sort seq_le (List.filter (listed convID fromSeq now) tbl)).
Proof.
  intros Huniq Hlast. unfold List in *.
  set (cap := Z.to_nat (effective_limit limit)) in *.
  set (F := List.filter (listed convID fromSeq now) tbl) in *.
  set (L := merge_sort seq_le F) in *.
  assert (HLF : L ≡ₚ F) by apply merge_sort_Permutation.
  assert (HsL : StronglySorted seq_le L) by apply (StronglySorted_merge_sort _).
  assert (HinL : forall x, x ∈ L -> x ∈ tbl /\ listed convID fromSeq now x = true).
  { intros x Hx. rewrite HLF in Hx. by apply elem_of_filter_list in Hx. }
  assert (Hinj : forall x y, x ∈ L -> y ∈ L -> Seq x = Seq y -> x = y).
  { intros x y Hx Hy E.
    destruct (HinL x Hx) as [Hxt Hxl]. destruct (HinL y Hy) as [Hyt Hyl].
    apply (NoDup_map_eq seq_key tbl x y Huniq Hxt Hyt).
    unfold seq_key. f_equal; [|done].
    unfold listed in Hxl, Hyl.
    repeat (apply andb_true_iff in Hxl as [Hxl ?]).
    repeat (apply andb_true_iff in Hyl as [Hyl ?]).
    apply bool_decide_eq_true in Hxl, Hyl. congruence. }
  assert (HndL : NoDup L).
  { rewrite HLF. apply NoDup_ListNoDup, List.NoDup_filter.
    apply NoDup_ListNoDup in Huniq. by apply NoDup_map_inv in Huniq. }
  assert (Hm : m ∈ L).
  { apply last_Some_elem_of in Hlast. apply elem_of_take in Hlast as (i & Hi & _).
    by apply list_elem_of_lookup_2 in Hi. }
  destruct (HinL m Hm) as [_ Hml].
  assert (Hfrom : fromSeq < Seq m).
  { unfold listed in Hml. repeat (apply andb_true_iff in Hml as [Hml ?]).
    by apply bool_decide_eq_true in H1. }
  pose proof (sorted_rest L cap m HsL HndL Hinj Hlast) as Hrest.
  assert (Hnext : merge_sort seq_le (List.filter (listed convID (Seq m) now) tbl)
                  = drop cap L).
  { assert (Hperm : merge_sort seq_le (List.filter (listed convID (Seq m) now) tbl)
                    ≡ₚ drop cap L).
    { rewrite merge_sort_Permutation.
      rewrite <- (filter_filter_weaker (listed convID (Seq m) now)
                    (listed convID fromSeq now) tbl).
      2:{ intros x. unfold listed. intros Hx.
          repeat (apply andb_true_iff in Hx as [Hx ?]).
          apply bool_decide_eq_true in H1.
          repeat (apply andb_true_iff; split); try done.
          apply bool_decide_eq_true. lia. }
      fold F. rewrite <- Hrest.
      rewrite (filter_ext_in (listed convID (Seq m) now)
                 (fun r => bool_decide (Seq m < Seq r)) F).
      - apply Permutation_List_filter. by symmetry.
      - intros a Ha. apply filter_In in Ha as [_ Ha]. unfold listed in *.
        repeat (apply andb_true_iff in Ha as [Ha ?]).
        rewrite Ha, H, H0. simpl. by rewrite !andb_true_r. }
    apply (StronglySorted_unique_strong seq_le); [| |
      |exact Hperm].
    - intros x1 x2 Hx1 Hx2 H12 H21. unfold seq_le in *.
      rewrite Hperm in Hx1.
      apply Hinj; [by eapply in_drop_in|by eapply in_drop_in|lia].
    - apply (StronglySorted_merge_sort _).
    - rewrite <- (take_drop cap L) in HsL. by apply StronglySorted_app_1_r in HsL. }
  rewrite Hnext. apply take_take_drop.
Qed.

(** X19, witness: five messages read in pages of two. *)
Lemma history_paging_is_lossless_witness :
  map Seq (List five_messages "c1" 0 2 10 ++ List five_messages "c1" 2 2 10) = [1; 2; 3; 4].
Proof.
  etrans.
  - refine (f_equal (map Seq)
              (history_paging_is_lossless five_messages "c1" 0 2 10
                 (text_message "s2" "m2" "c1" "bob" "alice" 2 2) _ _)).
    + apply (bool_decide_unpack _). vm_compute. exact I.
    + vm_compute. reflexivity.
  - vm_compute. reflexivity.
Defined.

End paging.


(** ** The frames of a stream *)

Section stream_frames.

Import MessageStore services.

Lemma DeliverChannel_inj u v : cache.DeliverChannel u = cache.DeliverChannel v -> u = v.
Proof.
  unfold cache.DeliverChannel. intros H.
  by apply (inj (String.append "im:deliver:")) in H.
Qed.

Lemma stream_view_app channel l1 l2 :
  stream_view channel (l1 ++ l2) = stream_view channel l1 ++ stream_view channel l2.
Proof. unfold stream_view. apply omap_app. Qed.

Lemma stream_view_c2c req d :
  rConvType req = ConversationTypeC2C -> rTo req <> rFrom req ->
  stream_view (cache.DeliverChannel (rTo req)) (delivery_frames req d)
  = [(dStreamSeq d, dStreamStatus d)].
Proof.
  intros Hc Hne. unfold delivery_frames, stream_view. rewrite Hc. simpl.
  rewrite bool_decide_eq_true_2 by done.
  rewrite bool_decide_eq_false_2; [done|].
  intros E. apply DeliverChannel_inj in E. congruence.
Qed.

(** A one-to-one send that is not stored cannot fail. *)
Lemma Send_c2c_unstored svc env req st :
  rConvType req = ConversationTypeC2C -> shouldStore req = false ->
  (Send svc env req st).2 = inr (deliver_of (new_message env req)).
Proof. intros Hc Hs. unfold Send. rewrite Hs, Hc. simpl. done. Qed.

Lemma chunk_numbers_cons first n :
  chunk_numbers first (S n) = (first, StreamStatusChunk) :: chunk_numbers (first + 1) n.
Proof.
  unfold chunk_numbers. simpl. f_equal; [f_equal; lia|].
  rewrite <- seq_shift, map_map. apply map_ext. intros k. f_equal. lia.
Qed.

Lemma chunks_view svc streamID chunks st info :
  kv st !! streamCacheKey streamID = Some (VStream info) ->
  si_convType info = ConversationTypeC2C -> si_to info <> si_from info ->
  exists frames,
    published (send_chunks svc streamID chunks st) = published st ++ frames
    /\ stream_view (cache.DeliverChannel (si_to info)) frames
       = chunk_numbers (si_seq info + 1) (length chunks).
Proof.
  unfold send_chunks. revert st info.
  induction chunks as [|[[env delta] metadata] chunks IH]; intros st info Hk Hc Hne.
  - exists []. simpl. by rewrite app_nil_r.
  - simpl foldl.
    pose proof (kv_SendStreamChunk_known svc env streamID delta metadata st info Hk) as Hk1.
    assert (Hok : (SendStreamChunk svc env streamID delta metadata st).2 = None).
    { unfold SendStreamChunk. rewrite Hk.
      fold (chunk_request info streamID delta metadata).
      pose proof (Send_c2c_unstored svc env (chunk_request info streamID delta metadata)
                    (with_kv (fun m => <[streamCacheKey streamID :=
                                           VStream (with_seq info (si_seq info + 1))]> m) st)
                    Hc (chunk_not_stored info streamID delta metadata)) as Hs.
      destruct (Send _ _ _ _) as [st2 r]. simpl in Hs. by subst r. }
    pose proof (published_SendStreamChunk svc env streamID delta metadata st info Hk Hok) as Hp.
    destruct (IH _ _ Hk1 Hc Hne) as (frames & Hpub & Hview).
    eexists. split.
    + rewrite Hpub, Hp, <- app_assoc. reflexivity.
    + rewrite stream_view_app.
      change (si_to info) with (rTo (chunk_request info streamID delta metadata)) at 1.
      rewrite stream_view_c2c by done.
      change (si_to (with_seq info (si_seq info + 1))) with (si_to info) in Hview.
      rewrite Hview. simpl length. rewrite chunk_numbers_cons. simpl. done.
Qed.

Lemma published_EndStream_c2c svc env streamID finalText errorMsg st info :
  kv st !! streamCacheKey streamID = Some (VStream info) ->
  si_convType info = ConversationTypeC2C -> env_append_fails env = false ->
  let req := stream_request info streamID (streamID +:+ "-end")
               (end_payload finalText errorMsg) (si_seq info + 1)
               (if bool_decide (errorMsg = "") then StreamStatusEnd else StreamStatusError) in
  published (EndStream svc env streamID finalText errorMsg st).1
  = published st ++ delivery_frames req (deliver_of (new_message env req)).
Proof.
  intros Hk Hc Hf req. unfold EndStream. rewrite Hk. fold req.
  pose proof (Send_c2c_ack svc env req st Hc Hf) as Hack.
  pose proof (published_Send svc env req st) as Hpub.
  destruct (Send svc env req st) as [st1 r]. simpl in Hack, Hpub. subst r.
  simpl. exact Hpub.
Qed.

(** X20.  What the recipient of a one-to-one stream sees.  For a session of
    one start, [n] chunks and one end on a healthy store (within the life of
    the cached stream state), the deliveries
    published to the recipient's channel are, in order: the start with stream
    seq 1, the chunks numbered 2 to n+1, and the end (or error) record with
    stream seq n+2.  No chunk is dropped or reordered. *)
Theorem c2c_stream_is_numbered (svc : MessageService) (envStream envStart envEnd : Env)
  (req : SendRequest) (chunks : list (Env * string * string)) (finalText errorMsg : string)
  (st : State) :
  rConvType req = ConversationTypeC2C ->
  rTo req <> rFrom req ->
  env_append_fails envStart = false ->
  env_append_fails envEnd = false ->
  exists frames,
    published (stream_session svc envStream envStart envEnd req chunks finalText errorMsg st)
    = published st ++ frames
    /\ stream_view (cache.DeliverChannel (rTo req)) frames
       = (1, StreamStatusStart)
         :: chunk_numbers 2 (length chunks)
         ++ [(2 + Z.of_nat (length chunks),
              if bool_decide (errorMsg = "") then StreamStatusEnd else StreamStatusError)].
Proof.
  intros Hc Hne Hf1 Hf2. unfold stream_session.
  destruct (StartStream_state svc envStream envStart req st) as [_ Hk1].
  set (st1 := (StartStream svc envStream envStart req st).1) in *.
  assert (Hp1 : published st1
                = published st
                  ++ delivery_frames (start_request (env_uuid envStream) req)
                       (deliver_of (new_message envStart
                                      (start_request (env_uuid envStream) req)))).
  { unfold st1, StartStream.
    set (st0 := with_kv _ st).
    pose proof (Send_c2c_ack svc envStart (start_request (env_uuid envStream) req) st0 Hc Hf1)
      as Hack.
    pose proof (published_Send svc envStart (start_request (env_uuid envStream) req) st0)
      as Hpub.
    rewrite Hack in Hpub. exact Hpub. }
  destruct (chunks_view svc (env_uuid envStream) chunks st1 (session_info envStream req 0)
              Hk1 Hc Hne) as (cframes & Hp2 & Hv2).
  destruct (send_chunks_state svc (env_uuid envStream) chunks st1 _ Hk1) as [_ Hk2].
  set (st2 := send_chunks svc (env_uuid envStream) chunks st1) in *.
  pose proof (published_EndStream_c2c svc envEnd (env_uuid envStream) finalText errorMsg st2
                _ Hk2 Hc Hf2) as Hp3.
  cbv zeta in Hp3.
  eexists. split.
  - rewrite Hp3, Hp2, Hp1, <- !app_assoc. reflexivity.
  - rewrite !stream_view_app.
    change (rTo req) with (rTo (start_request (env_uuid envStream) req)) at 1.
    rewrite stream_view_c2c by done.
    change (cache.DeliverChannel (rTo req))
      with (cache.DeliverChannel (si_to (session_info envStream req 0))) at 1.
    rewrite Hv2.
    match goal with
    | |- context [delivery_frames ?r ?d] =>
        change (rTo req) with (rTo r); rewrite (stream_view_c2c r d) by done
    end.
    simpl.
    replace (1 + Z.of_nat 0 + 1) with 2 by lia.
    replace (1 + Z.of_nat 0 + Z.of_nat (length chunks) + 1)
      with (2 + Z.of_nat (length chunks)) by lia.
    done.
Qed.

(** X20, witness: alice streams four chunks to bob. *)
Lemma c2c_stream_is_numbered_witness :
  exists frames,
    published (stream_session full_service (env_at "st-1" 1 1) (env_at "id-20" 200 200)
                 (env_at "id-29" 290 290) stream_open_request four_chunks "abcd" ""
                 empty_state)
    = frames
    /\ stream_view "im:deliver:bob" frames
       = [(1, "start"); (2, "chunk"); (3, "chunk"); (4, "chunk"); (5, "chunk"); (6, "end")].
Proof.
  destruct (c2c_stream_is_numbered full_service (env_at "st-1" 1 1) (env_at "id-20" 200 200)
              (env_at "id-29" 290 290) stream_open_request four_chunks "abcd" ""
              empty_state) as (frames & Hp & Hv).
  - reflexivity.
  - discriminate.
  - reflexivity.
  - reflexivity.
  - exists frames. split; [exact Hp|exact Hv].
Defined.

End stream_frames.

(** ** Presence, device by device *)

Section presence_devices.

Import cache.

Lemma device_tracks_transitions u d ops st acc :
  (d ∈ OnlineDevices st u <-> acc = Some true) ->
  (d ∈ OnlineDevices (presence_run st ops) u
   <-> foldl (note_transition u d) acc ops = Some true).
Proof.
  unfold presence_run. revert st acc.
  induction ops as [|op ops IH]; intros st acc Hacc; [done|].
  simpl. apply IH. destruct op as [u' d'|u' d']; simpl.
  - rewrite devices_SetDeviceOnline.
    destruct (decide (u = u')) as [->|Hu].
    + destruct (decide (d' = d)) as [->|Hd].
      * rewrite bool_decide_eq_true_2 by done. split; [done|]. intros _.
        apply elem_of_union. left. by apply elem_of_singleton.
      * rewrite bool_decide_eq_false_2 by (intros [_ ?]; done).
        rewrite elem_of_union, elem_of_singleton. rewrite <- Hacc. split; [|by right].
        intros [?|?]; [congruence|done].
    + rewrite bool_decide_eq_false_2 by (intros [? _]; congruence). done.
  - rewrite devices_SetDeviceOffline.
    destruct (decide (u = u')) as [->|Hu].
    + destruct (decide (d' = d)) as [->|Hd].
      * rewrite bool_decide_eq_true_2 by done. split; [|done].
        rewrite elem_of_difference, elem_of_singleton. intros [_ ?]. done.
      * rewrite bool_decide_eq_false_2 by (intros [_ ?]; done).
        rewrite elem_of_difference, elem_of_singleton. rewrite <- Hacc. split; [by intros [? _]|].
        intros ?. split; [done|congruence].
    + rewrite bool_decide_eq_false_2 by (intros [? _]; congruence). done.
Qed.

(** X21.  Presence follows each device's latest transition.  After any run
    of [set_online] / [set_offline] from the empty store, device [d] is among
    the online devices of [u] exactly when the latest transition of [(u, d)]
    was [set_online], and [u] is in the global online set exactly when this
    holds for at least one device. *)
Theorem presence_follows_last_transition (ops : list PresenceOp) (u d : string) :
  (d ∈ OnlineDevices (presence_run empty_state ops) u
   <-> last_transition u d ops = Some true)
  /\ (IsOnline (presence_run empty_state ops) u = true
      <-> exists d', last_transition u d' ops = Some true).
Proof.
  assert (Hdev : forall d', d' ∈ OnlineDevices (presence_run empty_state ops) u
                            <-> last_transition u d' ops = Some true).
  { intros d'. apply device_tracks_transitions. split; [|done].
    intros H. by apply elem_of_empty in H. }
  split; [apply Hdev|].
  rewrite IsOnline_true.
  rewrite (presence_inv_run ops empty_state presence_inv_empty u).
  split.
  - intros Hne. apply set_choose_L in Hne as [d' Hd']. exists d'. by apply Hdev.
  - intros [d' Hd']. apply Hdev in Hd'. intros He. rewrite He in Hd'.
    by apply elem_of_empty in Hd'.
Qed.

End presence_devices.

(** ** Comma-separated settings *)

Section csv_lists.

Import csv.

Lemma byte_to_string_no_comma b : b <> 44 -> 44 ∉ byte_to_string b.
Proof.
  intros Hb. unfold byte_to_string. case_bool_decide.
  - intros H1. apply list_elem_of_singleton in H1. congruence.
  - intros H1. apply elem_of_cons in H1 as [H1|H1].
    + apply (f_equal (fun z => Z.testbit z 7)) in H1.
      rewrite Z.lor_spec in H1. discriminate H1.
    + apply list_elem_of_singleton in H1.
      apply (f_equal (fun z => Z.testbit z 7)) in H1.
      rewrite Z.lor_spec in H1. discriminate H1.
Qed.

Lemma byte_to_string_not_nil b : byte_to_string b <> [].
Proof. unfold byte_to_string. by case_bool_decide. Qed.

Lemma splitCSV_step_inv acc b :
  (Forall (fun p => p <> [] /\ 44 ∉ p) acc.1 /\ 44 ∉ acc.2) ->
  Forall (fun p => p <> [] /\ 44 ∉ p) (splitCSV_step acc b).1 /\ 44 ∉ (splitCSV_step acc b).2.
Proof.
  intros [Ho Hc]. unfold splitCSV_step. case_bool_decide as Hb.
  - case_bool_decide as He; [done|]. simpl. split.
    + apply Forall_app. split; [done|]. by constructor.
    + apply not_elem_of_nil.
  - simpl. split; [done|]. intros Hin. apply elem_of_app in Hin as [?|Hin]; [done|].
    by apply byte_to_string_no_comma in Hin.
Qed.

Lemma splitCSV_run_inv s acc :
  (Forall (fun p => p <> [] /\ 44 ∉ p) acc.1 /\ 44 ∉ acc.2) ->
  Forall (fun p => p <> [] /\ 44 ∉ p) (foldl splitCSV_step acc s).1
  /\ 44 ∉ (foldl splitCSV_step acc s).2.
Proof.
  revert acc. induction s as [|b s IH]; intros acc H; [done|].
  simpl. by apply IH, splitCSV_step_inv.
Qed.

Lemma split_run_plain out cur p rest :
  Forall (fun b => 0 <= b < 128 /\ b <> 44) p ->
  foldl splitCSV_step (out, cur) (p ++ rest) = foldl splitCSV_step (out, cur ++ p) rest.
Proof.
  intros Hp. revert cur. induction Hp as [|b p [Hr Hb] _ IH]; intros cur.
  - by rewrite app_nil_r.
  - simpl. unfold splitCSV_step at 2. simpl.
    rewrite (bool_decide_eq_false_2 (b = 44)) by done.
    unfold byte_to_string. rewrite bool_decide_eq_true_2 by lia.
    rewrite IH. by rewrite <- app_assoc.
Qed.

Lemma split_join out pieces :
  Forall plain pieces ->
  (let acc := foldl splitCSV_step (out, []) (join pieces) in
   if bool_decide (acc.2 = []) then acc.1 else acc.1 ++ [acc.2]) = out ++ pieces.
Proof.
  intros Hp. revert out. induction Hp as [|p rest [Hne Hplain] Hrest IH]; intros out.
  - simpl. by rewrite app_nil_r.
  - destruct rest as [|q rest].
    + simpl join.
      pose proof (split_run_plain out [] p [] Hplain) as E.
      rewrite app_nil_r in E. simpl in E. cbv zeta. rewrite E. simpl.
      by rewrite bool_decide_eq_false_2.
    + change (join (p :: q :: rest)) with (p ++ 44 :: join (q :: rest)).
      cbv zeta. rewrite split_run_plain by done.
      change (foldl splitCSV_step (out, [] ++ p) (44 :: join (q :: rest)))
        with (foldl splitCSV_step (splitCSV_step (out, p) 44) (join (q :: rest))).
      assert (Hs : splitCSV_step (out, p) 44 = (out ++ [p], [])).
      { unfold splitCSV_step. simpl. by rewrite (bool_decide_eq_false_2 (p = [])). }
      rewrite Hs.
      specialize (IH (out ++ [p])). cbv zeta in IH. rewrite IH.
      by rewrite <- app_assoc.
Qed.

(** X22.  [splitCSV] undoes a join with commas: a list of non-empty ASCII
    entries without commas, joined by commas, is split back into the same
    entries.  On any input the entries returned are never empty and never
    contain a comma (empty fields are dropped). *)
Theorem splitCSV_round_trip (pieces : list (list Z)) (s : list Z) :
  Forall plain pieces ->
  splitCSV (join pieces) = pieces
  /\ Forall (fun p => p <> [] /\ 44 ∉ p) (splitCSV s).
Proof.
  intros Hp. split.
  - unfold splitCSV. apply (split_join [] pieces Hp).
  - unfold splitCSV.
    destruct (splitCSV_run_inv s ([], [])) as [Ho Hc].
    { split; [constructor|apply not_elem_of_nil]. }
    case_bool_decide as He; [done|].
    apply Forall_app. split; [done|]. by constructor.
Qed.

(** X22, witness: "a,b", and ",,a,,b," whose empty fields are dropped. *)
Lemma splitCSV_round_trip_witness :
  splitCSV [97; 44; 98] = ab
  /\ Forall (fun p => p <> [] /\ 44 ∉ p) (splitCSV [44; 44; 97; 44; 44; 98; 44]).
Proof.
  apply (splitCSV_round_trip ab [44; 44; 97; 44; 44; 98; 44]).
  repeat constructor; try lia; discriminate.
Defined.

Lemma until_comma_app p rest :
  Forall (fun b => b <> 44) p ->
  until_comma (p ++ rest) = (p ++ (until_comma rest).1, (until_comma rest).2).
Proof.
  induction 1 as [|b p Hb _ IH]; simpl; [by destruct (until_comma rest)|].
  rewrite bool_decide_eq_false_2 by done. by rewrite IH.
Qed.

Lemma trimLeft_spaces n l : head l <> Some 32 -> trimLeft (replicate n 32 ++ l) = l.
Proof.
  intros Hh. induction n as [|n IH]; simpl.
  - destruct l as [|b l]; [done|]. simpl. rewrite bool_decide_eq_false_2; [done|].
    intros ->. by apply Hh.
  - exact IH.
Qed.

Lemma reverse_replicate {A} n (x : A) : reverse (replicate n x) = replicate n x.
Proof.
  induction n as [|n IH]; [done|]. simpl. rewrite reverse_cons, IH.
  clear IH. induction n as [|n IH]; [done|]. simpl. by rewrite IH.
Qed.

Lemma trim_padded e : server_name e.1.2 -> trimRight (trimLeft (padded e)) = e.1.2.
Proof.
  intros (Hne & _ & Hh & Hl). unfold padded, trimRight.
  rewrite trimLeft_spaces.
  2:{ destruct (e.1.2) as [|b l]; [done|]. done. }
  rewrite reverse_app, reverse_replicate, trimLeft_spaces.
  - apply reverse_involutive.
  - rewrite head_reverse. done.
Qed.

Lemma padded_no_comma e : server_name e.1.2 -> Forall (fun b => b <> 44) (padded e).
Proof.
  intros (_ & Hc & _). unfold padded. rewrite !Forall_app. repeat split; [|done|].
  - apply Forall_replicate. done.
  - apply Forall_replicate. done.
Qed.

Lemma padded_not_nil e : server_name e.1.2 -> padded e <> [].
Proof.
  intros (Hne & _) E. unfold padded in E.
  apply app_eq_nil in E as [_ E]. apply app_eq_nil in E as [E _]. done.
Qed.

Lemma parse_from_nil fuel : parse_from fuel [] = [].
Proof. by destruct fuel. Qed.

Lemma parse_from_join entries fuel :
  Forall (fun e => server_name e.1.2) entries ->
  (length (join (map padded entries)) <= fuel)%nat ->
  parse_from fuel (join (map padded entries)) = map (fun e => e.1.2) entries.
Proof.
  intros Hs. revert fuel. induction Hs as [|e rest He Hrest IH]; intros fuel Hf.
  - simpl. apply parse_from_nil.
  - assert (Hstep : forall tail J,
              (tail = [] /\ J = []) \/ tail = 44 :: J ->
              (length (padded e ++ tail) <= fuel)%nat ->
              parse_from fuel (padded e ++ tail) = e.1.2 :: parse_from (pred fuel) J).
    { intros tail J Ht Hlen.
      pose proof (padded_not_nil e He) as Hpn.
      destruct fuel as [|fuel'].
      { rewrite length_app in Hlen. destruct (padded e); [done|simpl in Hlen; lia]. }
      simpl parse_from.
      destruct (padded e ++ tail) as [|b0 l0] eqn:Es.
      { apply app_eq_nil in Es as [? _]. done. }
      rewrite <- Es. rewrite until_comma_app by by apply padded_no_comma.
      assert (Hu : until_comma tail = ([], tail)).
      { destruct Ht as [[-> ->]| ->]; simpl; done. }
      rewrite Hu. simpl. rewrite app_nil_r.
      rewrite (bool_decide_eq_false_2 (padded e = [])) by done.
      rewrite trim_padded by done.
      rewrite (bool_decide_eq_false_2 (e.1.2 = [])) by apply He.
      simpl. f_equal.
      destruct Ht as [[-> ->]| ->]; [by rewrite !parse_from_nil|done]. }
    destruct rest as [|e2 rest].
    + simpl map. simpl join. rewrite <- (app_nil_r (padded e)).
      rewrite (Hstep [] []); [|by left|by rewrite app_nil_r in *].
      by rewrite parse_from_nil.
    + change (join (map padded (e :: e2 :: rest)))
        with (padded e ++ 44 :: join (map padded (e2 :: rest))) in *.
      rewrite (Hstep (44 :: join (map padded (e2 :: rest))) (join (map padded (e2 :: rest))));
        [|by right|done].
      change (map (fun e0 : nat * list Z * nat => e0.1.2) (e :: e2 :: rest))
        with (e.1.2 :: map (fun e0 : nat * list Z * nat => e0.1.2) (e2 :: rest)).
      f_equal. apply (IH (pred fuel)).
      change (join (padded e2 :: map padded rest)) with (join (map padded (e2 :: rest))).
      revert Hf. generalize (join (map padded (e2 :: rest))). intros J Hf.
      rewrite length_app in Hf. simpl in Hf. lia.
Qed.

(** X23.  [parseServerList] reads back a server list written with commas
    and optional spaces: for server names that are not empty, contain no
    comma and neither start nor end with a space, each written with any
    number of spaces before and after it and joined by commas, the result is
    exactly the list of names. *)
Theorem parseServerList_round_trip (entries : list (nat * list Z * nat)) :
  Forall (fun e => server_name e.1.2) entries ->
  parseServerList (join (map padded entries)) = map (fun e => e.1.2) entries.
Proof.
  intros Hs. unfold parseServerList. case_bool_decide as He.
  - rewrite <- (parse_from_join entries 0 Hs); [|rewrite He; simpl; lia].
    rewrite He. done.
  - by apply parse_from_join.
Qed.

(** X23, witness: " a , b " gives a and b. *)
Lemma parseServerList_round_trip_witness :
  parseServerList [32; 97; 32; 44; 32; 98; 32] = [[97]; [98]].
Proof.
  apply (parseServerList_round_trip ab_padded).
  repeat constructor; try discriminate.
Defined.

End csv_lists.

(** ** Per-user conversation settings and the unread count end to end *)

Section settings.

Import ConversationStore ReceiptStore ConversationList services.

Lemma update_flags_missing f u c now st :
  user_conversations st !! (u, c) = None -> update_flags f u c now st = st.
Proof.
  intros H. unfold update_flags, with_user_conversations. rewrite H. by destruct st.
Qed.

Lemma update_flags_lookup f u c now st r :
  user_conversations st !! (u, c) = Some r ->
  user_conversations (update_flags f u c now st) !! (u, c) = Some (f r now).
Proof.
  intros H. unfold update_flags. simpl. rewrite H. apply lookup_insert_eq.
Qed.

(** X24.  Pinned, muted and draft are the user's own: set on an existing
    [user_conversations] row they are still there after any gateway traffic
    (sends, reads, recalls and stream actions only move [updated_at]); for a
    user who has no row for the conversation the three updates change
    nothing, and no row is created. *)
Theorem flags_survive_traffic (s : ws.Server) (u c : string) (pinned muted : bool)
  (draft : string) (now : Time) (st : State) (frames : list Inbound) :
  match user_conversations st !! (u, c) with
  | None => set_flags u c pinned muted draft now st = st
  | Some r0 =>
      exists r, user_conversations (inbound_run s (set_flags u c pinned muted draft now st) frames)
                  !! (u, c) = Some r
                /\ uc_pinned r = pinned /\ uc_muted r = muted /\ uc_draft r = Some draft
                /\ uc_conv_type r = uc_conv_type r0 /\ uc_peer_id r = uc_peer_id r0
                /\ uc_group_id r = uc_group_id r0
  end.
Proof.
  destruct (user_conversations st !! (u, c)) as [r0|] eqn:E.
  - assert (E3 : user_conversations (set_flags u c pinned muted draft now st) !! (u, c)
                 = Some (mkUserConversationRow (uc_conv_type r0) (uc_peer_id r0)
                           (uc_group_id r0) pinned muted (Some draft) now)).
    { unfold set_flags, SetDraft, SetMuted, SetPinned.
      eapply eq_trans.
      - apply update_flags_lookup, update_flags_lookup, update_flags_lookup. exact E.
      - reflexivity. }
    destruct (inbound_run_grows s frames (set_flags u c pinned muted draft now st))
      as (_ & Hflags & _).
    destruct (Hflags _ _ E3) as (r & Hr & Hp & Hm & Hd & Ht & Hpe & Hg).
    exists r. simpl in *. repeat split; done.
  - unfold set_flags, SetDraft, SetMuted, SetPinned.
    by rewrite !(update_flags_missing _ u c now st E).
Qed.

Lemma kv_send_c2c s env u p st :
  ConvStore (ws.MsgSvc s) = true ->
  ws.rateLimitAllow s env = true ->
  ws.permission_denied s u ConversationTypeC2C p = None ->
  ws.pConvType p <> ConversationTypeGroup ->
  env_append_fails env = false ->
  kv (ws.handle_send s env u p st).1
  = <[lastSeqCacheKey (ws.pConvID p) := VInt (env_nano env)]> (kv st).
Proof.
  intros Hcs Hr Hp Hc Hf.
  assert (Hct : ToConvType (ws.pConvType p) = ConversationTypeC2C).
  { unfold ToConvType. by rewrite bool_decide_eq_false_2. }
  unfold ws.handle_send. rewrite Hr, Hct, Hp. simpl negb. cbv iota.
  set (req := ws.send_request u ConversationTypeC2C p).
  pose proof (Send_c2c_ack (ws.MsgSvc s) env req st eq_refl Hf) as Hack.
  assert (Hkv : kv (Send (ws.MsgSvc s) env req st).1
                = <[lastSeqCacheKey (ws.pConvID p) := VInt (env_nano env)]> (kv st)).
  { unfold Send. rewrite Hf, andb_false_r, Hcs. simpl.
    rewrite kv_update_index. done. }
  destruct (Send (ws.MsgSvc s) env req st) as [st1 r]. simpl in Hack, Hkv. subst r.
  simpl. by rewrite kv_publish_mentions.
Qed.

(** X25.  Reading what was sent clears the unread count.  After an accepted
    one-to-one send (conversation index enabled) and the recipient's read
    frame at the acknowledged seq, the recipient's conversation list reports
    for that conversation [lastSeq = readSeq =] the acknowledged seq and
    [unread = 0] (while the two cache entries live). *)
Theorem read_after_send_clears_unread (s : ws.Server) (env envRead : Env) (u : string)
  (p : ws.SendPayload) (st : State) (limit : Z) (it : UnreadItem) :
  ConvStore (ws.MsgSvc s) = true ->
  ws.Receipt s = true ->
  ws.rateLimitAllow s env = true ->
  ws.permission_denied s u ConversationTypeC2C p = None ->
  ws.pConvType p <> ConversationTypeGroup ->
  env_append_fails env = false ->
  it ∈ (ListWithUnread
          (ws.handle_read s envRead (ws.pTo p) (ws.pConvID p) (env_nano env)
             (ws.handle_send s env u p st).1).1 (ws.pTo p) limit).2 ->
  ui_convId it = ws.pConvID p ->
  ui_lastSeq it = env_nano env /\ ui_readSeq it = env_nano env /\ ui_unread it = 0.
Proof.
  intros Hcs Hrc Hr Hp Hc Hf Hin Hid.
  pose proof (kv_send_c2c s env u p st Hcs Hr Hp Hc Hf) as Hkv1.
  revert Hin Hkv1. generalize (ws.handle_send s env u p st).1. intros st1 Hin Hkv1.
  destruct (handle_read_cache s envRead (ws.pTo p) (ws.pConvID p) (env_nano env) st1 Hrc)
    as [Hkv2 _].
  revert Hin Hkv2.
  generalize (ws.handle_read s envRead (ws.pTo p) (ws.pConvID p) (env_nano env) st1).1.
  intros st2 Hin Hkv2.
  unfold ListWithUnread in Hin. cbn [snd] in Hin.
  apply list_elem_of_fmap in Hin as (x & -> & _).
  unfold unread_item in Hid. cbn [ui_convId] in Hid.
  assert (Hls : lastSeq_of st2 (rd_convID x) = env_nano env).
  { unfold lastSeq_of, parseInt64. rewrite Hkv2, Hid.
    rewrite lookup_insert_ne by (intros E; symmetry in E; by apply cache_keys_disjoint in E).
    rewrite Hkv1. by rewrite lookup_insert_eq. }
  assert (Hrs : readSeq_of st2 (ws.pTo p) (rd_convID x) = env_nano env).
  { unfold readSeq_of, parseInt64. rewrite Hkv2, Hid. by rewrite lookup_insert_eq. }
  unfold unread_item. cbv zeta. cbn [ui_lastSeq ui_readSeq ui_unread].
  rewrite Hls, Hrs. repeat split; try done.
  case_bool_decide; lia.
Qed.

(** X25, witness: alice's hello, read by bob. *)
Lemma read_after_send_clears_unread_witness :
  ui_lastSeq bob_hello_item = 100 /\ ui_readSeq bob_hello_item = 100
  /\ ui_unread bob_hello_item = 0.
Proof.
  apply (read_after_send_clears_unread gateway (env_at "id-1" 100 100) (env_at "r" 200 200)
           "alice" hello_payload empty_state 10 bob_hello_item).
  - reflexivity.
  - reflexivity.
  - reflexivity.
  - reflexivity.
  - discriminate.
  - reflexivity.
  - vm_compute. left.
  - reflexivity.
Defined.

End settings.

(** ** Muted senders *)

Section muted_senders.

Import MessageStore services GroupMembers.

Lemma Send_muted svc env req st :
  rConvType req = ConversationTypeGroup -> GroupStore_ svc = true ->
  env_append_fails env = false ->
  GroupStore.IsMuted st (rGroupID req) (rFrom req) (env_now env) = true ->
  (Send svc env req st).2 = inl ErrMuted.
Proof.
  intros Hc Hg Hf Hm. unfold Send. rewrite Hf, andb_false_r.
  set (st1 := if shouldStore req then _ else st).
  set (st2 := if ConvStore svc && _ then _ else st1).
  assert (H2 : GroupStore.IsMuted st2 (rGroupID req) (rFrom req) (env_now env) = true).
  { rewrite <- Hm. apply IsMuted_same_tables; unfold st2, st1;
      repeat case_match;
      rewrite ?(proj1 (mute_tables_update_index _ _ _ _ _)),
              ?(proj2 (mute_tables_update_index _ _ _ _ _)); done. }
  rewrite H2, Hc, Hg. simpl. done.
Qed.

(** X26.  What a muted sender gets.  A group send by a sender for whom
    [IsMuted] holds (the group is muted, or the member is muted until a
    later time) is answered with SEND_FAILED "group is muted or user muted"
    and nothing is published; the message itself has by then gone through
    the idempotent append to the log. *)
Theorem muted_group_send_outcome (s : ws.Server) (env : Env) (userID : string)
  (p : ws.SendPayload) (st : State) :
  GroupStore_ (ws.MsgSvc s) = true ->
  ws.rateLimitAllow s env = true ->
  ws.permission_denied s userID ConversationTypeGroup p = None ->
  ws.pConvType p = ConversationTypeGroup ->
  env_append_fails env = false ->
  GroupStore.IsMuted st (ws.pGroupID p) userID (env_now env) = true ->
  (ws.handle_send s env userID p st).2
  = [FError "SEND_FAILED" "group is muted or user muted"]
  /\ published (ws.handle_send s env userID p st).1 = published st
  /\ messages (ws.handle_send s env userID p st).1
     = Append (messages st) (new_message env (ws.send_request userID ConversationTypeGroup p)).
Proof.
  intros Hg Hr Hp Hc Hf Hm.
  assert (Hct : ToConvType (ws.pConvType p) = ConversationTypeGroup).
  { unfold ToConvType. by rewrite bool_decide_eq_true_2. }
  set (req := ws.send_request userID ConversationTypeGroup p).
  unfold ws.handle_send. rewrite Hr, Hct, Hp. simpl negb. cbv iota. fold req.
  pose proof (Send_muted (ws.MsgSvc s) env req st eq_refl Hg Hf Hm) as Herr.
  pose proof (published_Send (ws.MsgSvc s) env req st) as Hpub.
  pose proof (Send_messages (ws.MsgSvc s) env req st) as Hmsg.
  destruct (Send (ws.MsgSvc s) env req st) as [st1 r]. simpl in Herr, Hpub, Hmsg. subst r.
  simpl. split; [done|]. split; [done|].
  rewrite Hmsg, Hf. reflexivity.
Qed.

(** X26, witness: alice writes to group g1 after it has been muted. *)
Lemma muted_group_send_outcome_witness :
  (ws.handle_send gateway (env_at "id-1" 100 100) "alice" mention_payload
     (SetGroupMute "g1" true team_state)).2
  = [FError "SEND_FAILED" "group is muted or user muted"]
  /\ published (ws.handle_send gateway (env_at "id-1" 100 100) "alice" mention_payload
                  (SetGroupMute "g1" true team_state)).1 = []
  /\ map ClientMsgID (messages (ws.handle_send gateway (env_at "id-1" 100 100) "alice"
                                  mention_payload (SetGroupMute "g1" true team_state)).1)
     = ["cm-9"].
Proof.
  destruct (muted_group_send_outcome gateway (env_at "id-1" 100 100) "alice" mention_payload
              (SetGroupMute "g1" true team_state)) as (H1 & H2 & H3).
  - reflexivity.
  - reflexivity.
  - reflexivity.
  - reflexivity.
  - reflexivity.
  - vm_compute. reflexivity.
  - split; [exact H1|]. split; [exact H2|]. rewrite H3. vm_compute. reflexivity.
Defined.

(** X27.  The group-wide mute switch.  On a group that has a row,
    [SetGroupMute(g, true)] mutes every user of [g] whatever their member
    state, and [SetGroupMute(g, false)] leaves exactly the member mutes (a
    member is muted while [now] is before their [muted_until]); other groups
    are not affected.  On a group without a row the update changes
    nothing. *)
Theorem group_mute_switch (st : State) (g u : string) (now : Time) (b : bool) :
  match groups_muted st !! g with
  | None => SetGroupMute g b st = st
  | Some _ =>
      GroupStore.IsMuted (SetGroupMute g true st) g u now = true
      /\ GroupStore.IsMuted (SetGroupMute g false st) g u now
         = domain.MemberIsMuted (default None (members_muted_until st !! (g, u))) now
      /\ (forall g', g' <> g ->
            GroupStore.IsMuted (SetGroupMute g b st) g' u now = GroupStore.IsMuted st g' u now)
  end.
Proof.
  destruct (groups_muted st !! g) as [old|] eqn:E.
  - unfold SetGroupMute, GroupStore.IsMuted. simpl. rewrite E.
    rewrite !lookup_insert_eq. split; [done|]. split.
    + destruct (members_muted_until st !! (g, u)) as [[t|]|]; done.
    + intros g' Hg'. by rewrite lookup_insert_ne.
  - unfold SetGroupMute, with_groups_muted. rewrite E. by destruct st.
Qed.

End muted_senders.
